(** * Duplicate-frame removal of licecap: similarity metric and run collapsing

    A shallow embedding of [licecap/duplicate_frame_removal.cpp] and of the
    declarations of [licecap/duplicate_frame_removal.h], followed by the
    properties of the pixel equality rule, of the duplicate collapser and of
    the similarity engine.

    Conventions of the embedding.
    - [int], [long] and [size_t] values are integers of [Z].  The arithmetic
      on caller data (delay sums, run lengths, region corners of a frame)
      wraps to 32 bits, written out with [wrap_int].
    - [CalculateSimilarity] is embedded twice.  [CalculateSimilarity] computes
      coordinates, strides and sample counts exactly and reads 0 outside a
      pixel buffer.  [CalculateSimilarity_int] reduces every [int] operation
      of the manual scan to 32 bits and checks every read against the
      buffer.  The two agree on valid bitmaps whose loop counters stay
      [int]s ([CalculateSimilarity_int_exact]); beyond that the source
      overflows, and only [CalculateSimilarity_int] follows it.  The sample
      count fits a 64-bit [long].
    - [double] is IEEE-754 binary64 as the standard library's [SpecFloat]
      specifies it, with [prec = 53] and [emax = 1024].
    - a [LICE_IBitmap*] is an [option LICE_IBitmap]; the pixel buffer is a
      list read by offset.
    - output parameters ([FrameArray*], [IndexArray*], [double*]) are passed
      in and returned; [malloc] and [realloc] succeed. *)

From Stdlib Require Import ZArith Bool Lia.
From Corelib Require Import SpecFloat.
From stdpp Require Import base list.

Local Open Scope Z_scope.

(** ** Integers of the C++ code *)

(** Two's-complement reduction of an integer to the 32-bit [int]. *)
Definition wrap_int (z : Z) : Z := (z + 2 ^ 31) mod 2 ^ 32 - 2 ^ 31.

Definition int_range (z : Z) : Prop := - 2 ^ 31 <= z < 2 ^ 31.

(** ** Doubles *)

Definition double : Type := spec_float.

Definition dbl_prec : Z := 53.
Definition dbl_emax : Z := 1024.

(** [(double)z] for an integer [z]. *)
Definition double_of_long (z : Z) : double :=
  binary_normalize dbl_prec dbl_emax z 0 false.

Definition dbl_div (a b : double) : double := SFdiv dbl_prec dbl_emax a b.
Definition dbl_sub (a b : double) : double := SFsub dbl_prec dbl_emax a b.
(** [a < b], [a <= b] and [a >= b] on doubles (false on NaN). *)
Definition dbl_lt (a b : double) : bool := SFltb a b.
Definition dbl_le (a b : double) : bool := SFleb a b.
Definition dbl_ge (a b : double) : bool := SFleb b a.

(** The literals [0.0] and [1.0]. *)
Definition dbl_0 : double := S754_zero false.
Definition dbl_1 : double := S754_finite false 4503599627370496 (-52).

(** ** Data model of duplicate_frame_removal.h *)

Definition LICE_pixel : Type := Z.

(** The part of [LICE_IBitmap] the code reads: its accessors. *)
Record LICE_IBitmap : Type := {
  getWidth : Z;
  getHeight : Z;
  getRowSpan : Z;
  isFlipped : bool;
  getBits : list LICE_pixel
}.

Module RECT.
Record t : Type := mk { left : Z; top : Z; right : Z; bottom : Z }.
End RECT.

Module FrameInfo.
Record t : Type := mk {
  index : Z;
  bmp : option LICE_IBitmap;
  delay_ms : Z;
  x : Z; y : Z; w : Z; h : Z
}.

(** The constructor [FrameInfo(idx, b, delay)]: no region. *)
Definition make (idx : Z) (b : option LICE_IBitmap) (delay : Z) : t :=
  mk idx b delay 0 0 0 0.

(** The assignment [f.delay_ms = d]. *)
Definition set_delay_ms (f : t) (d : Z) : t :=
  mk (index f) (bmp f) d (x f) (y f) (w f) (h f).
End FrameInfo.

Inductive DuplicateRemovalMode : Type :=
  | kDuplicateKeepFirst
  | kDuplicateKeepLast.

Inductive DelayAdjustMode : Type :=
  | kDontAdjust
  | kAverage
  | kSum.

Record DuplicateFrameRemovalSettings : Type := {
  similarity_threshold : double;
  sample_step_x : Z;
  sample_step_y : Z;
  per_channel_tolerance : Z;
  channel_mask : LICE_pixel;
  keep_mode : DuplicateRemovalMode;
  delay_adjust_mode : DelayAdjustMode;
  enable_early_out : bool
}.

(** ** The LICE collaborator *)

(** Modelled from the spec: [WDL/lice/lice.h] and the exact bitmap compare
    [LICE_BitmapCmpEx] are not among the sources.  A pixel is a packed value
    with four 8-bit channels, and the bit offset of each channel is a
    parameter.  The exact bitmap compare is a parameter too: it returns a
    status (0 when the bitmaps are identical under the mask) and the box
    [x, y, w, h] it wrote to [coordsOut]. *)
Class LICE : Type := {
  LICE_SHIFT_R : Z;
  LICE_SHIFT_G : Z;
  LICE_SHIFT_B : Z;
  LICE_SHIFT_A : Z;
  LICE_BitmapCmpEx :
    option LICE_IBitmap -> option LICE_IBitmap -> LICE_pixel -> Z * (Z * Z * Z * Z)
}.

Inductive channel : Type := chR | chG | chB | chA.

Section Pixels.
Context `{LICE}.

Definition channel_shift (c : channel) : Z :=
  match c with
  | chR => LICE_SHIFT_R
  | chG => LICE_SHIFT_G
  | chB => LICE_SHIFT_B
  | chA => LICE_SHIFT_A
  end.

(** Modelled from the spec: the macros [LICE_GETR] .. [LICE_GETA] of lice.h,
    the 8-bit value of channel [c] of a pixel. *)
Definition LICE_GET (c : channel) (v : LICE_pixel) : Z :=
  Z.land (Z.shiftr v (channel_shift c)) 255.

Definition LICE_GETR : LICE_pixel -> Z := LICE_GET chR.
Definition LICE_GETG : LICE_pixel -> Z := LICE_GET chG.
Definition LICE_GETB : LICE_pixel -> Z := LICE_GET chB.
Definition LICE_GETA : LICE_pixel -> Z := LICE_GET chA.

(** Modelled from the spec: the macro [LICE_RGBA] of lice.h, which packs
    four channel values, each reduced to 8 bits, at their offsets. *)
Definition LICE_RGBA (r g b a : Z) : LICE_pixel :=
  Z.lor (Z.lor (Z.lor (Z.shiftl (Z.land b 255) LICE_SHIFT_B)
                      (Z.shiftl (Z.land g 255) LICE_SHIFT_G))
               (Z.shiftl (Z.land r 255) LICE_SHIFT_R))
        (Z.shiftl (Z.land a 255) LICE_SHIFT_A).

(** ** Internal helpers of duplicate_frame_removal.cpp *)

(** One of the four channel blocks of [pixels_equal]: the channel is tested
    when [channel_mask & sel] is non-zero, and fails when the absolute
    difference of the two channel values exceeds [tol]. *)
Definition channel_exceeds (mask sel : LICE_pixel) (c1 c2 tol : Z) : bool :=
  negb (Z.land mask sel =? 0) && (tol <? Z.abs (c1 - c2)).

Definition pixels_equal (p1 p2 : LICE_pixel)
    (cfg : DuplicateFrameRemovalSettings) : bool :=
  if per_channel_tolerance cfg <=? 0 then
    Z.land (Z.lxor p1 p2) (channel_mask cfg) =? 0
  else
    let tol := per_channel_tolerance cfg in
    if channel_exceeds (channel_mask cfg) (LICE_RGBA 255 0 0 0)
         (LICE_GETR p1) (LICE_GETR p2) tol then false
    else if channel_exceeds (channel_mask cfg) (LICE_RGBA 0 255 0 0)
         (LICE_GETG p1) (LICE_GETG p2) tol then false
    else if channel_exceeds (channel_mask cfg) (LICE_RGBA 0 0 255 0)
         (LICE_GETB p1) (LICE_GETB p2) tol then false
    else if channel_exceeds (channel_mask cfg) (LICE_RGBA 0 0 0 255)
         (LICE_GETA p1) (LICE_GETA p2) tol then false
    else true.
End Pixels.

Definition clampi (v lo hi : Z) : Z :=
  if v <? lo then lo else if hi <? v then hi else v.

Definition compute_roi (a b : option LICE_IBitmap) (roi_in : option RECT.t)
    : RECT.t :=
  let aw := match a with Some bm => getWidth bm | None => 0 end in
  let ah := match a with Some bm => getHeight bm | None => 0 end in
  let bw := match b with Some bm => getWidth bm | None => 0 end in
  let bh := match b with Some bm => getHeight bm | None => 0 end in
  let w := if aw <? bw then aw else bw in
  let h := if ah <? bh then ah else bh in
  match roi_in with
  | None => RECT.mk 0 0 w h
  | Some roi =>
      let left := clampi (RECT.left roi) 0 w in
      let top := clampi (RECT.top roi) 0 h in
      let right := clampi (RECT.right roi) 0 w in
      let bottom := clampi (RECT.bottom roi) 0 h in
      RECT.mk left top
        (if right <? left then left else right)
        (if bottom <? top then top else bottom)
  end.

(** ** Dynamic arrays

    [count] is the length of the list; [malloc] and [realloc] are taken to
    succeed. *)

Module FrameArray.
Record t : Type := mk { frames : list FrameInfo.t; capacity : Z }.
Definition count (arr : t) : Z := Z.of_nat (length (frames arr)).
End FrameArray.

Module IndexArray.
Record t : Type := mk { indices : list Z; capacity : Z }.
Definition count (arr : t) : Z := Z.of_nat (length (indices arr)).
End IndexArray.

Definition FrameArray_Init (initial_capacity : Z) : FrameArray.t :=
  FrameArray.mk [] initial_capacity.

Definition IndexArray_Init (initial_capacity : Z) : IndexArray.t :=
  IndexArray.mk [] initial_capacity.

Definition FrameArray_Add (arr : FrameArray.t) (frame : FrameInfo.t)
    : FrameArray.t :=
  let capacity' :=
    if FrameArray.capacity arr <=? FrameArray.count arr then
      (if FrameArray.capacity arr =? 0 then 16 else FrameArray.capacity arr * 2)
    else FrameArray.capacity arr in
  FrameArray.mk (FrameArray.frames arr ++ [frame]) capacity'.

Definition IndexArray_Add (arr : IndexArray.t) (index : Z) : IndexArray.t :=
  let capacity' :=
    if IndexArray.capacity arr <=? IndexArray.count arr then
      (if IndexArray.capacity arr =? 0 then 16 else IndexArray.capacity arr * 2)
    else IndexArray.capacity arr in
  IndexArray.mk (IndexArray.indices arr ++ [index]) capacity'.

(** ** Reading pixels *)

(** [p[off]] for the buffer [p]; outside the buffer (undefined in the
    source) the model reads 0. *)
Definition peek (bits : list LICE_pixel) (off : Z) : LICE_pixel :=
  if off <? 0 then 0 else default 0 (bits !! Z.to_nat off).

(** The adjustment [if (a->isFlipped()) { p += span * (h - 1); span = -span; }]:
    offset of row 0 and signed distance between rows. *)
Definition row_origin (bm : LICE_IBitmap) : Z :=
  if isFlipped bm then getRowSpan bm * (getHeight bm - 1) else 0.

Definition row_stride (bm : LICE_IBitmap) : Z :=
  if isFlipped bm then - getRowSpan bm else getRowSpan bm.

(** Offset of [row[xx]] with [row = p + yy * span]. *)
Definition pixel_offset (bm : LICE_IBitmap) (xx yy : Z) : Z :=
  row_origin bm + yy * row_stride bm + xx.

(** The values taken by [v] in [for (v = lo; v < hi; v += step)], the
    additions exact: these are the values of the [int] counter of the source
    as long as [hi + step] does not exceed [INT_MAX + 1]
    ([scan_row_int_fits], [scan_rows_int_fits]). *)
Fixpoint for_steps (fuel : nat) (v hi step : Z) : list Z :=
  match fuel with
  | O => []
  | S fuel' => if v <? hi then v :: for_steps fuel' (v + step) hi step else []
  end.

Definition for_range (lo hi step : Z) : list Z :=
  for_steps (Z.to_nat (hi - lo)) lo hi step.

(** ** Public API: CalculateSimilarity *)

Record scan : Type := { equal_count : Z; processed : Z }.

(** Outcome of a loop body: go on, or [goto CALC_FINISH]. *)
Inductive scan_ctl : Type :=
  | scan_next (st : scan)
  | scan_finish (st : scan).

(** The clamping [if (v < 0.0) v = 0.0; if (v > 1.0) v = 1.0;]. *)
Definition clamp01 (v : double) : double :=
  let v1 := if dbl_lt v dbl_0 then dbl_0 else v in
  if dbl_lt dbl_1 v1 then dbl_1 else v1.

Section Similarity.
Context `{LICE}.

(** Body of the inner loop at column [xx] of row [yy]. *)
Definition scan_pixel (a b : LICE_IBitmap) (cfg : DuplicateFrameRemovalSettings)
    (total_samples : Z) (yy xx : Z) (st : scan) : scan_ctl :=
  let a_px := peek (getBits a) (pixel_offset a xx yy) in
  let b_px := peek (getBits b) (pixel_offset b xx yy) in
  let equal_count' :=
    if pixels_equal a_px b_px cfg then equal_count st + 1 else equal_count st in
  let processed' := processed st + 1 in
  let st' := {| equal_count := equal_count'; processed := processed' |} in
  if enable_early_out cfg then
    let remaining := total_samples - processed' in
    let best_case_equal := equal_count' + remaining in
    let best_case_sim :=
      dbl_div (double_of_long best_case_equal) (double_of_long total_samples) in
    if dbl_lt best_case_sim (similarity_threshold cfg)
    then scan_finish st' else scan_next st'
  else scan_next st'.

(** The inner loop over the sampled columns [xs] of row [yy]. *)
Fixpoint scan_row (a b : LICE_IBitmap) (cfg : DuplicateFrameRemovalSettings)
    (total_samples : Z) (yy : Z) (xs : list Z) (st : scan) : scan_ctl :=
  match xs with
  | [] => scan_next st
  | xx :: xs' =>
      match scan_pixel a b cfg total_samples yy xx st with
      | scan_finish st' => scan_finish st'
      | scan_next st' => scan_row a b cfg total_samples yy xs' st'
      end
  end.

(** The outer loop over the sampled rows [ys]; the result is the state at
    [CALC_FINISH]. *)
Fixpoint scan_rows (a b : LICE_IBitmap) (cfg : DuplicateFrameRemovalSettings)
    (total_samples : Z) (xs ys : list Z) (st : scan) : scan :=
  match ys with
  | [] => st
  | yy :: ys' =>
      match scan_row a b cfg total_samples yy xs st with
      | scan_finish st' => st'
      | scan_next st' => scan_rows a b cfg total_samples xs ys' st'
      end
  end.

(** The condition of the fast path, on the effective region [r]. *)
Definition fast_path_cond (a : LICE_IBitmap) (r : RECT.t)
    (cfg : DuplicateFrameRemovalSettings) : bool :=
  (per_channel_tolerance cfg <=? 0)
  && (sample_step_x cfg =? 1) && (sample_step_y cfg =? 1)
  && (RECT.left r =? 0) && (RECT.top r =? 0)
  && (RECT.right r =? getWidth a) && (RECT.bottom r =? getHeight a).

(** The fast path: exact compare, then the area-ratio estimate. *)
Definition fast_path (a b : LICE_IBitmap)
    (cfg : DuplicateFrameRemovalSettings) : double :=
  let '(ret, (_, _, dw, dh)) :=
    LICE_BitmapCmpEx (Some a) (Some b) (channel_mask cfg) in
  if ret =? 0 then dbl_1
  else
    let total := getWidth a * getHeight a in
    let diff := dw * dh in
    if total <=? 0 then dbl_0
    else
      clamp01 (dbl_sub dbl_1
                 (dbl_div (double_of_long diff) (double_of_long total))).

(** The manual scan with sampling and optional early-out, in exact
    arithmetic: the scan of the source whenever the bitmaps are valid and
    [steps_fit_int] holds ([generic_scan_int_fits]). *)
Definition generic_scan (a b : LICE_IBitmap) (r : RECT.t)
    (cfg : DuplicateFrameRemovalSettings) : double :=
  let rw := RECT.right r - RECT.left r in
  let rh := RECT.bottom r - RECT.top r in
  let sX := if 0 <? sample_step_x cfg then sample_step_x cfg else 1 in
  let sY := if 0 <? sample_step_y cfg then sample_step_y cfg else 1 in
  let roi_w_s := Z.quot (rw + (sX - 1)) sX in
  let roi_h_s := Z.quot (rh + (sY - 1)) sY in
  let total_samples := roi_w_s * roi_h_s in
  if total_samples <=? 0 then dbl_1
  else
    let st :=
      scan_rows a b cfg total_samples
        (for_range (RECT.left r) (RECT.right r) sX)
        (for_range (RECT.top r) (RECT.bottom r) sY)
        {| equal_count := 0; processed := 0 |} in
    if processed st <=? 0 then dbl_1
    else
      clamp01 (dbl_div (double_of_long (equal_count st))
                       (double_of_long total_samples)).

Definition CalculateSimilarity (a b : option LICE_IBitmap)
    (roi : option RECT.t) (cfg : DuplicateFrameRemovalSettings) : double :=
  match a, b with
  | Some bma, Some bmb =>
      if negb (getWidth bma =? getWidth bmb)
         || negb (getHeight bma =? getHeight bmb)
      then dbl_0
      else
        let r := compute_roi a b roi in
        let rw := RECT.right r - RECT.left r in
        let rh := RECT.bottom r - RECT.top r in
        if (rw <=? 0) || (rh <=? 0) then dbl_1
        else if fast_path_cond bma r cfg then fast_path bma bmb cfg
        else generic_scan bma bmb r cfg
  | _, _ => dbl_0
  end.

(** ** Public API: IsDuplicateFrame

    Returns the decision and the value written to [*out_similarity]. *)

(** The comparison region derived from the two frames (both bitmaps
    present). *)
Definition frame_roi (prev curr : FrameInfo.t) (pb cb : LICE_IBitmap)
    : RECT.t :=
  if (0 <? FrameInfo.w curr) && (0 <? FrameInfo.h curr) then
    RECT.mk (FrameInfo.x curr) (FrameInfo.y curr)
      (wrap_int (FrameInfo.x curr + FrameInfo.w curr))
      (wrap_int (FrameInfo.y curr + FrameInfo.h curr))
  else if (0 <? FrameInfo.w prev) && (0 <? FrameInfo.h prev) then
    RECT.mk (FrameInfo.x prev) (FrameInfo.y prev)
      (wrap_int (FrameInfo.x prev + FrameInfo.w prev))
      (wrap_int (FrameInfo.y prev + FrameInfo.h prev))
  else
    RECT.mk 0 0
      (if getWidth pb <? getWidth cb then getWidth pb else getWidth cb)
      (if getHeight pb <? getHeight cb then getHeight pb else getHeight cb).

Definition IsDuplicateFrame (prev curr : FrameInfo.t)
    (cfg : DuplicateFrameRemovalSettings) : bool * double :=
  match FrameInfo.bmp prev, FrameInfo.bmp curr with
  | Some pb, Some cb =>
      let roi := frame_roi prev curr pb cb in
      let sim :=
        CalculateSimilarity (FrameInfo.bmp prev) (FrameInfo.bmp curr)
          (Some roi) cfg in
      (dbl_ge sim (similarity_threshold cfg), sim)
  | _, _ => (false, dbl_0)
  end.
End Similarity.

(** ** Public API: RemoveDuplicateFrames *)

(** The local variables of the collapsing loop and the two output arrays. *)
Record collapse : Type := {
  pending : FrameInfo.t;
  group_count : Z;
  group_delay_sum : Z;
  removed : Z;
  output : option FrameArray.t;
  removed_indices : option IndexArray.t
}.

(** The delay adjustment of a flush, applied to [pending]. *)
Definition adjust_delay (cfg : DuplicateFrameRemovalSettings)
    (st : collapse) : FrameInfo.t :=
  match delay_adjust_mode cfg with
  | kSum => FrameInfo.set_delay_ms (pending st) (group_delay_sum st)
  | kAverage =>
      if 0 <? group_count st then
        FrameInfo.set_delay_ms (pending st)
          (Z.quot (group_delay_sum st) (group_count st))
      else pending st
  | kDontAdjust => pending st
  end.

(** [if (output) FrameArray_Add(output, &pending)] after the adjustment. *)
Definition flush_run (cfg : DuplicateFrameRemovalSettings) (st : collapse)
    : option FrameArray.t :=
  match output st with
  | Some arr => Some (FrameArray_Add arr (adjust_delay cfg st))
  | None => None
  end.

Definition add_index (arr : option IndexArray.t) (i : Z)
    : option IndexArray.t :=
  match arr with
  | Some ia => Some (IndexArray_Add ia i)
  | None => None
  end.

Section Collapser.
Context `{LICE}.

(** Body of the loop for the frame [cur] at index [i]. *)
Definition collapse_step (cfg : DuplicateFrameRemovalSettings) (i : Z)
    (cur : FrameInfo.t) (st : collapse) : collapse :=
  let is_dup := fst (IsDuplicateFrame (pending st) cur cfg) in
  if is_dup then
    let group_count' := wrap_int (group_count st + 1) in
    let group_delay_sum' :=
      wrap_int (group_delay_sum st + FrameInfo.delay_ms cur) in
    match keep_mode cfg with
    | kDuplicateKeepFirst =>
        {| pending := pending st;
           group_count := group_count';
           group_delay_sum := group_delay_sum';
           removed := removed st + 1;
           output := output st;
           removed_indices := add_index (removed_indices st) i |}
    | kDuplicateKeepLast =>
        {| pending := cur;
           group_count := group_count';
           group_delay_sum := group_delay_sum';
           removed := removed st + 1;
           output := output st;
           removed_indices := add_index (removed_indices st) (i - 1) |}
    end
  else
    {| pending := cur;
       group_count := 1;
       group_delay_sum := FrameInfo.delay_ms cur;
       removed := removed st;
       output := flush_run cfg st;
       removed_indices := removed_indices st |}.

(** [for (i = ...; i < input_count; ++i)] over the frames left to read. *)
Fixpoint collapse_loop (cfg : DuplicateFrameRemovalSettings) (i : Z)
    (rest : list FrameInfo.t) (st : collapse) : collapse :=
  match rest with
  | [] => st
  | cur :: rest' =>
      collapse_loop cfg (i + 1) rest' (collapse_step cfg i cur st)
  end.

(** Returns the number of removed frames and the two arrays as the call
    leaves them.  [output_arg] and [removed_indices_arg] are the caller's
    arrays
    ([None] for a null pointer). *)
Definition RemoveDuplicateFrames (input : list FrameInfo.t)
    (output_arg : option FrameArray.t) (cfg : DuplicateFrameRemovalSettings)
    (removed_indices_arg : option IndexArray.t)
    : Z * option FrameArray.t * option IndexArray.t :=
  match input with
  | [] => (0, output_arg, removed_indices_arg)
  | first :: rest =>
      let input_count := Z.of_nat (length input) in
      let st :=
        collapse_loop cfg 1 rest
          {| pending := first;
             group_count := 1;
             group_delay_sum := FrameInfo.delay_ms first;
             removed := 0;
             output :=
               match output_arg with
               | Some _ => Some (FrameArray_Init (Z.quot input_count 2))
               | None => None
               end;
             removed_indices :=
               match removed_indices_arg with
               | Some _ => Some (IndexArray_Init (Z.quot input_count 4))
               | None => None
               end |} in
      (removed st, flush_run cfg st, removed_indices st)
  end.
End Collapser.

(** The frames and the indices an array holds ([[]] for a null pointer). *)
Definition frames_of (arr : option FrameArray.t) : list FrameInfo.t :=
  match arr with Some a => FrameArray.frames a | None => [] end.

Definition indices_of (arr : option IndexArray.t) : list Z :=
  match arr with Some a => IndexArray.indices a | None => [] end.

(** An array as a caller declares it before the call. *)
Definition empty_frames : option FrameArray.t := Some (FrameArray_Init 0).
Definition empty_indices : option IndexArray.t := Some (IndexArray_Init 0).

(** ** The stand-in of the exact bitmap compare

    [LICE_BitmapCmpEx] as test_duplicate_simple.cpp defines it for linking:
    0 when the bitmaps are identical under [mask], otherwise 1 and the
    bounding box of the differing pixels. *)

Record bbox : Type := { minx : Z; miny : Z; maxx : Z; maxy : Z }.

Definition cmp_pixel (a b : LICE_IBitmap) (mask : LICE_pixel) (yy : Z)
    (box : bbox) (xx : Z) : bbox :=
  let r1 := peek (getBits a) (yy * getRowSpan a + xx) in
  let r2 := peek (getBits b) (yy * getRowSpan b + xx) in
  if negb (Z.land (Z.lxor r1 r2) mask =? 0) then
    {| minx := if xx <? minx box then xx else minx box;
       miny := if yy <? miny box then yy else miny box;
       maxx := if maxx box <? xx then xx else maxx box;
       maxy := if maxy box <? yy then yy else maxy box |}
  else box.

(** [getBits()] of the test bitmap is null when it holds no pixel. *)
Definition null_bits (bm : LICE_IBitmap) : bool :=
  match getBits bm with
  | [] => true
  | _ => false
  end.

Definition cmp_row (a b : LICE_IBitmap) (mask : LICE_pixel) (box : bbox)
    (yy : Z) : bbox :=
  fold_left (cmp_pixel a b mask yy) (for_range 0 (getWidth a) 1) box.

Definition simple_BitmapCmpEx (a b : option LICE_IBitmap) (mask : LICE_pixel)
    : Z * (Z * Z * Z * Z) :=
  match a, b with
  | Some bma, Some bmb =>
      let aw := getWidth bma in
      let ah := getHeight bma in
      let bw := getWidth bmb in
      let bh := getHeight bmb in
      if negb (aw =? bw) || negb (ah =? bh) then
        (1, (0, 0, if bw <? aw then aw else bw, if bh <? ah then ah else bh))
      else if null_bits bma || null_bits bmb || (aw <=? 0) || (ah <=? 0)
      then (0, (0, 0, 0, 0))
      else
        let box :=
          fold_left (cmp_row bma bmb mask) (for_range 0 ah 1)
            {| minx := aw; miny := ah; maxx := -1; maxy := -1 |} in
        if (maxx box <? minx box) || (maxy box <? miny box)
        then (0, (0, 0, 0, 0))
        else (1, (minx box, miny box,
                  maxx box - minx box + 1, maxy box - miny box + 1))
  | _, _ => (1, (0, 0, 0, 0))
  end.

(** The packing of lice.h on little-endian targets (blue in the low byte,
    alpha in the high byte) with the stand-in compare. *)
Definition lice_simple : LICE := {|
  LICE_SHIFT_R := 16;
  LICE_SHIFT_G := 8;
  LICE_SHIFT_B := 0;
  LICE_SHIFT_A := 24;
  LICE_BitmapCmpEx := simple_BitmapCmpEx
|}.

(** [DuplicateFrameRemovalSettings()]: the default settings, with the
    threshold 0.90 as the nearest double. *)
Definition default_settings : DuplicateFrameRemovalSettings := {|
  similarity_threshold := S754_finite false 8106479329266893 (-53);
  sample_step_x := 1;
  sample_step_y := 1;
  per_channel_tolerance := 0;
  channel_mask := @LICE_RGBA lice_simple 255 255 255 0;
  keep_mode := kDuplicateKeepFirst;
  delay_adjust_mode := kSum;
  enable_early_out := true
|}.

(** A tightly packed, unflipped bitmap filled with one pixel value
    ([make_solid] of the tests). *)
Definition make_solid (w h : Z) (px : LICE_pixel) : LICE_IBitmap := {|
  getWidth := w;
  getHeight := h;
  getRowSpan := w;
  isFlipped := false;
  getBits := repeat px (Z.to_nat (w * h))
|}.

(** ** Vocabulary of the properties *)

Section Runs.
Context `{LICE}.

(** The duplicate test of the collapser. *)
Definition is_dup (cfg : DuplicateFrameRemovalSettings)
    (prev cur : FrameInfo.t) : bool :=
  fst (IsDuplicateFrame prev cur cfg).

(** The frame later frames of a run are compared with, once [cur] joined the
    run whose comparison basis was [rep]. *)
Definition next_basis (keep : DuplicateRemovalMode) (rep cur : FrameInfo.t)
    : FrameInfo.t :=
  match keep with
  | kDuplicateKeepFirst => rep
  | kDuplicateKeepLast => cur
  end.

(** The runs of an input: a frame joins the current run [run] when it is a
    duplicate of the run's comparison basis [rep], and opens a new run
    otherwise. *)
Fixpoint runs_from (cfg : DuplicateFrameRemovalSettings) (rep : FrameInfo.t)
    (run rest : list FrameInfo.t) : list (list FrameInfo.t) :=
  match rest with
  | [] => [run]
  | cur :: rest' =>
      if is_dup cfg rep cur
      then runs_from cfg (next_basis (keep_mode cfg) rep cur) (run ++ [cur]) rest'
      else run :: runs_from cfg cur [cur] rest'
  end.

Definition runs (cfg : DuplicateFrameRemovalSettings)
    (input : list FrameInfo.t) : list (list FrameInfo.t) :=
  match input with
  | [] => []
  | first :: rest => runs_from cfg first [first] rest
  end.
End Runs.

(** The frame of a run that is kept. *)
Definition representative (keep : DuplicateRemovalMode)
    (run : list FrameInfo.t) : option FrameInfo.t :=
  match keep with
  | kDuplicateKeepFirst => head run
  | kDuplicateKeepLast => last run
  end.

(** The sum of the delays of the frames of a run, as an integer. *)
Definition delay_total (run : list FrameInfo.t) : Z :=
  foldr Z.add 0 (map FrameInfo.delay_ms run).

(** The delay a flush gives the kept frame [rep] of the run [run]. *)
Definition run_delay (cfg : DuplicateFrameRemovalSettings)
    (rep : FrameInfo.t) (run : list FrameInfo.t) : Z :=
  match delay_adjust_mode cfg with
  | kSum => wrap_int (delay_total run)
  | kAverage =>
      if 0 <? wrap_int (Z.of_nat (length run))
      then Z.quot (wrap_int (delay_total run)) (wrap_int (Z.of_nat (length run)))
      else FrameInfo.delay_ms rep
  | kDontAdjust => FrameInfo.delay_ms rep
  end.

(** [f] is the frame the collapser emits for the run [run]. *)
Definition kept_of (cfg : DuplicateFrameRemovalSettings)
    (run : list FrameInfo.t) (f : FrameInfo.t) : Prop :=
  exists rep, representative (keep_mode cfg) run = Some rep
    /\ f = FrameInfo.set_delay_ms rep (run_delay cfg rep run).

(** Every frame's delay is an [int]. *)
Definition delays_are_int (input : list FrameInfo.t) : Prop :=
  Forall (fun f => int_range (FrameInfo.delay_ms f)) input.

(** No frame of the list is a duplicate of the frame before it. *)
Fixpoint chain_distinct `{LICE} (cfg : DuplicateFrameRemovalSettings)
    (prev : FrameInfo.t) (l : list FrameInfo.t) : Prop :=
  match l with
  | [] => True
  | cur :: l' => is_dup cfg prev cur = false /\ chain_distinct cfg cur l'
  end.

(** The three results of a call of [RemoveDuplicateFrames]. *)
Definition removed_count (r : Z * option FrameArray.t * option IndexArray.t)
    : Z := fst (fst r).

Definition output_frames (r : Z * option FrameArray.t * option IndexArray.t)
    : list FrameInfo.t := frames_of (snd (fst r)).

Definition removed_list (r : Z * option FrameArray.t * option IndexArray.t)
    : list Z := indices_of (snd r).

(** The loop state [st] stands for the run [run] read so far. *)
Definition tracks (cfg : DuplicateFrameRemovalSettings) (st : collapse)
    (run : list FrameInfo.t) : Prop :=
  representative (keep_mode cfg) run = Some (pending st)
  /\ group_delay_sum st = wrap_int (delay_total run)
  /\ group_count st = wrap_int (Z.of_nat (length run)).

(** [f] is the kept frame of [run] with the sum of the run's delays, in
    [int] arithmetic, as its delay. *)
Definition carries_run_sum (keep : DuplicateRemovalMode)
    (run : list FrameInfo.t) (f : FrameInfo.t) : Prop :=
  (exists rep, representative keep run = Some rep
     /\ f = FrameInfo.set_delay_ms rep (FrameInfo.delay_ms f))
  /\ FrameInfo.delay_ms f = wrap_int (delay_total run)
  /\ (int_range (delay_total run) -> FrameInfo.delay_ms f = delay_total run).

Section PixelVocabulary.
Context `{LICE}.

(** Some bit of the 8-bit field of channel [c] is set in [mask]. *)
Definition mask_selects (mask : LICE_pixel) (c : channel) : Prop :=
  exists i, 0 <= i < 8 /\ Z.testbit mask (channel_shift c + i) = true.

(** The constant each channel block of [pixels_equal] tests the mask with. *)
Definition channel_selector (c : channel) : LICE_pixel :=
  match c with
  | chR => LICE_RGBA 255 0 0 0
  | chG => LICE_RGBA 0 255 0 0
  | chB => LICE_RGBA 0 0 255 0
  | chA => LICE_RGBA 0 0 0 255
  end.
End PixelVocabulary.

(** The rectangle a frame's region fields describe, and whether they
    describe one. *)
Definition frame_region (f : FrameInfo.t) : RECT.t :=
  RECT.mk (FrameInfo.x f) (FrameInfo.y f)
    (wrap_int (FrameInfo.x f + FrameInfo.w f))
    (wrap_int (FrameInfo.y f + FrameInfo.h f)).

Definition has_region (f : FrameInfo.t) : Prop :=
  0 < FrameInfo.w f /\ 0 < FrameInfo.h f.

(** The region of the spec's words: the caller's rectangle (the whole
    [w] x [h] area without one) clamped to [0, w] x [0, h], an inverted
    edge collapsed onto the left or top edge. *)
Definition effective_region (w h : Z) (roi : option RECT.t) : RECT.t :=
  match roi with
  | None => RECT.mk 0 0 w h
  | Some r =>
      let l := Z.max 0 (Z.min (RECT.left r) w) in
      let t := Z.max 0 (Z.min (RECT.top r) h) in
      RECT.mk l t
        (Z.max l (Z.max 0 (Z.min (RECT.right r) w)))
        (Z.max t (Z.max 0 (Z.min (RECT.bottom r) h)))
  end.

(** The bitmap with the pixel at column [xx] of row [yy] replaced. *)
Definition set_pixel (bm : LICE_IBitmap) (xx yy : Z) (v : LICE_pixel)
    : LICE_IBitmap :=
  if pixel_offset bm xx yy <? 0 then bm
  else
    {| getWidth := getWidth bm;
       getHeight := getHeight bm;
       getRowSpan := getRowSpan bm;
       isFlipped := isFlipped bm;
       getBits := <[Z.to_nat (pixel_offset bm xx yy) := v]> (getBits bm) |}.

(** The settings with each non-positive sample step replaced by 1. *)
Definition coerce_steps (cfg : DuplicateFrameRemovalSettings)
    : DuplicateFrameRemovalSettings :=
  {| similarity_threshold := similarity_threshold cfg;
     sample_step_x := if 0 <? sample_step_x cfg then sample_step_x cfg else 1;
     sample_step_y := if 0 <? sample_step_y cfg then sample_step_y cfg else 1;
     per_channel_tolerance := per_channel_tolerance cfg;
     channel_mask := channel_mask cfg;
     keep_mode := keep_mode cfg;
     delay_adjust_mode := delay_adjust_mode cfg;
     enable_early_out := enable_early_out cfg |}.

(** The settings with [enable_early_out] set. *)
Definition with_early_out (cfg : DuplicateFrameRemovalSettings) (e : bool)
    : DuplicateFrameRemovalSettings :=
  {| similarity_threshold := similarity_threshold cfg;
     sample_step_x := sample_step_x cfg;
     sample_step_y := sample_step_y cfg;
     per_channel_tolerance := per_channel_tolerance cfg;
     channel_mask := channel_mask cfg;
     keep_mode := keep_mode cfg;
     delay_adjust_mode := delay_adjust_mode cfg;
     enable_early_out := e |}.

(** Which of its paths a call of [CalculateSimilarity] takes. *)
Inductive similarity_path : Type :=
  | path_null
  | path_size_mismatch
  | path_empty_region
  | path_fast
  | path_generic.

Definition path_of `{LICE} (a b : option LICE_IBitmap) (roi : option RECT.t)
    (cfg : DuplicateFrameRemovalSettings) : similarity_path :=
  match a, b with
  | Some bma, Some bmb =>
      if negb (getWidth bma =? getWidth bmb)
         || negb (getHeight bma =? getHeight bmb)
      then path_size_mismatch
      else
        let r := compute_roi a b roi in
        if (RECT.right r - RECT.left r <=? 0)
           || (RECT.bottom r - RECT.top r <=? 0)
        then path_empty_region
        else if fast_path_cond bma r cfg then path_fast
        else path_generic
  | _, _ => path_null
  end.

(** ** Rounding vocabulary for the doubles

    The integer quotient [X / D] with what is left of it, as the shift
    records and locations of [SpecFloat] carry it. *)

(** The mantissa [X / D] with its round and sticky bits. *)
Definition record_of (X D : Z) : shr_record :=
  {| shr_m := X / D;
     shr_r := D <=? 2 * (X mod D);
     shr_s := negb ((2 * (X mod D)) mod D =? 0) |}.

(** Where [X / D] lies between [X / D] rounded down and the next integer. *)
Definition loc_of (X D : Z) : location :=
  if X mod D =? 0 then loc_Exact else loc_Inexact (2 * (X mod D) ?= D).

(** The integer nearest to [X / D], ties to even. *)
Definition rne (X D : Z) : Z :=
  match 2 * (X mod D) ?= D with
  | Lt => X / D
  | Eq => if Z.even (X / D) then X / D else X / D + 1
  | Gt => X / D + 1
  end.

(** A rounded 53-bit mantissa with its exponent, renormalised when the
    rounding carried into bit 53. *)
Definition renorm (m e : Z) : Z * Z :=
  if m =? 2 ^ 53 then (2 ^ 52, e + 1) else (m, e).

(** [X / D * 2 ^ E] rounded to a double, for [2 ^ 52 <= X / D < 2 ^ 53]. *)
Definition round53 (X D E : Z) : Z * Z := renorm (rne X D) E.

(** Order of the positive doubles [m * 2 ^ e] with 53-bit mantissas. *)
Definition lex_le (a b : Z * Z) : Prop :=
  snd a < snd b \/ (snd a = snd b /\ fst a <= fst b).

(** A double that is [+0.0] or positive and finite. *)
Definition nonneg_finite (x : double) : Prop :=
  match x with
  | S754_zero false => True
  | S754_finite false _ _ => True
  | _ => False
  end.

(** The quotient [(double)p / (double)n] of the scan. *)
Definition ratio (p n : Z) : double :=
  dbl_div (double_of_long p) (double_of_long n).

(** A positive double [m * 2 ^ e] with a 53-bit mantissa and an exponent in
    the range the conversions and quotients of the scan stay in. *)
Definition canon (me : Z * Z) : Prop :=
  2 ^ 52 <= fst me < 2 ^ 53 /\ -100 <= snd me <= 100.

(** The double of a pair [(m, e)]. *)
Definition finite_of (me : Z * Z) : double :=
  S754_finite false (Z.to_pos (fst me)) (snd me).

(** The scaling of a positive integer [z] to a 53-bit quotient
    [long_X z / long_D z] with the exponent [long_E z]. *)
Definition long_X (z : Z) : Z := z * 2 ^ Z.max 0 (53 - Zdigits2 z).
Definition long_D (z : Z) : Z := 2 ^ Z.max 0 (Zdigits2 z - 53).
Definition long_E (z : Z) : Z := Zdigits2 z - 53.

(** The quotient of the doubles [m1 * 2 ^ e1] and [m2 * 2 ^ e2], the number
    of bits its integer quotient is shifted by, and the rounded result. *)
Definition div_shift (m1 m2 : Z) : Z := Zdigits2 (m1 * 2 ^ 53 / m2) - 53.

Definition div_round (n d : Z * Z) : Z * Z :=
  round53 (fst n * 2 ^ 53) (2 ^ div_shift (fst n) (fst d) * fst d)
    (snd n - snd d - 53 + div_shift (fst n) (fst d)).

(** [(double)z] as a mantissa and an exponent, for a positive [z]. *)
Definition long_round (z : Z) : Z * Z :=
  round53 (long_X z) (long_D z) (long_E z).

(** [st'] is reached from [st] by scanning more samples: the count of equal
    samples grew by at most the number of samples processed since. *)
Definition grows (st st' : scan) : Prop :=
  equal_count st <= equal_count st'
  /\ equal_count st' - equal_count st <= processed st' - processed st.

(** The early-out test succeeds in the state [st]. *)
Definition exits (cfg : DuplicateFrameRemovalSettings) (total_samples : Z)
    (st : scan) : Prop :=
  dbl_lt (ratio (equal_count st + (total_samples - processed st)) total_samples)
    (similarity_threshold cfg) = true.

(** The state of the scan after the sample at column [xx] of row [yy]. *)
Definition sampled `{LICE} (a b : LICE_IBitmap)
    (cfg : DuplicateFrameRemovalSettings) (yy xx : Z) (st : scan) : scan :=
  {| equal_count :=
       if pixels_equal (peek (getBits a) (pixel_offset a xx yy))
            (peek (getBits b) (pixel_offset b xx yy)) cfg
       then equal_count st + 1 else equal_count st;
     processed := processed st + 1 |}.

(** ** Concrete inputs *)

(** A one-row bitmap holding the given pixels. *)
Definition strip (px : list LICE_pixel) : LICE_IBitmap :=
  {| getWidth := Z.of_nat (length px);
     getHeight := 1;
     getRowSpan := Z.of_nat (length px);
     isFlipped := false;
     getBits := px |}.

(** A one-pixel grey bitmap. *)
Definition grey (v : Z) : LICE_IBitmap :=
  make_solid 1 1 (@LICE_RGBA lice_simple v v v 0).

(** The three bitmaps of the keep-first test of the repository, at 2 x 2
    pixels. *)
Definition bitmap_A : LICE_IBitmap :=
  make_solid 2 2 (@LICE_RGBA lice_simple 10 10 10 0).
Definition bitmap_B : LICE_IBitmap :=
  make_solid 2 2 (@LICE_RGBA lice_simple 20 20 20 0).
Definition bitmap_C : LICE_IBitmap :=
  make_solid 2 2 (@LICE_RGBA lice_simple 30 30 30 0).

(** The six frames A A B B B C with the delays 100 .. 150. *)
Definition six_frames : list FrameInfo.t :=
  [FrameInfo.make 0 (Some bitmap_A) 100; FrameInfo.make 1 (Some bitmap_A) 110;
   FrameInfo.make 2 (Some bitmap_B) 120; FrameInfo.make 3 (Some bitmap_B) 130;
   FrameInfo.make 4 (Some bitmap_B) 140; FrameInfo.make 5 (Some bitmap_C) 150].

(** The default settings with other sample steps, tolerance, keep mode and
    early-out. *)
Definition settings_with (step_x step_y tolerance : Z)
    (keep : DuplicateRemovalMode) (early_out : bool)
    : DuplicateFrameRemovalSettings :=
  {| similarity_threshold := similarity_threshold default_settings;
     sample_step_x := step_x;
     sample_step_y := step_y;
     per_channel_tolerance := tolerance;
     channel_mask := channel_mask default_settings;
     keep_mode := keep;
     delay_adjust_mode := kSum;
     enable_early_out := early_out |}.

(** Three one-pixel frames: the second is no duplicate of the first, the
    third is within tolerance 2 of both. *)
Definition drifting_frames : list FrameInfo.t :=
  [FrameInfo.make 0 (Some (grey 100)) 10; FrameInfo.make 1 (Some (grey 104)) 20;
   FrameInfo.make 2 (Some (grey 102)) 30].

(** ** Release of the dynamic arrays *)

(** [FrameArray_Free] and [IndexArray_Free]: the buffer is released, the
    count and the capacity are reset. *)
Definition FrameArray_Free (arr : FrameArray.t) : FrameArray.t :=
  FrameArray.mk [] 0.

Definition IndexArray_Free (arr : IndexArray.t) : IndexArray.t :=
  IndexArray.mk [] 0.

(** ** Vocabulary of the further properties of the collapser *)

(** The frames of [l] whose position in the input, counted from [i] for the
    head of [l], is not listed in [removed]. *)
Fixpoint keep_positions (i : Z) (removed : list Z) (l : list FrameInfo.t)
    : list FrameInfo.t :=
  match l with
  | [] => []
  | f :: l' =>
      if existsb (Z.eqb i) removed then keep_positions (i + 1) removed l'
      else f :: keep_positions (i + 1) removed l'
  end.

(** A frame without its delay. *)
Definition erase_delay (f : FrameInfo.t) : FrameInfo.t :=
  FrameInfo.set_delay_ms f 0.

(** The list is strictly increasing and starts at [lo] or above. *)
Fixpoint ascending_from (lo : Z) (l : list Z) : Prop :=
  match l with
  | [] => True
  | i :: l' => lo <= i /\ ascending_from (i + 1) l'
  end.

(** No frame of the input is a duplicate of the frame before it. *)
Definition no_consecutive_duplicates `{LICE}
    (cfg : DuplicateFrameRemovalSettings) (input : list FrameInfo.t) : Prop :=
  match input with
  | [] => True
  | first :: rest => chain_distinct cfg first rest
  end.

(** [f] is the kept frame of [run] with the mean of the run's delays,
    truncated as the integer division of the code does, as its delay. *)
Definition carries_run_mean (keep : DuplicateRemovalMode)
    (run : list FrameInfo.t) (f : FrameInfo.t) : Prop :=
  exists rep, representative keep run = Some rep
    /\ f = FrameInfo.set_delay_ms rep
             (Z.quot (delay_total run) (Z.of_nat (length run))).

(** Every frame's delay is non-negative. *)
Definition delays_nonneg (input : list FrameInfo.t) : Prop :=
  Forall (fun f => 0 <= FrameInfo.delay_ms f) input.

(** The position the loop records when the frame at position [i] is a
    duplicate is [i - recorded_offset]: [i] itself when the first frame of a
    run is kept, [i - 1] (the frame given up) when the last frame is. *)
Definition recorded_offset (keep : DuplicateRemovalMode) : Z :=
  match keep with
  | kDuplicateKeepFirst => 0
  | kDuplicateKeepLast => 1
  end.

(** ** Vocabulary of the further properties of the helpers *)

(** Width and height of a bitmap argument as [compute_roi] reads them: 0
    for a null pointer. *)
Definition bitmap_width (a : option LICE_IBitmap) : Z :=
  match a with Some bm => getWidth bm | None => 0 end.

Definition bitmap_height (a : option LICE_IBitmap) : Z :=
  match a with Some bm => getHeight bm | None => 0 end.

(** The rectangle lies inside [0, w] x [0, h] and its edges are in order. *)
Definition rect_within (w h : Z) (r : RECT.t) : Prop :=
  0 <= RECT.left r <= RECT.right r /\ RECT.right r <= w
  /\ 0 <= RECT.top r <= RECT.bottom r /\ RECT.bottom r <= h.

(** The array after [FrameArray_Init] with the capacity [c0] and one
    [FrameArray_Add] for each frame of [fs], in their order; the same for
    an index array. *)
Definition frame_array_of (c0 : Z) (fs : list FrameInfo.t) : FrameArray.t :=
  fold_left FrameArray_Add fs (FrameArray_Init c0).

Definition index_array_of (c0 : Z) (l : list Z) : IndexArray.t :=
  fold_left IndexArray_Add l (IndexArray_Init c0).

(** ** Vocabulary of the further properties of the similarity engine *)

(** The step the manual scan uses for a configured step. *)
Definition effective_step (s : Z) : Z := if 0 <? s then s else 1.

(** The columns and the rows the manual scan samples in the region [r]. *)
Definition sample_columns (r : RECT.t) (cfg : DuplicateFrameRemovalSettings)
    : list Z :=
  for_range (RECT.left r) (RECT.right r) (effective_step (sample_step_x cfg)).

Definition sample_rows (r : RECT.t) (cfg : DuplicateFrameRemovalSettings)
    : list Z :=
  for_range (RECT.top r) (RECT.bottom r) (effective_step (sample_step_y cfg)).

Section SampleVocabulary.
Context `{LICE}.

(** The pixel test of the scan at column [xx] of row [yy]. *)
Definition equal_at (a b : LICE_IBitmap) (cfg : DuplicateFrameRemovalSettings)
    (yy xx : Z) : bool :=
  pixels_equal (peek (getBits a) (pixel_offset a xx yy))
    (peek (getBits b) (pixel_offset b xx yy)) cfg.

(** The number of positions of the grid [xs] x [ys] at which the pixel test
    succeeds. *)
Definition equal_samples (a b : LICE_IBitmap)
    (cfg : DuplicateFrameRemovalSettings) (xs ys : list Z) : Z :=
  foldr (fun yy acc =>
           Z.of_nat (length (List.filter (equal_at a b cfg yy) xs)) + acc)
    0 ys.
End SampleVocabulary.


Definition int_sized (a : option LICE_IBitmap) : Prop :=
  0 <= bitmap_width a < 2 ^ 31 /\ 0 <= bitmap_height a < 2 ^ 31.

(** ** Vocabulary of the properties of the stand-in compare *)

(** The pixels of [a] and [b] at column [xx] of row [yy], read as the
    stand-in compare reads them, differ under [mask]. *)
Definition differs_at (a b : LICE_IBitmap) (mask : LICE_pixel) (xx yy : Z)
    : bool :=
  negb (Z.land (Z.lxor (peek (getBits a) (yy * getRowSpan a + xx))
                       (peek (getBits b) (yy * getRowSpan b + xx))) mask
        =? 0).

(** The box the stand-in compare starts from in a [W] x [H] frame. *)
Definition empty_box (W H : Z) : bbox :=
  {| minx := W; miny := H; maxx := -1; maxy := -1 |}.

(** [box] is the bounding box of the pixels of [S] that differ: it lies in
    the frame, it holds every differing pixel of [S], and either it is still
    the empty box and no pixel of [S] differs, or each of its four edges
    passes through a differing pixel of [S]. *)
Definition bounds_differences (W H : Z) (S : Z -> Z -> Prop)
    (d : Z -> Z -> bool) (box : bbox) : Prop :=
  (0 <= minx box <= W /\ -1 <= maxx box < W
   /\ 0 <= miny box <= H /\ -1 <= maxy box < H)
  /\ (forall x y, S x y -> d x y = true ->
        minx box <= x <= maxx box /\ miny box <= y <= maxy box)
  /\ ((box = empty_box W H /\ forall x y, S x y -> d x y = false)
      \/ ((exists y, S (minx box) y /\ d (minx box) y = true)
          /\ (exists y, S (maxx box) y /\ d (maxx box) y = true)
          /\ (exists x, S x (miny box) /\ d x (miny box) = true)
          /\ (exists x, S x (maxy box) /\ d x (maxy box) = true))).

(** The position lies in the frame of [a]. *)
Definition in_frame (a : LICE_IBitmap) (x y : Z) : Prop :=
  0 <= x < getWidth a /\ 0 <= y < getHeight a.

(** ** The test bitmap

    [SimpleBitmap] of test_duplicate_simple.cpp, the in-memory bitmap the
    repository's tests compare: rows are tightly packed and never flipped.
    An access outside the pixel vector (undefined in the source, and
    excluded by the bounds checks on a bitmap made by [resize]) reads 0 and
    writes nothing. *)

Module SimpleBitmap.
Record t : Type := mk {
  w_ : Z;
  h_ : Z;
  row_span_ : Z;
  data_ : list LICE_pixel
}.

(** The bitmap as the similarity engine sees it through the accessors
    [getWidth], [getHeight], [getRowSpan], [isFlipped] and [getBits]. *)
Definition view (bm : t) : LICE_IBitmap :=
  {| getWidth := w_ bm;
     getHeight := h_ bm;
     getRowSpan := row_span_ bm;
     isFlipped := false;
     getBits := data_ bm |}.

(** The test of [setPixel] and [getPixel]:
    [x < 0 || y < 0 || x >= w_ || y >= h_]. *)
Definition outside (bm : t) (x y : Z) : bool :=
  (x <? 0) || (y <? 0) || (w_ bm <=? x) || (h_ bm <=? y).

(** The bitmap after [resize(w, h)], which the constructor calls: negative
    dimensions become 0 and every pixel is [LICE_RGBA(0,0,0,0)]. *)
Definition resize `{LICE} (w h : Z) : t :=
  let w := if w <? 0 then 0 else w in
  let h := if h <? 0 then 0 else h in
  let row_span := if 0 <? w then w else 0 in
  {| w_ := w;
     h_ := h;
     row_span_ := row_span;
     data_ := repeat (LICE_RGBA 0 0 0 0) (Z.to_nat (row_span * h)) |}.

Definition fill (bm : t) (px : LICE_pixel) : t :=
  {| w_ := w_ bm;
     h_ := h_ bm;
     row_span_ := row_span_ bm;
     data_ := repeat px (length (data_ bm)) |}.

Definition setPixel (bm : t) (x y : Z) (px : LICE_pixel) : t :=
  if outside bm x y then bm
  else
    {| w_ := w_ bm;
       h_ := h_ bm;
       row_span_ := row_span_ bm;
       data_ := <[Z.to_nat (y * row_span_ bm + x) := px]> (data_ bm) |}.

Definition getPixel `{LICE} (bm : t) (x y : Z) : LICE_pixel :=
  if outside bm x y then LICE_RGBA 0 0 0 0
  else default 0 (data_ bm !! Z.to_nat (y * row_span_ bm + x)).

(** [make_solid] of the tests, on the test bitmap. *)
Definition make_solid `{LICE} (w h : Z) (px : LICE_pixel) : t :=
  fill (resize w h) px.

(** The rows of the bitmap are tightly packed and the pixel vector holds
    [w_ * h_] pixels. *)
Definition packed (bm : t) : Prop :=
  0 <= w_ bm /\ 0 <= h_ bm /\ row_span_ bm = w_ bm
  /\ Z.of_nat (length (data_ bm)) = w_ bm * h_ bm.
End SimpleBitmap.

(** The settings with another threshold, another tolerance, another delay
    mode. *)
Definition with_threshold (cfg : DuplicateFrameRemovalSettings) (t : double)
    : DuplicateFrameRemovalSettings :=
  {| similarity_threshold := t;
     sample_step_x := sample_step_x cfg;
     sample_step_y := sample_step_y cfg;
     per_channel_tolerance := per_channel_tolerance cfg;
     channel_mask := channel_mask cfg;
     keep_mode := keep_mode cfg;
     delay_adjust_mode := delay_adjust_mode cfg;
     enable_early_out := enable_early_out cfg |}.

Definition with_tolerance (cfg : DuplicateFrameRemovalSettings) (tol : Z)
    : DuplicateFrameRemovalSettings :=
  {| similarity_threshold := similarity_threshold cfg;
     sample_step_x := sample_step_x cfg;
     sample_step_y := sample_step_y cfg;
     per_channel_tolerance := tol;
     channel_mask := channel_mask cfg;
     keep_mode := keep_mode cfg;
     delay_adjust_mode := delay_adjust_mode cfg;
     enable_early_out := enable_early_out cfg |}.

Definition with_delay_mode (cfg : DuplicateFrameRemovalSettings)
    (mode : DelayAdjustMode) : DuplicateFrameRemovalSettings :=
  {| similarity_threshold := similarity_threshold cfg;
     sample_step_x := sample_step_x cfg;
     sample_step_y := sample_step_y cfg;
     per_channel_tolerance := per_channel_tolerance cfg;
     channel_mask := channel_mask cfg;
     keep_mode := keep_mode cfg;
     delay_adjust_mode := mode;
     enable_early_out := enable_early_out cfg |}.

(** ** Further concrete inputs *)

(** Three frames on one bitmap, as in the keep-last test of the
    repository. *)
Definition three_same_frames : list FrameInfo.t :=
  [FrameInfo.make 0 (Some bitmap_A) 30; FrameInfo.make 1 (Some bitmap_A) 60;
   FrameInfo.make 2 (Some bitmap_A) 90].

(** Two frames without a bitmap before a frame with one. *)
Definition bitmapless_frames : list FrameInfo.t :=
  [FrameInfo.make 0 None 10; FrameInfo.make 1 None 20;
   FrameInfo.make 2 (Some bitmap_A) 30].

(** The doubles 0.5 and 2.0. *)
Definition dbl_half : double := S754_finite false 4503599627370496 (-53).

(** ** The manual scan on 32-bit integers

    [CalculateSimilarity] above computes coordinates and sample counts in
    [Z].  The definitions below are the same calls with every operation of
    the source on [int] reduced to 32 bits (signed overflow is undefined in
    C++; the two's-complement result is what the compiled code computes)
    and every read checked against the pixel buffer. *)

(** What a call does: it returns a value, or it reads outside a pixel
    buffer (undefined in the source, a crash in practice), or the loop
    budget of the model is used up. *)
Inductive outcome (A : Type) : Type :=
  | returned (v : A)
  | out_of_buffer
  | out_of_fuel.
Arguments returned {A} v.
Arguments out_of_buffer {A}.
Arguments out_of_fuel {A}.

(** [p[off]], or nothing outside the buffer. *)
Definition peek_checked (bits : list LICE_pixel) (off : Z)
    : option LICE_pixel :=
  if off <? 0 then None else bits !! Z.to_nat off.

(** [p += span * (h - 1); span = -span;] of a flipped bitmap, in [int]. *)
Definition row_origin_int (bm : LICE_IBitmap) : Z :=
  if isFlipped bm
  then wrap_int (getRowSpan bm * wrap_int (getHeight bm - 1)) else 0.

Definition row_stride_int (bm : LICE_IBitmap) : Z :=
  if isFlipped bm then wrap_int (- getRowSpan bm) else getRowSpan bm.

(** Offset of [row[xx]] with [row = p + yy * span], the product in [int]. *)
Definition pixel_offset_int (bm : LICE_IBitmap) (xx yy : Z) : Z :=
  row_origin_int bm + wrap_int (yy * row_stride_int bm) + xx.

Section SimilarityInt.
Context `{LICE}.

(** Body of the inner loop once the two pixels are read. *)
Definition count_pixel (cfg : DuplicateFrameRemovalSettings)
    (total_samples : Z) (a_px b_px : LICE_pixel) (st : scan) : scan_ctl :=
  let equal_count' :=
    if pixels_equal a_px b_px cfg then equal_count st + 1 else equal_count st in
  let processed' := processed st + 1 in
  let st' := {| equal_count := equal_count'; processed := processed' |} in
  if enable_early_out cfg then
    let remaining := total_samples - processed' in
    let best_case_equal := equal_count' + remaining in
    let best_case_sim :=
      dbl_div (double_of_long best_case_equal) (double_of_long total_samples) in
    if dbl_lt best_case_sim (similarity_threshold cfg)
    then scan_finish st' else scan_next st'
  else scan_next st'.

(** Body of the inner loop at column [xx] of row [yy]. *)
Definition scan_pixel_int (a b : LICE_IBitmap)
    (cfg : DuplicateFrameRemovalSettings) (total_samples : Z) (yy xx : Z)
    (st : scan) : outcome scan_ctl :=
  match peek_checked (getBits a) (pixel_offset_int a xx yy),
        peek_checked (getBits b) (pixel_offset_int b xx yy) with
  | Some a_px, Some b_px =>
      returned (count_pixel cfg total_samples a_px b_px st)
  | _, _ => out_of_buffer
  end.

(** [for (int xx = ...; xx < right; xx += sX)] from the current [xx], at
    most [fuel] iterations. *)
Fixpoint scan_row_int (fuel : nat) (a b : LICE_IBitmap)
    (cfg : DuplicateFrameRemovalSettings) (total_samples : Z) (yy : Z)
    (xx right sX : Z) (st : scan) : outcome scan_ctl :=
  match fuel with
  | O => out_of_fuel
  | S fuel' =>
      if xx <? right then
        match scan_pixel_int a b cfg total_samples yy xx st with
        | returned (scan_next st') =>
            scan_row_int fuel' a b cfg total_samples yy
              (wrap_int (xx + sX)) right sX st'
        | other => other
        end
      else returned (scan_next st)
  end.

(** [for (int yy = ...; yy < bottom; yy += sY)] from the current [yy], at
    most [fuel] iterations, each inner loop with at most [fuel_x]; the
    result is the state at [CALC_FINISH]. *)
Fixpoint scan_rows_int (fuel fuel_x : nat) (a b : LICE_IBitmap)
    (cfg : DuplicateFrameRemovalSettings) (total_samples : Z)
    (left right sX : Z) (yy bottom sY : Z) (st : scan) : outcome scan :=
  match fuel with
  | O => out_of_fuel
  | S fuel' =>
      if yy <? bottom then
        match scan_row_int fuel_x a b cfg total_samples yy left right sX st with
        | returned (scan_next st') =>
            scan_rows_int fuel' fuel_x a b cfg total_samples left right sX
              (wrap_int (yy + sY)) bottom sY st'
        | returned (scan_finish st') => returned st'
        | out_of_buffer => out_of_buffer
        | out_of_fuel => out_of_fuel
        end
      else returned st
  end.

(** The manual scan.  The loops get one iteration more than the region has
    columns and rows, which is enough for every run whose counters do not
    wrap. *)
Definition generic_scan_int (a b : LICE_IBitmap) (r : RECT.t)
    (cfg : DuplicateFrameRemovalSettings) : outcome double :=
  let rw := wrap_int (RECT.right r - RECT.left r) in
  let rh := wrap_int (RECT.bottom r - RECT.top r) in
  let sX := if 0 <? sample_step_x cfg then sample_step_x cfg else 1 in
  let sY := if 0 <? sample_step_y cfg then sample_step_y cfg else 1 in
  let roi_w_s := Z.quot (wrap_int (rw + wrap_int (sX - 1))) sX in
  let roi_h_s := Z.quot (wrap_int (rh + wrap_int (sY - 1))) sY in
  let total_samples := roi_w_s * roi_h_s in
  if total_samples <=? 0 then returned dbl_1
  else
    match
      scan_rows_int (S (Z.to_nat rh)) (S (Z.to_nat rw)) a b cfg total_samples
        (RECT.left r) (RECT.right r) sX (RECT.top r) (RECT.bottom r) sY
        {| equal_count := 0; processed := 0 |}
    with
    | returned st =>
        returned
          (if processed st <=? 0 then dbl_1
           else
             clamp01 (dbl_div (double_of_long (equal_count st))
                              (double_of_long total_samples)))
    | out_of_buffer => out_of_buffer
    | out_of_fuel => out_of_fuel
    end.

Definition CalculateSimilarity_int (a b : option LICE_IBitmap)
    (roi : option RECT.t) (cfg : DuplicateFrameRemovalSettings)
    : outcome double :=
  match a, b with
  | Some bma, Some bmb =>
      if negb (getWidth bma =? getWidth bmb)
         || negb (getHeight bma =? getHeight bmb)
      then returned dbl_0
      else
        let r := compute_roi a b roi in
        let rw := wrap_int (RECT.right r - RECT.left r) in
        let rh := wrap_int (RECT.bottom r - RECT.top r) in
        if (rw <=? 0) || (rh <=? 0) then returned dbl_1
        else if fast_path_cond bma r cfg then returned (fast_path bma bmb cfg)
        else generic_scan_int bma bmb r cfg
  | _, _ => returned dbl_0
  end.

Definition IsDuplicateFrame_int (prev curr : FrameInfo.t)
    (cfg : DuplicateFrameRemovalSettings) : outcome (bool * double) :=
  match FrameInfo.bmp prev, FrameInfo.bmp curr with
  | Some pb, Some cb =>
      let roi := frame_roi prev curr pb cb in
      match
        CalculateSimilarity_int (FrameInfo.bmp prev) (FrameInfo.bmp curr)
          (Some roi) cfg
      with
      | returned sim => returned (dbl_ge sim (similarity_threshold cfg), sim)
      | out_of_buffer => out_of_buffer
      | out_of_fuel => out_of_fuel
      end
  | _, _ => returned (false, dbl_0)
  end.
End SimilarityInt.

(** ** Vocabulary of the properties of the scan on 32-bit integers *)

(** A bitmap as the library hands it out: rows of [getRowSpan] pixels that
    hold the [getWidth] pixels of the row, the buffer holding every row, and
    the number of pixels of the buffer an [int]. *)
Definition valid_bitmap (bm : LICE_IBitmap) : Prop :=
  0 <= getWidth bm <= getRowSpan bm
  /\ 0 <= getHeight bm < 2 ^ 31
  /\ getRowSpan bm < 2 ^ 31
  /\ getRowSpan bm * getHeight bm < 2 ^ 31
  /\ getRowSpan bm * getHeight bm <= Z.of_nat (length (getBits bm)).

Definition valid_arg (a : option LICE_IBitmap) : Prop :=
  match a with Some bm => valid_bitmap bm | None => True end.

(** The loop counters of the manual scan over the region [r] stay [int]s:
    one step past the last column and the last row does not exceed
    [INT_MAX]. *)
Definition steps_fit_int (r : RECT.t) (cfg : DuplicateFrameRemovalSettings)
    : Prop :=
  RECT.right r + effective_step (sample_step_x cfg) <= 2 ^ 31
  /\ RECT.bottom r + effective_step (sample_step_y cfg) <= 2 ^ 31.

(** The whole frame of a bitmap. *)
Definition frame_rect (bm : LICE_IBitmap) : RECT.t :=
  RECT.mk 0 0 (getWidth bm) (getHeight bm).

(** ** Concrete inputs at the limits of [int] *)

(** Both sample steps [INT_MAX]. *)
Definition int_max_steps (early_out : bool) : DuplicateFrameRemovalSettings :=
  settings_with 2147483647 2147483647 0 kDuplicateKeepFirst early_out.


(** Two frames on one bitmap whose delays add up to [INT_MAX + 1]. *)
Definition long_delay_frames : list FrameInfo.t :=
  [FrameInfo.make 0 (Some bitmap_A) 2147483647;
   FrameInfo.make 1 (Some bitmap_A) 1].

(** * Properties of the pixel equality rule *)

Section PixelFacts.
Context `{LICE}.

Lemma testbit_255 (i : Z) : Z.testbit 255 i = (0 <=? i) && (i <? 8).
Proof.
  destruct (Z.leb_spec 0 i) as [Hi|Hi]; [|by rewrite Z.testbit_neg_r].
  destruct (Z.ltb_spec i 8) as [Hi8|Hi8]; simpl.
  - assert (Hc : i = 0 \/ i = 1 \/ i = 2 \/ i = 3 \/ i = 4 \/ i = 5
                 \/ i = 6 \/ i = 7) by lia.
    destruct Hc as [->|[->|[->|[->|[->|[->|[->| ->]]]]]]]; reflexivity.
  - apply Z.bits_above_log2; [lia|].
    change (Z.log2 255) with 7. lia.
Qed.

Lemma testbit_field_mask (s m : Z) :
  Z.testbit (Z.shiftl 255 s) m = (0 <=? m) && (0 <=? m - s) && (m - s <? 8).
Proof.
  destruct (Z.leb_spec 0 m) as [Hm|Hm]; [|by rewrite Z.testbit_neg_r].
  rewrite Z.shiftl_spec by done. rewrite testbit_255. done.
Qed.

Lemma land_field_zero (mask s : Z) :
  Z.land mask (Z.shiftl 255 s) = 0 <->
  forall i, 0 <= i < 8 -> Z.testbit mask (s + i) = false.
Proof.
  split.
  - intros Hz i Hi.
    destruct (Z.testbit mask (s + i)) eqn:Hb; [|done].
    assert (Hs : 0 <= s + i).
    { destruct (Z.leb_spec 0 (s + i)); [done|].
      rewrite Z.testbit_neg_r in Hb by done. done. }
    assert (Hl : Z.testbit (Z.land mask (Z.shiftl 255 s)) (s + i) = true).
    { rewrite Z.land_spec, Hb, testbit_field_mask.
      replace (s + i - s) with i by lia.
      rewrite !andb_true_iff, !Z.leb_le, Z.ltb_lt. lia. }
    rewrite Hz, Z.bits_0 in Hl. done.
  - intros Hall. apply Z.bits_inj'. intros m Hm.
    rewrite Z.land_spec, Z.bits_0, testbit_field_mask.
    destruct (Z.leb_spec 0 (m - s)) as [H1|H1];
      destruct (Z.ltb_spec (m - s) 8) as [H2|H2];
      rewrite ?andb_false_r; try done.
    replace m with (s + (m - s)) by lia.
    rewrite Hall by lia. done.
Qed.

Lemma field_bits_dec (mask s : Z) :
  (forall i, 0 <= i < 8 -> Z.testbit mask (s + i) = false)
  \/ (exists i, 0 <= i < 8 /\ Z.testbit mask (s + i) = true).
Proof.
  destruct (Z.testbit mask (s + 0)) eqn:H0; [right; exists 0; split; [lia|done]|].
  destruct (Z.testbit mask (s + 1)) eqn:H1; [right; exists 1; split; [lia|done]|].
  destruct (Z.testbit mask (s + 2)) eqn:H2; [right; exists 2; split; [lia|done]|].
  destruct (Z.testbit mask (s + 3)) eqn:H3; [right; exists 3; split; [lia|done]|].
  destruct (Z.testbit mask (s + 4)) eqn:H4; [right; exists 4; split; [lia|done]|].
  destruct (Z.testbit mask (s + 5)) eqn:H5; [right; exists 5; split; [lia|done]|].
  destruct (Z.testbit mask (s + 6)) eqn:H6; [right; exists 6; split; [lia|done]|].
  destruct (Z.testbit mask (s + 7)) eqn:H7; [right; exists 7; split; [lia|done]|].
  left. intros i Hi.
  assert (Hc : i = 0 \/ i = 1 \/ i = 2 \/ i = 3 \/ i = 4 \/ i = 5
               \/ i = 6 \/ i = 7) by lia.
  destruct Hc as [->|[->|[->|[->|[->|[->|[->| ->]]]]]]]; done.
Qed.

(** The selector constant of each channel block is the 8-bit field of that
    channel. *)
Lemma channel_selector_field (c : channel) :
  channel_selector c = Z.shiftl 255 (channel_shift c).
Proof.
  destruct c; unfold channel_selector, LICE_RGBA; simpl;
    change (Z.land 0 255) with 0; change (Z.land 255 255) with 255;
    rewrite !Z.shiftl_0_l, ?Z.lor_0_l, ?Z.lor_0_r; reflexivity.
Qed.

Lemma mask_selects_spec (mask : LICE_pixel) (c : channel) :
  negb (Z.land mask (channel_selector c) =? 0) = true <-> mask_selects mask c.
Proof.
  rewrite channel_selector_field, negb_true_iff, Z.eqb_neq, land_field_zero.
  unfold mask_selects.
  destruct (field_bits_dec mask (channel_shift c)) as [Hall|Hex].
  - split; [done|]. intros (i & Hi & Hb) _. rewrite Hall in Hb; done.
  - split; [done|]. intros _ Hall. destruct Hex as (i & Hi & Hb).
    rewrite Hall in Hb; done.
Qed.

(** One channel block lets the pixels pass exactly when the channel is not
    selected or its two values are within the tolerance. *)
Lemma channel_exceeds_false (mask : LICE_pixel) (c : channel) (v1 v2 tol : Z) :
  channel_exceeds mask (channel_selector c) v1 v2 tol = false <->
  (mask_selects mask c -> Z.abs (v1 - v2) <= tol).
Proof.
  unfold channel_exceeds. rewrite andb_false_iff, <- mask_selects_spec.
  rewrite Z.ltb_ge, negb_false_iff, negb_true_iff. split.
  - intros [Hz|Hle] Hs; [congruence|done].
  - intros Himp.
    destruct (Z.land mask (channel_selector c) =? 0); [by left|right; auto].
Qed.

Lemma pixels_equal_tolerant (p1 p2 : LICE_pixel)
    (cfg : DuplicateFrameRemovalSettings) :
  0 < per_channel_tolerance cfg ->
  (pixels_equal p1 p2 cfg = true <->
   forall c, mask_selects (channel_mask cfg) c ->
     Z.abs (LICE_GET c p1 - LICE_GET c p2) <= per_channel_tolerance cfg).
Proof.
  intros Htol. unfold pixels_equal.
  destruct (Z.leb_spec (per_channel_tolerance cfg) 0) as [?|_]; [lia|].
  pose proof (fun c => channel_exceeds_false (channel_mask cfg) c
    (LICE_GET c p1) (LICE_GET c p2) (per_channel_tolerance cfg)) as Hc.
  pose proof (Hc chR) as HR. pose proof (Hc chG) as HG.
  pose proof (Hc chB) as HB. pose proof (Hc chA) as HA. clear Hc.
  simpl in HR, HG, HB, HA. unfold LICE_GETR, LICE_GETG, LICE_GETB, LICE_GETA.
  split.
  - intros Heq.
    destruct (channel_exceeds _ (LICE_RGBA 255 0 0 0) _ _ _); [done|].
    destruct (channel_exceeds _ (LICE_RGBA 0 255 0 0) _ _ _); [done|].
    destruct (channel_exceeds _ (LICE_RGBA 0 0 255 0) _ _ _); [done|].
    destruct (channel_exceeds _ (LICE_RGBA 0 0 0 255) _ _ _); [done|].
    intros [] Hs; [apply HR|apply HG|apply HB|apply HA]; done.
  - intros Hall.
    rewrite (proj2 HR (Hall chR)), (proj2 HG (Hall chG)),
      (proj2 HB (Hall chB)), (proj2 HA (Hall chA)). done.
Qed.

Lemma pixels_equal_strict (p1 p2 : LICE_pixel)
    (cfg : DuplicateFrameRemovalSettings) :
  per_channel_tolerance cfg <= 0 ->
  (pixels_equal p1 p2 cfg = true <->
   forall i, Z.testbit (channel_mask cfg) i = true ->
     Z.testbit p1 i = Z.testbit p2 i).
Proof.
  intros Htol. unfold pixels_equal.
  destruct (Z.leb_spec (per_channel_tolerance cfg) 0) as [_|?]; [|lia].
  rewrite Z.eqb_eq. split.
  - intros Hz i Hm.
    assert (Hb : Z.testbit (Z.land (Z.lxor p1 p2) (channel_mask cfg)) i = false)
      by (rewrite Hz; apply Z.bits_0).
    rewrite Z.land_spec, Z.lxor_spec, Hm, andb_true_r in Hb.
    destruct (Z.testbit p1 i), (Z.testbit p2 i); done.
  - intros Hall. apply Z.bits_inj'. intros i _.
    rewrite Z.land_spec, Z.lxor_spec, Z.bits_0.
    destruct (Z.testbit (channel_mask cfg) i) eqn:Hm;
      [|by rewrite andb_false_r].
    rewrite (Hall i Hm), xorb_nilpotent. done.
Qed.

(** The value a selected channel is compared on consists of all eight bits
    of its field. *)
Lemma LICE_GET_bits (c : channel) (p : LICE_pixel) (i : Z) :
  0 <= i < 8 ->
  Z.testbit (LICE_GET c p) i = Z.testbit p (channel_shift c + i).
Proof.
  intros Hi. unfold LICE_GET.
  rewrite Z.land_spec, Z.shiftr_spec, testbit_255 by lia.
  replace (i + channel_shift c) with (channel_shift c + i) by lia.
  destruct (Z.leb_spec 0 i), (Z.ltb_spec i 8); try lia.
  by rewrite andb_true_r.
Qed.

(** C10.  With a positive tolerance the pixels are equal exactly when every
    channel with at least one mask bit in its 8-bit field has its two 8-bit
    values within the tolerance, so pixels that agree on those channels are
    equal whatever the other channels hold; with tolerance 0 (or below) they
    are equal exactly when they agree on every bit set in the mask. *)
Theorem pixels_equal_channel_mask (p1 p2 : LICE_pixel)
    (cfg : DuplicateFrameRemovalSettings) :
  (0 < per_channel_tolerance cfg ->
     (pixels_equal p1 p2 cfg = true <->
      forall c, mask_selects (channel_mask cfg) c ->
        Z.abs (LICE_GET c p1 - LICE_GET c p2) <= per_channel_tolerance cfg)
     /\ ((forall c, mask_selects (channel_mask cfg) c ->
            LICE_GET c p1 = LICE_GET c p2) ->
         pixels_equal p1 p2 cfg = true)
     /\ (forall c i, 0 <= i < 8 ->
           Z.testbit (LICE_GET c p1) i = Z.testbit p1 (channel_shift c + i)))
  /\ (per_channel_tolerance cfg <= 0 ->
       (pixels_equal p1 p2 cfg = true <->
        forall i, Z.testbit (channel_mask cfg) i = true ->
          Z.testbit p1 i = Z.testbit p2 i)).
Proof.
  split.
  - intros Htol. split; [by apply pixels_equal_tolerant|]. split.
    + intros Hsame. apply pixels_equal_tolerant; [done|].
      intros c Hc. rewrite (Hsame c Hc), Z.sub_diag. simpl. lia.
    + intros c i Hi. by apply LICE_GET_bits.
  - apply pixels_equal_strict.
Qed.
End PixelFacts.

(** * Properties of the duplicate collapser *)

Lemma wrap_int_id (z : Z) : int_range z -> wrap_int z = z.
Proof.
  unfold int_range, wrap_int. intros Hz.
  rewrite Z.mod_small; lia.
Qed.

Lemma wrap_int_add_l (a b : Z) : wrap_int (wrap_int a + b) = wrap_int (a + b).
Proof.
  unfold wrap_int.
  replace ((a + 2 ^ 31) mod 2 ^ 32 - 2 ^ 31 + b + 2 ^ 31)
    with ((a + 2 ^ 31) mod 2 ^ 32 + b) by lia.
  rewrite Z.add_mod_idemp_l by lia.
  replace (a + 2 ^ 31 + b) with (a + b + 2 ^ 31) by lia. reflexivity.
Qed.

Lemma delay_total_snoc (run : list FrameInfo.t) (f : FrameInfo.t) :
  delay_total (run ++ [f]) = delay_total run + FrameInfo.delay_ms f.
Proof.
  unfold delay_total. induction run as [|g run IH]; simpl in *; lia.
Qed.

Lemma set_delay_ms_same (f : FrameInfo.t) :
  FrameInfo.set_delay_ms f (FrameInfo.delay_ms f) = f.
Proof. destruct f; reflexivity. Qed.

Lemma representative_snoc (keep : DuplicateRemovalMode) (run : list FrameInfo.t)
    (rep cur : FrameInfo.t) :
  representative keep run = Some rep ->
  representative keep (run ++ [cur]) = Some (next_basis keep rep cur).
Proof.
  destruct keep; simpl.
  - destruct run; simpl; [done|]. done.
  - intros _. apply last_snoc.
Qed.

Section CollapserFacts.
Context `{LICE}.
Variable cfg : DuplicateFrameRemovalSettings.

Lemma adjust_delay_tracks (st : collapse) (run : list FrameInfo.t) :
  tracks cfg st run ->
  adjust_delay cfg st
  = FrameInfo.set_delay_ms (pending st) (run_delay cfg (pending st) run).
Proof.
  intros (_ & Hsum & Hcnt). unfold adjust_delay, run_delay.
  rewrite <- Hsum, <- Hcnt.
  destruct (delay_adjust_mode cfg); [|destruct (0 <? group_count st)|];
    by rewrite ?set_delay_ms_same.
Qed.

Lemma tracks_start (st : collapse) (cur : FrameInfo.t) :
  int_range (FrameInfo.delay_ms cur) ->
  pending st = cur -> group_count st = 1 ->
  group_delay_sum st = FrameInfo.delay_ms cur ->
  tracks cfg st [cur].
Proof.
  intros Hr Hp Hc Hs. unfold tracks. rewrite Hp, Hc, Hs. split; [|split].
  - by destruct (keep_mode cfg).
  - unfold delay_total. simpl. rewrite Z.add_0_r. by rewrite wrap_int_id.
  - reflexivity.
Qed.

Lemma tracks_extend (st st' : collapse) (run : list FrameInfo.t)
    (cur : FrameInfo.t) :
  tracks cfg st run ->
  pending st' = next_basis (keep_mode cfg) (pending st) cur ->
  group_count st' = wrap_int (group_count st + 1) ->
  group_delay_sum st' = wrap_int (group_delay_sum st + FrameInfo.delay_ms cur) ->
  tracks cfg st' (run ++ [cur]).
Proof.
  intros (Hrep & Hsum & Hcnt) Hp Hc Hs. unfold tracks.
  rewrite Hp, Hc, Hs, Hsum, Hcnt, !wrap_int_add_l, delay_total_snoc.
  split; [by apply representative_snoc|]. split; [done|].
  rewrite length_app. simpl. f_equal. lia.
Qed.

(** The frames the loop appends are the kept frames of the runs, one for
    each run and in their order. *)
Lemma collapse_loop_frames (rest : list FrameInfo.t) :
  forall (st : collapse) (run : list FrameInfo.t) (i : Z) (arr : FrameArray.t),
  tracks cfg st run -> delays_are_int rest -> output st = Some arr ->
  exists arr' fs,
    flush_run cfg (collapse_loop cfg i rest st) = Some arr'
    /\ FrameArray.frames arr' = FrameArray.frames arr ++ fs
    /\ Forall2 (kept_of cfg) (runs_from cfg (pending st) run rest) fs.
Proof.
  induction rest as [|cur rest IH]; intros st run i arr Htr Hint Hout.
  - simpl. unfold flush_run. rewrite Hout.
    eexists _, [adjust_delay cfg st]. split; [done|]. split; [done|].
    constructor; [|constructor].
    exists (pending st). split; [apply Htr|]. by apply adjust_delay_tracks.
  - apply Forall_cons in Hint as [Hcur Hint]. simpl.
    unfold collapse_step. fold (is_dup cfg (pending st) cur).
    destruct (is_dup cfg (pending st) cur) eqn:Hdup.
    + destruct (keep_mode cfg) eqn:Hkeep.
      * eapply IH; [|done|done].
        eapply tracks_extend; [done|by rewrite Hkeep|done|done].
      * match goal with |- context [collapse_loop _ _ _ ?s] =>
          destruct (IH s (run ++ [cur]) (i + 1) arr) as (arr' & fs & H1 & H2 & H3)
        end; [|done|done|].
        { eapply tracks_extend; [done|by rewrite Hkeep|done|done]. }
        exists arr', fs. done.
    + match goal with |- context [collapse_loop _ _ _ ?s] =>
        destruct (IH s [cur] (i + 1) (FrameArray_Add arr (adjust_delay cfg st)))
          as (arr' & fs & H1 & H2 & H3)
      end; [by apply tracks_start|done|..].
      { simpl. unfold flush_run. by rewrite Hout. }
      exists arr', (adjust_delay cfg st :: fs). split; [done|]. split.
      * rewrite H2. simpl. by rewrite <- app_assoc.
      * constructor; [|done].
        exists (pending st). split; [apply Htr|]. by apply adjust_delay_tracks.
Qed.

(** The runs are consecutive pieces of the input, none of them empty. *)
Lemma runs_from_concat (rest : list FrameInfo.t) :
  forall (rep : FrameInfo.t) (run : list FrameInfo.t),
  concat (runs_from cfg rep run rest) = run ++ rest.
Proof.
  induction rest as [|cur rest IH]; intros rep run; simpl.
  - by rewrite !app_nil_r.
  - destruct (is_dup cfg rep cur); simpl; rewrite IH; [|done].
    by rewrite <- app_assoc.
Qed.

Lemma runs_concat (input : list FrameInfo.t) :
  concat (runs cfg input) = input.
Proof. destruct input; [done|]. simpl. by rewrite runs_from_concat. Qed.

Lemma output_frames_runs (input : list FrameInfo.t) (arr : FrameArray.t)
    (ri : option IndexArray.t) :
  delays_are_int input ->
  Forall2 (kept_of cfg) (runs cfg input)
    (output_frames (RemoveDuplicateFrames input
       (match input with [] => empty_frames | _ => Some arr end) cfg ri)).
Proof.
  intros Hint. destruct input as [|first rest]; [constructor|].
  apply Forall_cons in Hint as [Hfirst Hint].
  unfold RemoveDuplicateFrames, output_frames. simpl fst. simpl snd.
  match goal with |- context [collapse_loop _ _ _ ?s] =>
    destruct (collapse_loop_frames rest s [first] 1
                (FrameArray_Init (Z.quot (Z.of_nat (length (first :: rest))) 2)))
      as (arr' & fs & H1 & H2 & H3)
  end; [by apply tracks_start|done|done|].
  rewrite H1. simpl. rewrite H2. done.
Qed.
End CollapserFacts.

Section CollapserClaims.
Context `{LICE}.
Variable cfg : DuplicateFrameRemovalSettings.

Lemma collapse_loop_cons (i : Z) (cur : FrameInfo.t) (rest : list FrameInfo.t)
    (st : collapse) :
  collapse_loop cfg i (cur :: rest) st
  = collapse_loop cfg (i + 1) rest (collapse_step cfg i cur st).
Proof. reflexivity. Qed.

Lemma collapse_step_keep_first (i : Z) (cur : FrameInfo.t) (st : collapse) :
  keep_mode cfg = kDuplicateKeepFirst ->
  is_dup cfg (pending st) cur = true ->
  collapse_step cfg i cur st
  = {| pending := pending st;
       group_count := wrap_int (group_count st + 1);
       group_delay_sum := wrap_int (group_delay_sum st + FrameInfo.delay_ms cur);
       removed := removed st + 1;
       output := output st;
       removed_indices := add_index (removed_indices st) i |}.
Proof.
  intros Hkeep Hdup. unfold collapse_step. fold (is_dup cfg (pending st) cur).
  by rewrite Hdup, Hkeep.
Qed.

Lemma collapse_step_flush (i : Z) (cur : FrameInfo.t) (st : collapse) :
  is_dup cfg (pending st) cur = false ->
  collapse_step cfg i cur st
  = {| pending := cur;
       group_count := 1;
       group_delay_sum := FrameInfo.delay_ms cur;
       removed := removed st;
       output := flush_run cfg st;
       removed_indices := removed_indices st |}.
Proof.
  intros Hdup. unfold collapse_step. fold (is_dup cfg (pending st) cur).
  by rewrite Hdup.
Qed.

(** C4, amended.  In [kSum] mode every output frame is the kept frame of
    one run of the input, runs and output frames in the same order, and its
    delay is the sum of the delays of all frames of that run computed in
    [int]: the exact sum whenever that fits, whatever the length of the
    run. *)
Theorem sum_mode_delay_is_run_total (input : list FrameInfo.t) :
  delay_adjust_mode cfg = kSum ->
  delays_are_int input ->
  concat (runs cfg input) = input
  /\ Forall2 (carries_run_sum (keep_mode cfg)) (runs cfg input)
       (output_frames
          (RemoveDuplicateFrames input empty_frames cfg empty_indices)).
Proof.
  intros Hsum Hint. split; [apply runs_concat|].
  pose proof (output_frames_runs cfg input (FrameArray_Init 0) empty_indices Hint)
    as Hk.
  assert (Harr : match input with [] => empty_frames
                 | _ => Some (FrameArray_Init 0) end = empty_frames)
    by (by destruct input).
  rewrite Harr in Hk. clear Harr.
  eapply Forall2_impl; [exact Hk|].
  intros run f (rep & Hrep & ->). unfold run_delay. rewrite Hsum.
  split; [|split].
  - exists rep. by destruct rep.
  - by destruct rep.
  - intros Hr. destruct rep; simpl. by apply wrap_int_id.
Qed.

(** The duplicate test reads the bitmap and the region of a frame, not its
    delay. *)
Lemma is_dup_set_delay_ms (p c : FrameInfo.t) (dp dc : Z) :
  is_dup cfg (FrameInfo.set_delay_ms p dp) (FrameInfo.set_delay_ms c dc)
  = is_dup cfg p c.
Proof. destruct p, c; reflexivity. Qed.

Lemma chain_distinct_set_delay_ms (l : list FrameInfo.t) (p : FrameInfo.t)
    (d : Z) :
  chain_distinct cfg p l -> chain_distinct cfg (FrameInfo.set_delay_ms p d) l.
Proof.
  destruct l as [|c l]; [done|]. simpl. intros [Hd Hl]. split; [|done].
  rewrite <- (set_delay_ms_same c), is_dup_set_delay_ms. done.
Qed.

Lemma adjust_delay_pending (st : collapse) :
  exists d, adjust_delay cfg st = FrameInfo.set_delay_ms (pending st) d.
Proof.
  unfold adjust_delay.
  destruct (delay_adjust_mode cfg); [|destruct (0 <? group_count st)|];
    eauto using eq_sym, set_delay_ms_same.
Qed.

(** Keeping the first frame of each run, no emitted frame is a duplicate of
    the frame emitted before it. *)
Lemma collapse_loop_chain (rest : list FrameInfo.t) :
  forall (st : collapse) (i : Z) (arr : FrameArray.t),
  keep_mode cfg = kDuplicateKeepFirst -> output st = Some arr ->
  exists arr' d fs,
    flush_run cfg (collapse_loop cfg i rest st) = Some arr'
    /\ FrameArray.frames arr'
       = FrameArray.frames arr ++ FrameInfo.set_delay_ms (pending st) d :: fs
    /\ chain_distinct cfg (pending st) fs.
Proof.
  induction rest as [|cur rest IH]; intros st i arr Hkeep Hout.
  - simpl. unfold flush_run. rewrite Hout.
    destruct (adjust_delay_pending st) as [d Hd].
    eexists _, d, []. rewrite Hd. done.
  - simpl. unfold collapse_step. fold (is_dup cfg (pending st) cur).
    destruct (is_dup cfg (pending st) cur) eqn:Hdup.
    + rewrite Hkeep.
      match goal with |- context [collapse_loop _ _ _ ?s] =>
        destruct (IH s (i + 1) arr Hkeep Hout) as (arr' & d & fs & H1 & H2 & H3)
      end.
      exists arr', d, fs. done.
    + destruct (adjust_delay_pending st) as [d Hd].
      match goal with |- context [collapse_loop _ _ _ ?s] =>
        destruct (IH s (i + 1) (FrameArray_Add arr (adjust_delay cfg st)) Hkeep)
          as (arr' & d' & fs & H1 & H2 & H3)
      end.
      { simpl. unfold flush_run. by rewrite Hout. }
      simpl in H2, H3.
      exists arr', d, (FrameInfo.set_delay_ms cur d' :: fs).
      split; [done|]. split.
      * rewrite H2. simpl. rewrite <- app_assoc, Hd. done.
      * simpl. split; [|by apply chain_distinct_set_delay_ms].
        rewrite <- (set_delay_ms_same (pending st)), is_dup_set_delay_ms. done.
Qed.

(** On frames none of which is a duplicate of the one before it, the loop
    removes nothing and emits every frame as it is. *)
Lemma collapse_loop_distinct (rest : list FrameInfo.t) :
  forall (st : collapse) (i : Z) (arr : FrameArray.t),
  chain_distinct cfg (pending st) rest ->
  group_count st = 1 -> group_delay_sum st = FrameInfo.delay_ms (pending st) ->
  output st = Some arr ->
  removed (collapse_loop cfg i rest st) = removed st
  /\ removed_indices (collapse_loop cfg i rest st) = removed_indices st
  /\ exists arr',
       flush_run cfg (collapse_loop cfg i rest st) = Some arr'
       /\ FrameArray.frames arr' = FrameArray.frames arr ++ pending st :: rest.
Proof.
  assert (Hadj : forall st, group_count st = 1 ->
            group_delay_sum st = FrameInfo.delay_ms (pending st) ->
            adjust_delay cfg st = pending st).
  { intros st Hc Hs. unfold adjust_delay. rewrite Hc, Hs. simpl.
    rewrite Z.quot_1_r. destruct (delay_adjust_mode cfg);
      by rewrite ?set_delay_ms_same. }
  induction rest as [|cur rest IH]; intros st i arr Hch Hc Hs Hout.
  - simpl. split; [done|]. split; [done|].
    unfold flush_run. rewrite Hout, Hadj by done. eauto.
  - destruct Hch as [Hdup Hch]. simpl. unfold collapse_step.
    fold (is_dup cfg (pending st) cur). rewrite Hdup.
    match goal with |- context [collapse_loop _ _ _ ?s] =>
      destruct (IH s (i + 1) (FrameArray_Add arr (adjust_delay cfg st)))
        as (H1 & H2 & arr' & H3 & H4)
    end; [done|done|done|..].
    { simpl. unfold flush_run. by rewrite Hout. }
    simpl in H1, H2, H4. split; [done|]. split; [done|].
    exists arr'. split; [done|].
    rewrite H4, Hadj, <- app_assoc by done. done.
Qed.

(** C6, amended.  With [kDuplicateKeepFirst], running the collapser on its
    own output with the same settings removes no frame, records no index and
    returns the frames unchanged. *)
Theorem keep_first_idempotent (input : list FrameInfo.t) :
  keep_mode cfg = kDuplicateKeepFirst ->
  let once := RemoveDuplicateFrames input empty_frames cfg empty_indices in
  let twice :=
    RemoveDuplicateFrames (output_frames once) empty_frames cfg empty_indices in
  removed_count twice = 0
  /\ output_frames twice = output_frames once
  /\ removed_list twice = [].
Proof.
  intros Hkeep once twice. subst twice.
  destruct input as [|first rest]; [done|].
  assert (Hout : exists d fs,
            output_frames once = FrameInfo.set_delay_ms first d :: fs
            /\ chain_distinct cfg first fs).
  { subst once. unfold RemoveDuplicateFrames, output_frames. simpl fst; simpl snd.
    match goal with |- context [collapse_loop _ _ _ ?s] =>
      destruct (collapse_loop_chain rest s 1
                  (FrameArray_Init (Z.quot (Z.of_nat (length (first :: rest))) 2))
                  Hkeep eq_refl) as (arr' & d & fs & H1 & H2 & H3)
    end.
    rewrite H1. exists d, fs. done. }
  destruct Hout as (d & fs & -> & Hch). clearbody once.
  unfold RemoveDuplicateFrames, removed_count, output_frames, removed_list.
  simpl fst; simpl snd.
  match goal with |- context [collapse_loop _ _ _ ?s] => set (st2 := s) end.
  destruct (collapse_loop_distinct fs st2 1
      (FrameArray_Init
         (Z.quot (Z.of_nat (length (FrameInfo.set_delay_ms first d :: fs))) 2)))
    as (H4 & H5 & arr'' & H6 & H7);
    [by apply chain_distinct_set_delay_ms|done|done|done|].
  rewrite H4, H5, H6. simpl. rewrite H7. done.
Qed.


(** C1.  The six frames A(100) A(110) B(120) B(130) B(140) C(150), keeping
    the first frame and summing delays, with same-letter frames classified
    as duplicates and different-letter frames not: the output is A(210)
    B(390) C(150), three frames are removed, and the removed indices are
    1, 3, 4 in this order. *)
Theorem keep_first_sum_example (A B C : option LICE_IBitmap) :
  keep_mode cfg = kDuplicateKeepFirst ->
  delay_adjust_mode cfg = kSum ->
  is_dup cfg (FrameInfo.make 0 A 100) (FrameInfo.make 1 A 110) = true ->
  is_dup cfg (FrameInfo.make 0 A 100) (FrameInfo.make 2 B 120) = false ->
  is_dup cfg (FrameInfo.make 2 B 120) (FrameInfo.make 3 B 130) = true ->
  is_dup cfg (FrameInfo.make 2 B 120) (FrameInfo.make 4 B 140) = true ->
  is_dup cfg (FrameInfo.make 2 B 120) (FrameInfo.make 5 C 150) = false ->
  let r :=
    RemoveDuplicateFrames
      [FrameInfo.make 0 A 100; FrameInfo.make 1 A 110; FrameInfo.make 2 B 120;
       FrameInfo.make 3 B 130; FrameInfo.make 4 B 140; FrameInfo.make 5 C 150]
      empty_frames cfg empty_indices in
  output_frames r
  = [FrameInfo.make 0 A 210; FrameInfo.make 2 B 390; FrameInfo.make 5 C 150]
  /\ removed_count r = 3
  /\ removed_list r = [1; 3; 4].
Proof.
  intros Hkeep Hsum HAA HAB HBB3 HBB4 HBC r.
  assert (Hst : collapse_loop cfg 1
            [FrameInfo.make 1 A 110; FrameInfo.make 2 B 120;
             FrameInfo.make 3 B 130; FrameInfo.make 4 B 140;
             FrameInfo.make 5 C 150]
            {| pending := FrameInfo.make 0 A 100;
               group_count := 1;
               group_delay_sum := 100;
               removed := 0;
               output := Some (FrameArray_Init 3);
               removed_indices := Some (IndexArray_Init 1) |}
          = {| pending := FrameInfo.make 5 C 150;
               group_count := 1;
               group_delay_sum := 150;
               removed := 3;
               output :=
                 Some (FrameArray.mk
                         [FrameInfo.make 0 A 210; FrameInfo.make 2 B 390] 3);
               removed_indices := Some (IndexArray.mk [1; 3; 4] 4) |}).
  { rewrite collapse_loop_cons, collapse_step_keep_first
      by (cbn [pending]; assumption).
    cbn [pending group_count group_delay_sum removed output removed_indices].
    rewrite collapse_loop_cons, collapse_step_flush
      by (cbn [pending]; assumption).
    unfold flush_run, adjust_delay. rewrite Hsum.
    cbn [pending group_count group_delay_sum removed output removed_indices].
    rewrite collapse_loop_cons, collapse_step_keep_first
      by (cbn [pending]; assumption).
    cbn [pending group_count group_delay_sum removed output removed_indices].
    rewrite collapse_loop_cons, collapse_step_keep_first
      by (cbn [pending]; assumption).
    cbn [pending group_count group_delay_sum removed output removed_indices].
    rewrite collapse_loop_cons, collapse_step_flush
      by (cbn [pending]; assumption).
    unfold flush_run, adjust_delay. rewrite Hsum.
    cbn [pending group_count group_delay_sum removed output removed_indices
         collapse_loop].
    vm_compute. reflexivity. }
  subst r. unfold RemoveDuplicateFrames, empty_frames, empty_indices.
  change (Z.quot (Z.of_nat (length
            [FrameInfo.make 0 A 100; FrameInfo.make 1 A 110;
             FrameInfo.make 2 B 120; FrameInfo.make 3 B 130;
             FrameInfo.make 4 B 140; FrameInfo.make 5 C 150])) 2) with 3.
  change (Z.quot (Z.of_nat (length
            [FrameInfo.make 0 A 100; FrameInfo.make 1 A 110;
             FrameInfo.make 2 B 120; FrameInfo.make 3 B 130;
             FrameInfo.make 4 B 140; FrameInfo.make 5 C 150])) 4) with 1.
  change (FrameInfo.delay_ms (FrameInfo.make 0 A 100)) with 100.
  rewrite Hst. unfold output_frames, removed_count, removed_list, flush_run,
    adjust_delay. rewrite Hsum. done.
Qed.
End CollapserClaims.

(** * Properties of the similarity engine *)

Lemma clampi_max_min (v hi : Z) :
  0 <= hi -> clampi v 0 hi = Z.max 0 (Z.min v hi).
Proof.
  intros Hhi. unfold clampi.
  destruct (Z.ltb_spec v 0), (Z.ltb_spec hi v); lia.
Qed.

Lemma for_steps_In (fuel : nat) :
  forall (v hi s x : Z),
  0 < s -> In x (for_steps fuel v hi s) ->
  exists k, 0 <= k /\ x = v + k * s /\ x < hi.
Proof.
  induction fuel as [|fuel IH]; intros v hi s x Hs; simpl; [done|].
  destruct (Z.ltb_spec v hi) as [Hlt|Hge]; [|done].
  intros [<-|Hin].
  - exists 0. lia.
  - destruct (IH _ _ _ _ Hs Hin) as (k & Hk & -> & Hx).
    exists (k + 1). lia.
Qed.

Lemma for_range_In (lo hi s x : Z) :
  0 < s -> In x (for_range lo hi s) ->
  exists k, 0 <= k /\ x = lo + k * s /\ lo <= x < hi.
Proof.
  intros Hs Hin. destruct (for_steps_In _ _ _ _ _ Hs Hin) as (k & Hk & -> & Hx).
  exists k. nia.
Qed.

Lemma compute_roi_effective (bma bmb : LICE_IBitmap) (roi : option RECT.t) :
  getWidth bma = getWidth bmb -> getHeight bma = getHeight bmb ->
  0 <= getWidth bma -> 0 <= getHeight bma ->
  compute_roi (Some bma) (Some bmb) roi
  = effective_region (getWidth bma) (getHeight bma) roi.
Proof.
  intros Hw Hh Hw0 Hh0. unfold compute_roi, effective_region.
  rewrite <- Hw, <- Hh, !Z.ltb_irrefl.
  destruct roi as [r|]; [|done].
  rewrite !clampi_max_min by done. f_equal.
  - destruct (Z.ltb_spec (Z.max 0 (Z.min (RECT.right r) (getWidth bma)))
                (Z.max 0 (Z.min (RECT.left r) (getWidth bma)))); lia.
  - destruct (Z.ltb_spec (Z.max 0 (Z.min (RECT.bottom r) (getHeight bma)))
                (Z.max 0 (Z.min (RECT.top r) (getHeight bma)))); lia.
Qed.


Lemma pixel_offset_inj (bm : LICE_IBitmap) (xx yy x0 y0 : Z) :
  getWidth bm <= getRowSpan bm ->
  0 <= xx < getWidth bm -> 0 <= x0 < getWidth bm ->
  pixel_offset bm xx yy = pixel_offset bm x0 y0 ->
  xx = x0 /\ yy = y0.
Proof.
  unfold pixel_offset, row_stride. intros Hspan Hx Hx0 Heq.
  assert (Hy : yy = y0).
  { destruct (isFlipped bm); destruct (Z.lt_total yy y0) as [?|[?|?]];
      [nia|done|nia|nia|done|nia]. }
  subst yy. lia.
Qed.

Lemma pixel_offset_set_pixel (bm : LICE_IBitmap) (x0 y0 : Z) (v : LICE_pixel)
    (xx yy : Z) :
  pixel_offset (set_pixel bm x0 y0 v) xx yy = pixel_offset bm xx yy.
Proof. unfold set_pixel. by destruct (pixel_offset bm x0 y0 <? 0). Qed.

Lemma peek_set_pixel (bm : LICE_IBitmap) (x0 y0 : Z) (v : LICE_pixel)
    (off : Z) :
  off <> pixel_offset bm x0 y0 ->
  peek (getBits (set_pixel bm x0 y0 v)) off = peek (getBits bm) off.
Proof.
  intros Hne. unfold set_pixel.
  destruct (Z.ltb_spec (pixel_offset bm x0 y0) 0) as [|Hoff]; [done|].
  simpl. unfold peek. destruct (Z.ltb_spec off 0) as [|Hnn]; [done|].
  rewrite list_lookup_insert_ne; [done|].
  intros Heq. apply Z2Nat.inj in Heq; lia.
Qed.

Lemma set_pixel_dims (bm : LICE_IBitmap) (x0 y0 : Z) (v : LICE_pixel) :
  getWidth (set_pixel bm x0 y0 v) = getWidth bm
  /\ getHeight (set_pixel bm x0 y0 v) = getHeight bm.
Proof. unfold set_pixel. by destruct (pixel_offset bm x0 y0 <? 0). Qed.

Section SimilarityFacts.
Context `{LICE}.

(** [path_of] names the branch [CalculateSimilarity] returns from. *)
Lemma CalculateSimilarity_path (a b : option LICE_IBitmap)
    (roi : option RECT.t) (cfg : DuplicateFrameRemovalSettings) :
  match path_of a b roi cfg with
  | path_null | path_size_mismatch => CalculateSimilarity a b roi cfg = dbl_0
  | path_empty_region => CalculateSimilarity a b roi cfg = dbl_1
  | path_fast =>
      exists bma bmb, a = Some bma /\ b = Some bmb
        /\ CalculateSimilarity a b roi cfg = fast_path bma bmb cfg
  | path_generic =>
      exists bma bmb, a = Some bma /\ b = Some bmb
        /\ CalculateSimilarity a b roi cfg
           = generic_scan bma bmb (compute_roi a b roi) cfg
  end.
Proof.
  unfold path_of, CalculateSimilarity.
  destruct a as [bma|], b as [bmb|]; try done.
  destruct (negb _ || negb _); [done|].
  destruct ((_ <=? 0) || (_ <=? 0)); [done|].
  destruct (fast_path_cond _ _ _); eauto.
Qed.

(** C2.  The degenerate checks, in their order: a null bitmap gives 0.0;
    otherwise differing widths or heights give 0.0; otherwise an effective
    region without width or without height gives 1.0, the effective region
    being the caller's rectangle clamped to the bitmap bounds with inverted
    edges collapsed. *)
Theorem similarity_degenerate_checks (a b : option LICE_IBitmap)
    (roi : option RECT.t) (cfg : DuplicateFrameRemovalSettings) :
  (a = None \/ b = None -> CalculateSimilarity a b roi cfg = dbl_0)
  /\ (forall bma bmb, a = Some bma -> b = Some bmb ->
        (getWidth bma <> getWidth bmb \/ getHeight bma <> getHeight bmb ->
           CalculateSimilarity a b roi cfg = dbl_0)
        /\ (getWidth bma = getWidth bmb -> getHeight bma = getHeight bmb ->
            (RECT.right (compute_roi a b roi) - RECT.left (compute_roi a b roi) <= 0
             \/ RECT.bottom (compute_roi a b roi) - RECT.top (compute_roi a b roi) <= 0 ->
               CalculateSimilarity a b roi cfg = dbl_1)
            /\ (0 <= getWidth bma -> 0 <= getHeight bma ->
                  compute_roi a b roi
                  = effective_region (getWidth bma) (getHeight bma) roi))).
Proof.
  split.
  - intros [-> | ->]; [done|]. by destruct a.
  - intros bma bmb -> ->. split.
    + intros Hne. unfold CalculateSimilarity.
      destruct (Z.eqb_spec (getWidth bma) (getWidth bmb)),
        (Z.eqb_spec (getHeight bma) (getHeight bmb)); simpl; try done.
      destruct Hne; done.
    + intros Hw Hh. split.
      * intros Hempty. unfold CalculateSimilarity.
        rewrite Hw, Hh, !Z.eqb_refl. simpl.
        match goal with |- context [(?u <=? 0) || (?v <=? 0)] =>
          destruct (Z.leb_spec u 0), (Z.leb_spec v 0); simpl; try done
        end.
        lia.
      * intros Hw0 Hh0. by apply compute_roi_effective.
Qed.

(** C5.  For two frames with bitmaps, the duplicate test compares over the
    region of [curr] when it has one, else over the region of [prev] when
    it has one, else over the rectangle from (0,0) to the smaller width and
    the smaller height; the decision is [similarity >= threshold] and the
    similarity is returned with it. *)
Theorem is_duplicate_region_and_decision (prev curr : FrameInfo.t)
    (pb cb : LICE_IBitmap) (cfg : DuplicateFrameRemovalSettings) :
  FrameInfo.bmp prev = Some pb -> FrameInfo.bmp curr = Some cb ->
  exists region,
    (has_region curr -> region = frame_region curr)
    /\ (~ has_region curr -> has_region prev -> region = frame_region prev)
    /\ (~ has_region curr -> ~ has_region prev ->
          region = RECT.mk 0 0 (Z.min (getWidth pb) (getWidth cb))
                     (Z.min (getHeight pb) (getHeight cb)))
    /\ IsDuplicateFrame prev curr cfg
       = (dbl_ge (CalculateSimilarity (Some pb) (Some cb) (Some region) cfg)
            (similarity_threshold cfg),
          CalculateSimilarity (Some pb) (Some cb) (Some region) cfg).
Proof.
  intros Hp Hc. exists (frame_roi prev curr pb cb).
  unfold frame_roi, has_region, frame_region.
  repeat split.
  - intros [Hw Hh].
    destruct (Z.ltb_spec 0 (FrameInfo.w curr)), (Z.ltb_spec 0 (FrameInfo.h curr));
      simpl; done || lia.
  - intros Hn [Hw Hh].
    destruct (Z.ltb_spec 0 (FrameInfo.w curr)), (Z.ltb_spec 0 (FrameInfo.h curr));
      simpl; try lia;
      destruct (Z.ltb_spec 0 (FrameInfo.w prev)), (Z.ltb_spec 0 (FrameInfo.h prev));
      simpl; done || lia.
  - intros Hn Hn'.
    destruct (Z.ltb_spec 0 (FrameInfo.w curr)), (Z.ltb_spec 0 (FrameInfo.h curr));
      simpl; try lia;
      destruct (Z.ltb_spec 0 (FrameInfo.w prev)), (Z.ltb_spec 0 (FrameInfo.h prev));
      simpl; try lia;
      (f_equal;
       [destruct (Z.ltb_spec (getWidth pb) (getWidth cb)); lia
       |destruct (Z.ltb_spec (getHeight pb) (getHeight cb)); lia]).
  - unfold IsDuplicateFrame. rewrite Hp, Hc. done.
Qed.
End SimilarityFacts.

Section SamplingFacts.
Context `{LICE}.

Lemma scan_pixel_ext (a b a' b' : LICE_IBitmap)
    (cfg : DuplicateFrameRemovalSettings) (n yy xx : Z) (st : scan) :
  peek (getBits a') (pixel_offset a' xx yy)
    = peek (getBits a) (pixel_offset a xx yy) ->
  peek (getBits b') (pixel_offset b' xx yy)
    = peek (getBits b) (pixel_offset b xx yy) ->
  scan_pixel a' b' cfg n yy xx st = scan_pixel a b cfg n yy xx st.
Proof. intros Ha Hb. unfold scan_pixel. by rewrite Ha, Hb. Qed.

Lemma scan_row_ext (a b a' b' : LICE_IBitmap)
    (cfg : DuplicateFrameRemovalSettings) (n yy : Z) (xs : list Z) :
  (forall xx, In xx xs ->
     peek (getBits a') (pixel_offset a' xx yy)
       = peek (getBits a) (pixel_offset a xx yy)
     /\ peek (getBits b') (pixel_offset b' xx yy)
        = peek (getBits b) (pixel_offset b xx yy)) ->
  forall st, scan_row a' b' cfg n yy xs st = scan_row a b cfg n yy xs st.
Proof.
  induction xs as [|xx xs IH]; intros Hagree st; simpl; [done|].
  destruct (Hagree xx) as [Ha Hb]; [by left|].
  rewrite (scan_pixel_ext a b a' b') by done.
  destruct (scan_pixel a b cfg n yy xx st); [|done].
  apply IH. intros xx' Hin. apply Hagree. by right.
Qed.

Lemma scan_rows_ext (a b a' b' : LICE_IBitmap)
    (cfg : DuplicateFrameRemovalSettings) (n : Z) (xs ys : list Z) :
  (forall xx yy, In xx xs -> In yy ys ->
     peek (getBits a') (pixel_offset a' xx yy)
       = peek (getBits a) (pixel_offset a xx yy)
     /\ peek (getBits b') (pixel_offset b' xx yy)
        = peek (getBits b) (pixel_offset b xx yy)) ->
  forall st, scan_rows a' b' cfg n xs ys st = scan_rows a b cfg n xs ys st.
Proof.
  induction ys as [|yy ys IH]; intros Hagree st; simpl; [done|].
  rewrite (scan_row_ext a b a' b').
  - destruct (scan_row a b cfg n yy xs st); [|done].
    apply IH. intros xx yy' Hx Hy. apply Hagree; [done|by right].
  - intros xx Hx. apply Hagree; [done|by left].
Qed.



Lemma scan_pixel_coerce (a b : LICE_IBitmap)
    (cfg : DuplicateFrameRemovalSettings) (n yy xx : Z) (st : scan) :
  scan_pixel a b (coerce_steps cfg) n yy xx st = scan_pixel a b cfg n yy xx st.
Proof. reflexivity. Qed.

Lemma scan_row_coerce (a b : LICE_IBitmap)
    (cfg : DuplicateFrameRemovalSettings) (n yy : Z) (xs : list Z) :
  forall st,
  scan_row a b (coerce_steps cfg) n yy xs st = scan_row a b cfg n yy xs st.
Proof.
  induction xs as [|xx xs IH]; intros st; simpl; [done|].
  rewrite scan_pixel_coerce. by destruct (scan_pixel a b cfg n yy xx st).
Qed.

Lemma scan_rows_coerce (a b : LICE_IBitmap)
    (cfg : DuplicateFrameRemovalSettings) (n : Z) (xs ys : list Z) :
  forall st,
  scan_rows a b (coerce_steps cfg) n xs ys st = scan_rows a b cfg n xs ys st.
Proof.
  induction ys as [|yy ys IH]; intros st; simpl; [done|].
  rewrite scan_row_coerce. by destruct (scan_row a b cfg n yy xs st).
Qed.

(** The manual scan clamps the steps itself. *)
Lemma generic_scan_coerce (a b : LICE_IBitmap) (r : RECT.t)
    (cfg : DuplicateFrameRemovalSettings) :
  generic_scan a b r (coerce_steps cfg) = generic_scan a b r cfg.
Proof.
  unfold generic_scan. simpl.
  assert (Hs : forall s, (if 0 <? (if 0 <? s then s else 1)
                          then (if 0 <? s then s else 1) else 1)
                         = if 0 <? s then s else 1).
  { intros s. destruct (Z.ltb_spec 0 s) as [Hp|Hn]; [|done].
    by destruct (Z.ltb_spec 0 s); [|lia]. }
  rewrite !Hs, scan_rows_coerce. done.
Qed.

Lemma fast_path_cond_coerce (a : LICE_IBitmap) (r : RECT.t)
    (cfg : DuplicateFrameRemovalSettings) :
  fast_path_cond a r cfg = true -> fast_path_cond a r (coerce_steps cfg) = true.
Proof.
  unfold fast_path_cond. simpl. rewrite !andb_true_iff, !Z.eqb_eq.
  intros ((((((Ht & Hx) & Hy) & Hl) & Htop) & Hr) & Hb).
  rewrite Hx, Hy. done.
Qed.

(** C8, amended.  Unless the settings with the steps replaced take the fast
    path, the similarity with a non-positive sample step equals the
    similarity with each non-positive step replaced by 1. *)
Theorem nonpositive_step_is_one (a b : option LICE_IBitmap)
    (roi : option RECT.t) (cfg : DuplicateFrameRemovalSettings) :
  path_of a b roi (coerce_steps cfg) <> path_fast ->
  CalculateSimilarity a b roi cfg
  = CalculateSimilarity a b roi (coerce_steps cfg).
Proof.
  unfold path_of, CalculateSimilarity.
  destruct a as [bma|], b as [bmb|]; try done.
  destruct (negb _ || negb _); [done|].
  destruct ((_ <=? 0) || (_ <=? 0)); [done|].
  intros Hpath.
  destruct (fast_path_cond bma _ (coerce_steps cfg)) eqn:Hc; [done|].
  destruct (fast_path_cond bma _ cfg) eqn:Hf.
  - apply fast_path_cond_coerce in Hf. congruence.
  - by rewrite generic_scan_coerce.
Qed.
End SamplingFacts.

(** * Binary64 arithmetic of the similarity ratio *)

Lemma digits2_pos_size (p : positive) : digits2_pos p = Pos.size p.
Proof. induction p as [p IH|p IH|]; simpl; by rewrite ?IH. Qed.

Lemma Zdigits2_log2 (z : Z) : 0 < z -> Zdigits2 z = Z.log2 z + 1.
Proof.
  destruct z as [|p|p]; try lia. intros _. simpl. rewrite digits2_pos_size.
  destruct p as [p|p|]; simpl; try lia.
Qed.

Lemma Zdigits2_bounds (z : Z) :
  0 < z -> 2 ^ (Zdigits2 z - 1) <= z < 2 ^ Zdigits2 z.
Proof.
  intros Hz. rewrite Zdigits2_log2 by done.
  replace (Z.log2 z + 1 - 1) with (Z.log2 z) by lia.
  change (Z.log2 z + 1) with (Z.succ (Z.log2 z)).
  apply Z.log2_spec. done.
Qed.

Lemma Zdigits2_unique (z d : Z) :
  0 < d -> 2 ^ (d - 1) <= z < 2 ^ d -> Zdigits2 z = d.
Proof.
  intros Hd Hz. assert (0 < z) by (pose proof (Z.pow_pos_nonneg 2 (d - 1)); lia).
  rewrite Zdigits2_log2 by done.
  assert (Hl : Z.log2 z = d - 1).
  { apply Z.log2_unique; [lia|]. replace (Z.succ (d - 1)) with d by lia. done. }
  lia.
Qed.

Lemma div_mod_double (X D : Z) :
  0 < D ->
  X / (2 * D) = (X / D) / 2
  /\ X mod (2 * D) = ((X / D) mod 2) * D + X mod D.
Proof.
  intros HD.
  pose proof (Z.div_mod X D ltac:(lia)) as H1.
  pose proof (Z.mod_pos_bound X D HD) as H2.
  pose proof (Z.div_mod (X / D) 2 ltac:(lia)) as H3.
  pose proof (Z.mod_pos_bound (X / D) 2 ltac:(lia)) as H4.
  assert (Hq : X / (2 * D) = (X / D) / 2).
  { symmetry. apply Z.div_unique with ((X / D) mod 2 * D + X mod D); nia. }
  split; [done|].
  symmetry. apply Z.mod_unique with ((X / D) / 2); nia.
Qed.

(** One shift of the record of [X / D] is the record of [X / (2 D)]. *)
Lemma shr_1_record_of (X D : Z) :
  0 <= X -> 0 < D -> shr_1 (record_of X D) = record_of X (2 * D).
Proof.
  intros HX HD. destruct (div_mod_double X D HD) as [Hq Hr].
  pose proof (Z.mod_pos_bound X D HD) as HR.
  pose proof (Z.div_pos X D HX HD) as Hq0.
  pose proof (Z.div_mod (X / D) 2 ltac:(lia)) as H3.
  pose proof (Z.mod_pos_bound (X / D) 2 ltac:(lia)) as H4.
  assert (Hs : (D <=? 2 * (X mod D)) || negb ((2 * (X mod D)) mod D =? 0)
               = negb ((2 * (X mod (2 * D))) mod (2 * D) =? 0)).
  { replace ((2 * (X mod (2 * D))) mod (2 * D)) with (2 * (X mod D)).
    2:{ rewrite Hr.
        apply Z.mod_unique with ((X / D) mod 2); nia. }
    destruct (Z.leb_spec D (2 * (X mod D))) as [Hle|Hlt]; simpl.
    - symmetry. apply negb_true_iff, Z.eqb_neq. lia.
    - rewrite Z.mod_small by lia. done. }
  unfold record_of at 2. rewrite <- Hs, Hq. unfold record_of.
  assert (Hbit : (2 * D <=? 2 * (X mod (2 * D))) = negb ((X / D) mod 2 =? 0)).
  { rewrite Hr. destruct (Z.eqb_spec ((X / D) mod 2) 0) as [H0|H0]; simpl.
    - apply Z.leb_gt. nia.
    - apply Z.leb_le. nia. }
  rewrite Hbit. unfold shr_1.
  destruct (X / D) as [|[p|p|]|p] eqn:Hm; [done| | |done|lia].
  - replace (Z.pos p~1 / 2) with (Z.pos p)
      by (apply Z.div_unique with 1; lia).
    replace (Z.pos p~1 mod 2) with 1
      by (apply Z.mod_unique with (Z.pos p); lia).
    done.
  - replace (Z.pos p~0 / 2) with (Z.pos p)
      by (apply Z.div_unique with 0; lia).
    replace (Z.pos p~0 mod 2) with 0
      by (apply Z.mod_unique with (Z.pos p); lia).
    done.
Qed.

Lemma shr_iter_record_of (p : positive) :
  forall X D, 0 <= X -> 0 < D ->
  SpecFloat.iter_pos shr_1 p (record_of X D) = record_of X (2 ^ Z.pos p * D).
Proof.
  induction p as [p IH|p IH|]; intros X D HX HD.
  - change (SpecFloat.iter_pos shr_1 p~1 (record_of X D))
      with (SpecFloat.iter_pos shr_1 p
              (SpecFloat.iter_pos shr_1 p (shr_1 (record_of X D)))).
    pose proof (Z.pow_pos_nonneg 2 (Z.pos p) ltac:(lia) ltac:(lia)).
    rewrite shr_1_record_of, !IH by (done || nia).
    f_equal. rewrite (Pos2Z.inj_xI p), Z.pow_add_r, Z.pow_mul_r by lia.
    change (2 ^ 2) with 4. change (2 ^ 1) with 2.
    replace (4 ^ Z.pos p) with (2 ^ Z.pos p * 2 ^ Z.pos p).
    + lia.
    + rewrite <- Z.pow_mul_l. done.
  - change (SpecFloat.iter_pos shr_1 p~0 (record_of X D))
      with (SpecFloat.iter_pos shr_1 p
              (SpecFloat.iter_pos shr_1 p (record_of X D))).
    pose proof (Z.pow_pos_nonneg 2 (Z.pos p) ltac:(lia) ltac:(lia)).
    rewrite !IH by (done || nia).
    f_equal. rewrite (Pos2Z.inj_xO p), Z.pow_mul_r by lia.
    change (2 ^ 2) with 4.
    replace (4 ^ Z.pos p) with (2 ^ Z.pos p * 2 ^ Z.pos p).
    + lia.
    + rewrite <- Z.pow_mul_l. done.
  - change (SpecFloat.iter_pos shr_1 1 (record_of X D))
      with (shr_1 (record_of X D)).
    rewrite shr_1_record_of by done. done.
Qed.

Lemma shr_record_of_loc_of (X D : Z) :
  0 < D -> shr_record_of_loc (X / D) (loc_of X D) = record_of X D.
Proof.
  intros HD. pose proof (Z.mod_pos_bound X D HD) as HR.
  unfold loc_of, record_of. remember (X mod D) as R eqn:HeqR. clear HeqR.
  destruct (Z.eqb_spec R 0) as [H0|H0].
  - rewrite H0. simpl. rewrite ?Z.mod_0_l by lia.
    destruct (Z.leb_spec D (2 * 0)); [lia|done].
  - destruct (Z.compare_spec (2 * R) D) as [He|Hl|Hg]; simpl.
    + rewrite He, Z.mod_same, Z.leb_refl by lia. done.
    + rewrite Z.mod_small by lia.
      destruct (Z.leb_spec D (2 * R)); [lia|].
      destruct (Z.eqb_spec (2 * R) 0); [lia|done].
    + destruct (Z.leb_spec D (2 * R)); [|lia].
      replace ((2 * R) mod D) with (2 * R - D)
        by (apply Z.mod_unique with 1; lia).
      destruct (Z.eqb_spec (2 * R - D) 0); [lia|done].
Qed.

Lemma loc_of_shr_record_of (X D : Z) :
  0 < D -> loc_of_shr_record (record_of X D) = loc_of X D.
Proof.
  intros HD. rewrite <- shr_record_of_loc_of by done.
  by destruct (loc_of X D) as [|[]].
Qed.

Lemma round_nearest_even_rne (X D : Z) :
  0 < D -> round_nearest_even (X / D) (loc_of X D) = rne X D.
Proof.
  intros HD. pose proof (Z.mod_pos_bound X D HD) as HR.
  unfold loc_of, rne, round_nearest_even.
  remember (X mod D) as R eqn:HeqR. clear HeqR.
  destruct (Z.eqb_spec R 0) as [H0|H0].
  - rewrite H0. destruct D; [lia|done|lia].
  - by destruct (2 * R ?= D).
Qed.

Lemma new_location_loc_of (X D : Z) :
  0 < D -> new_location D (X mod D) = loc_of X D.
Proof.
  intros HD. pose proof (Z.mod_pos_bound X D HD) as HR.
  unfold new_location, new_location_even, new_location_odd, loc_of.
  remember (X mod D) as R eqn:HeqR. clear HeqR.
  destruct (Z.even D) eqn:Hev; [done|].
  destruct (R =? 0); [done|]. f_equal.
  assert (Hodd : Z.odd D = true) by (by rewrite <- Z.negb_even, Hev).
  apply Z.odd_spec in Hodd as [k ->].
  destruct (Z.compare_spec (2 * R + 1) (2 * k + 1)),
    (Z.compare_spec (2 * R) (2 * k + 1)); lia || done.
Qed.

Lemma fexp_normal (k : Z) :
  -1074 <= k - 53 -> fexp dbl_prec dbl_emax k = k - 53.
Proof. unfold fexp, emin, dbl_prec, dbl_emax. lia. Qed.

Lemma shr_record_of (X D e n : Z) :
  0 <= X -> 0 < D -> 0 <= n ->
  shr (record_of X D) e n = (record_of X (2 ^ n * D), e + n).
Proof.
  intros HX HD Hn. destruct n as [|p|p]; [| |lia].
  - simpl. rewrite Z.add_0_r. by destruct D.
  - unfold shr. by rewrite shr_iter_record_of.
Qed.

Lemma rne_bounds (X D : Z) : 0 < D -> X / D <= rne X D <= X / D + 1.
Proof.
  intros HD. unfold rne.
  destruct (2 * (X mod D) ?= D); [destruct (Z.even (X / D))| |]; lia.
Qed.

(** The quotient [X / D] with at least 53 bits, shifted down to 53 bits. *)
Lemma div_shift_bounds (X D : Z) :
  0 < D -> 2 ^ 52 <= X / D ->
  0 <= Zdigits2 (X / D) - 53
  /\ 2 ^ 52 <= X / (2 ^ (Zdigits2 (X / D) - 53) * D) < 2 ^ 53.
Proof.
  intros HD HQ.
  assert (HQ0 : 0 < X / D) by lia.
  pose proof (Zdigits2_bounds (X / D) HQ0) as [Hlo Hhi].
  set (dg := Zdigits2 (X / D)) in *.
  assert (Hdg : 53 <= dg).
  { destruct (Z.le_gt_cases 53 dg) as [|Hlt]; [done|].
    assert (2 ^ dg <= 2 ^ 52) by (apply Z.pow_le_mono_r; lia). lia. }
  split; [lia|].
  rewrite (Z.mul_comm _ D), <- Z.div_div by (try lia; apply Z.pow_pos_nonneg; lia).
  assert (Hp : 0 < 2 ^ (dg - 53)) by (apply Z.pow_pos_nonneg; lia).
  assert (H1 : 2 ^ (dg - 1) = 2 ^ 52 * 2 ^ (dg - 53)).
  { rewrite <- Z.pow_add_r by lia. f_equal. lia. }
  assert (H2 : 2 ^ dg = 2 ^ 53 * 2 ^ (dg - 53)).
  { rewrite <- Z.pow_add_r by lia. f_equal. lia. }
  split.
  - apply Z.div_le_lower_bound; lia.
  - apply Z.div_lt_upper_bound; lia.
Qed.

(** [binary_round_aux] on a positive quotient of at least 53 bits, away from
    underflow and overflow: the quotient is shifted down to 53 bits, rounded
    to nearest even and renormalised. *)
Lemma binary_round_aux_round53 (X D e : Z) :
  0 < D -> 2 ^ 52 <= X / D ->
  -1074 <= e + (Zdigits2 (X / D) - 53) ->
  e + (Zdigits2 (X / D) - 53) + 1 <= 971 ->
  binary_round_aux dbl_prec dbl_emax false (X / D) e (loc_of X D)
  = S754_finite false
      (Z.to_pos (fst (round53 X (2 ^ (Zdigits2 (X / D) - 53) * D)
                        (e + (Zdigits2 (X / D) - 53)))))
      (snd (round53 X (2 ^ (Zdigits2 (X / D) - 53) * D)
              (e + (Zdigits2 (X / D) - 53)))).
Proof.
  intros HD HQ Hlo Hhi.
  destruct (div_shift_bounds X D HD HQ) as [Hn HQ'].
  set (n := Zdigits2 (X / D) - 53) in *.
  assert (HX : 0 <= X).
  { destruct (Z.le_gt_cases 0 X) as [|Hneg]; [done|].
    pose proof (Z.div_lt_upper_bound X D 0 HD ltac:(lia)). lia. }
  assert (HD' : 0 < 2 ^ n * D).
  { pose proof (Z.pow_pos_nonneg 2 n ltac:(lia) Hn). nia. }
  unfold binary_round_aux, shr_fexp.
  rewrite fexp_normal by (unfold n in Hlo; lia).
  replace (Zdigits2 (X / D) + e - 53 - e) with n by (unfold n; lia).
  rewrite shr_record_of_loc_of, shr_record_of by done.
  cbv beta iota.
  rewrite loc_of_shr_record_of by done.
  change (shr_m (record_of X (2 ^ n * D))) with (X / (2 ^ n * D)).
  rewrite round_nearest_even_rne by done.
  pose proof (rne_bounds X (2 ^ n * D) HD') as Hr.
  unfold round53, renorm.
  destruct (Z.eqb_spec (rne X (2 ^ n * D)) (2 ^ 53)) as [Hc|Hc].
  - rewrite Hc. change (Zdigits2 (2 ^ 53)) with 54.
    rewrite fexp_normal by lia.
    replace (54 + (e + n) - 53 - (e + n)) with 1 by lia.
    cbn -[Z.add Z.leb].
    destruct (Z.leb_spec (e + n + 1) (dbl_emax - dbl_prec)) as [|Hov];
      [done|]. unfold dbl_emax, dbl_prec in Hov. lia.
  - rewrite (Zdigits2_unique (rne X (2 ^ n * D)) 53) by lia.
    rewrite fexp_normal by lia.
    replace (53 + (e + n) - 53 - (e + n)) with 0 by lia.
    unfold shr_record_of_loc, shr. cbn [shr_m fst snd].
    destruct (rne X (2 ^ n * D)) as [|m|m] eqn:Hm; [lia| |lia].
    destruct (Z.leb_spec (e + n) (dbl_emax - dbl_prec)) as [|Hov];
      [done|]. unfold dbl_emax, dbl_prec in Hov. lia.
Qed.

Lemma rne_mono (X D X' D' : Z) :
  0 < D -> 0 < D' -> X * D' <= X' * D -> rne X D <= rne X' D'.
Proof.
  intros HD HD' Hle.
  pose proof (Z.div_mod X D ltac:(lia)) as HX.
  pose proof (Z.mod_pos_bound X D HD) as HR.
  pose proof (Z.div_mod X' D' ltac:(lia)) as HX'.
  pose proof (Z.mod_pos_bound X' D' HD') as HR'.
  unfold rne.
  remember (X / D) as q eqn:Hq. remember (X mod D) as R eqn:HeqR.
  remember (X' / D') as q' eqn:Hq'. remember (X' mod D') as R' eqn:HeqR'.
  clear Hq HeqR Hq' HeqR'. subst X X'.
  assert (HDD : 0 < D * D') by nia.
  assert (Hqq : q <= q').
  { destruct (Z.le_gt_cases q q') as [|Hgt]; [done|]. exfalso.
    assert (D * D' * (q' + 1) <= D * D' * q)
      by (apply Z.mul_le_mono_nonneg_l; lia).
    assert (R' * D < D' * D) by (apply Z.mul_lt_mono_pos_r; lia).
    assert (0 <= R * D') by nia. nia. }
  destruct (Z.eq_dec q q') as [<-|Hne].
  - assert (HRR : R * D' <= R' * D) by nia.
    destruct (Z.compare_spec (2 * R) D) as [He|Hl|Hg];
      destruct (Z.compare_spec (2 * R') D') as [He'|Hl'|Hg'];
      try destruct (Z.even q); try lia; nia.
  - assert (q + 1 <= q') by lia.
    destruct (2 * R ?= D), (2 * R' ?= D');
      try destruct (Z.even q); try destruct (Z.even q'); lia.
Qed.

Lemma round53_range (X D E : Z) :
  0 < D -> 2 ^ 52 <= X / D < 2 ^ 53 ->
  2 ^ 52 <= fst (round53 X D E) < 2 ^ 53
  /\ E <= snd (round53 X D E) <= E + 1.
Proof.
  intros HD HQ. pose proof (rne_bounds X D HD) as Hr.
  unfold round53, renorm.
  destruct (Z.eqb_spec (rne X D) (2 ^ 53)); simpl; lia.
Qed.

(** Rounding keeps the order of the rounded quotients. *)
Lemma round53_mono (X D E X' D' E' : Z) :
  0 < D -> 0 < D' ->
  2 ^ 52 <= X / D < 2 ^ 53 -> 2 ^ 52 <= X' / D' < 2 ^ 53 ->
  E < E' \/ (E = E' /\ X * D' <= X' * D) ->
  lex_le (round53 X D E) (round53 X' D' E').
Proof.
  intros HD HD' HQ HQ' Hord.
  pose proof (rne_bounds X D HD) as Hr.
  pose proof (rne_bounds X' D' HD') as Hr'.
  unfold lex_le, round53, renorm.
  destruct Hord as [Hlt|[-> Hle]].
  - destruct (Z.eqb_spec (rne X D) (2 ^ 53)),
      (Z.eqb_spec (rne X' D') (2 ^ 53)); simpl; lia.
  - pose proof (rne_mono X D X' D' HD HD' Hle) as Hm.
    destruct (Z.eqb_spec (rne X D) (2 ^ 53)),
      (Z.eqb_spec (rne X' D') (2 ^ 53)); simpl; lia.
Qed.

Lemma SFleb_finite_of (a b : Z * Z) :
  0 < fst a -> 0 < fst b ->
  lex_le a b -> dbl_le (finite_of a) (finite_of b) = true.
Proof.
  destruct a as [m e], b as [m' e']. unfold lex_le, finite_of, dbl_le. simpl.
  intros Hm Hm' Hle. unfold SFleb, SFcompare.
  destruct (Z.compare_spec e e') as [He|He|He]; [|done|lia].
  change (Pos.compare_cont Eq (Z.to_pos m) (Z.to_pos m'))
    with (Z.to_pos m ?= Z.to_pos m')%positive.
  destruct (Pos.compare_spec (Z.to_pos m) (Z.to_pos m')) as [Hc|Hc|Hc];
    [done|done|]. lia.
Qed.

Lemma pos_iter_xO (k m : positive) :
  Z.pos (Pos.iter xO m k) = Z.pos m * 2 ^ Z.pos k.
Proof.
  induction k as [|k IH] using Pos.peano_ind.
  - simpl. lia.
  - rewrite Pos.iter_succ, Pos2Z.inj_succ, Z.pow_succ_r by lia.
    rewrite (Pos2Z.inj_xO (Pos.iter xO m k)), IH. lia.
Qed.

Lemma long_scaling (z : Z) :
  0 < z ->
  0 < long_D z /\ 2 ^ 52 <= long_X z / long_D z < 2 ^ 53.
Proof.
  intros Hz. pose proof (Zdigits2_bounds z Hz) as [Hlo Hhi].
  assert (Hd : 0 < Zdigits2 z) by (rewrite Zdigits2_log2 by done;
    pose proof (Z.log2_nonneg z); lia).
  unfold long_X, long_D. set (d := Zdigits2 z) in *.
  destruct (Z.le_gt_cases d 53) as [Hs|Hl].
  - rewrite (Z.max_l 0 (d - 53)), (Z.max_r 0 (53 - d)) by lia.
    change (2 ^ 0) with 1. rewrite Z.div_1_r. split; [lia|].
    assert (H1 : 2 ^ 52 = 2 ^ (d - 1) * 2 ^ (53 - d)).
    { rewrite <- Z.pow_add_r by lia. f_equal. lia. }
    assert (H2 : 2 ^ 53 = 2 ^ d * 2 ^ (53 - d)).
    { rewrite <- Z.pow_add_r by lia. f_equal. lia. }
    pose proof (Z.pow_pos_nonneg 2 (53 - d) ltac:(lia) ltac:(lia)). nia.
  - rewrite (Z.max_r 0 (d - 53)), (Z.max_l 0 (53 - d)) by lia.
    change (2 ^ 0) with 1. rewrite Z.mul_1_r.
    pose proof (Z.pow_pos_nonneg 2 (d - 53) ltac:(lia) ltac:(lia)) as Hp.
    split; [done|].
    assert (H1 : 2 ^ (d - 1) = 2 ^ 52 * 2 ^ (d - 53)).
    { rewrite <- Z.pow_add_r by lia. f_equal. lia. }
    assert (H2 : 2 ^ d = 2 ^ 53 * 2 ^ (d - 53)).
    { rewrite <- Z.pow_add_r by lia. f_equal. lia. }
    split.
    + apply Z.div_le_lower_bound; lia.
    + apply Z.div_lt_upper_bound; lia.
Qed.

Lemma Zdigits2_le_64 (z : Z) : 0 < z < 2 ^ 64 -> 0 < Zdigits2 z <= 64.
Proof.
  intros Hz. pose proof (Zdigits2_bounds z ltac:(lia)) as [Hlo Hhi].
  split.
  - rewrite Zdigits2_log2 by lia. pose proof (Z.log2_nonneg z). lia.
  - destruct (Z.le_gt_cases (Zdigits2 z) 64) as [|Hgt]; [done|].
    assert (2 ^ 64 <= 2 ^ (Zdigits2 z - 1)) by (apply Z.pow_le_mono_r; lia).
    lia.
Qed.

(** [(double)z] for a positive 64-bit integer. *)
Lemma double_of_long_round53 (z : Z) :
  0 < z < 2 ^ 64 ->
  double_of_long z = finite_of (long_round z).
Proof.
  intros Hz. pose proof (Zdigits2_le_64 z Hz) as Hd.
  pose proof (Zdigits2_bounds z ltac:(lia)) as [Hlo Hhi].
  destruct (long_scaling z ltac:(lia)) as [HD HQ].
  unfold long_round, long_X, long_D, long_E in *. unfold finite_of.
  destruct z as [|p|p]; try lia.
  unfold double_of_long, binary_normalize, binary_round.
  change (Z.pos (digits2_pos p)) with (Zdigits2 (Z.pos p)).
  set (d := Zdigits2 (Z.pos p)) in *.
  rewrite Z.add_0_r, fexp_normal by lia. unfold shl_align.
  destruct (Z.le_gt_cases 53 d) as [Hl|Hs].
  - (* at least 53 bits: the mantissa is shifted right and rounded *)
    rewrite (Z.max_r 0 (d - 53)), (Z.max_l 0 (53 - d)) in * by lia.
    change (2 ^ 0) with 1 in *. rewrite Z.mul_1_r in *.
    assert (Hal : (match d - 53 - 0 with
                   | Z.neg k => (Pos.iter xO p k, d - 53)
                   | _ => (p, 0)
                   end) = (p, 0)).
    { destruct (d - 53 - 0) eqn:Hk; try done. lia. }
    rewrite Hal.
    pose proof (binary_round_aux_round53 (Z.pos p) 1 0 ltac:(lia)) as Hb.
    rewrite Z.div_1_r in Hb. fold d in Hb.
    assert (Hex : loc_of (Z.pos p) 1 = loc_Exact)
      by (unfold loc_of; by rewrite Z.mod_1_r).
    rewrite Hex, Z.mul_1_r, Z.add_0_l in Hb.
    assert (2 ^ 52 <= 2 ^ (d - 1)) by (apply Z.pow_le_mono_r; lia).
    apply Hb; lia.
  - (* fewer than 53 bits: the mantissa is shifted left, exactly *)
    rewrite (Z.max_l 0 (d - 53)), (Z.max_r 0 (53 - d)) in * by lia.
    change (2 ^ 0) with 1 in *. rewrite Z.div_1_r in HQ.
    destruct (d - 53 - 0) as [|k|k] eqn:Hk; try lia.
    assert (Hk' : Z.pos k = 53 - d) by lia.
    pose proof (binary_round_aux_round53 (Z.pos (Pos.iter xO p k)) 1 (d - 53)
                  ltac:(lia)) as Hb.
    rewrite Z.div_1_r, pos_iter_xO, Hk' in Hb.
    assert (Hex : loc_of (Z.pos p * 2 ^ (53 - d)) 1 = loc_Exact)
      by (unfold loc_of; by rewrite Z.mod_1_r).
    rewrite Hex, (Zdigits2_unique (Z.pos p * 2 ^ (53 - d)) 53) in Hb by lia.
    change (53 - 53) with 0 in Hb. change (2 ^ 0 * 1) with 1 in Hb.
    rewrite Z.add_0_r in Hb.
    rewrite <- Hb by lia. f_equal.
    rewrite <- Hk'. exact (pos_iter_xO k p).
Qed.

Lemma Zdigits2_mono (x y : Z) : 0 < x <= y -> Zdigits2 x <= Zdigits2 y.
Proof.
  intros Hxy. rewrite !Zdigits2_log2 by lia.
  pose proof (Z.log2_le_mono x y ltac:(lia)). lia.
Qed.

Lemma long_round_canon (z : Z) : 0 < z < 2 ^ 64 -> canon (long_round z).
Proof.
  intros Hz. destruct (long_scaling z ltac:(lia)) as [HD HQ].
  pose proof (Zdigits2_le_64 z Hz) as Hd.
  destruct (round53_range (long_X z) (long_D z) (long_E z) HD HQ) as [Hm He].
  unfold canon, long_round. set (r := round53 _ _ _) in *.
  unfold long_E in He. clear HQ. lia.
Qed.

(** The conversion of integers to doubles keeps their order. *)
Lemma long_round_mono (p q : Z) :
  0 < p <= q -> lex_le (long_round p) (long_round q).
Proof.
  intros Hpq.
  destruct (long_scaling p ltac:(lia)) as [HDp HQp].
  destruct (long_scaling q ltac:(lia)) as [HDq HQq].
  pose proof (Zdigits2_mono p q Hpq) as Hd.
  apply round53_mono; try done.
  unfold long_E. destruct (Z.eq_dec (Zdigits2 p) (Zdigits2 q)) as [He|Hne].
  - right. split; [lia|]. unfold long_X, long_D in *. rewrite He in *.
    pose proof (Z.pow_pos_nonneg 2 (Z.max 0 (53 - Zdigits2 q))
                  ltac:(lia) ltac:(lia)).
    nia.
  - left. lia.
Qed.

Lemma SFdiv_core_canon (m1 e1 m2 e2 : Z) :
  2 ^ 52 <= m1 < 2 ^ 53 -> 2 ^ 52 <= m2 < 2 ^ 53 ->
  -1074 <= e1 - e2 - 53 ->
  SFdiv_core_binary dbl_prec dbl_emax m1 e1 m2 e2
  = (m1 * 2 ^ 53 / m2, e1 - e2 - 53, loc_of (m1 * 2 ^ 53) m2).
Proof.
  intros H1 H2 He. unfold SFdiv_core_binary.
  rewrite (Zdigits2_unique m1 53), (Zdigits2_unique m2 53) by lia.
  rewrite fexp_normal by lia.
  replace (Z.min (53 + e1 - (53 + e2) - 53) (e1 - e2)) with (e1 - e2 - 53)
    by lia.
  replace (e1 - e2 - (e1 - e2 - 53)) with 53 by lia.
  cbv zeta iota beta.
  rewrite Z.shiftl_mul_pow2 by lia.
  rewrite <- new_location_loc_of by lia.
  unfold Z.div, Z.modulo.
  by destruct (Z.div_eucl (m1 * 2 ^ 53) m2).
Qed.

Lemma div_shift_range (m1 m2 : Z) :
  2 ^ 52 <= m1 < 2 ^ 53 -> 2 ^ 52 <= m2 < 2 ^ 53 ->
  2 ^ 52 <= m1 * 2 ^ 53 / m2
  /\ 0 <= div_shift m1 m2 <= 1
  /\ 2 ^ 52 <= m1 * 2 ^ 53 / (2 ^ div_shift m1 m2 * m2) < 2 ^ 53.
Proof.
  intros H1 H2.
  assert (Hlo : 2 ^ 52 <= m1 * 2 ^ 53 / m2)
    by (apply Z.div_le_lower_bound; lia).
  assert (Hhi : m1 * 2 ^ 53 / m2 < 2 ^ 54)
    by (apply Z.div_lt_upper_bound; lia).
  destruct (div_shift_bounds (m1 * 2 ^ 53) m2 ltac:(lia) Hlo) as [Hn HQ].
  fold (div_shift m1 m2) in Hn, HQ.
  split; [done|]. split; [|done]. split; [done|].
  pose proof (Zdigits2_bounds (m1 * 2 ^ 53 / m2) ltac:(lia)) as [Hd _].
  unfold div_shift in *.
  destruct (Z.le_gt_cases (Zdigits2 (m1 * 2 ^ 53 / m2)) 54) as [|Hgt]; [lia|].
  assert (2 ^ 54 <= 2 ^ (Zdigits2 (m1 * 2 ^ 53 / m2) - 1))
    by (apply Z.pow_le_mono_r; lia).
  lia.
Qed.

(** The quotient of two positive doubles of the range of the scan. *)
Lemma dbl_div_round (n d : Z * Z) :
  canon n -> canon d ->
  dbl_div (finite_of n) (finite_of d) = finite_of (div_round n d).
Proof.
  destruct n as [m1 e1], d as [m2 e2]. unfold canon. simpl.
  intros [H1 He1] [H2 He2].
  destruct (div_shift_range m1 m2 H1 H2) as (HQ & Hn & _).
  unfold dbl_div, finite_of, SFdiv. simpl fst; simpl snd.
  rewrite !Z2Pos.id by lia.
  rewrite SFdiv_core_canon by lia. simpl xorb.
  unfold div_shift in Hn.
  rewrite binary_round_aux_round53 by lia.
  reflexivity.
Qed.

(** Dividing by one double keeps the order of the dividends. *)
Lemma div_round_mono (a b d : Z * Z) :
  canon a -> canon b -> canon d ->
  lex_le a b -> lex_le (div_round a d) (div_round b d).
Proof.
  destruct a as [ma ea], b as [mb eb], d as [md ed]. unfold canon, lex_le.
  simpl. intros [Ha _] [Hb _] [Hd _] Hle.
  destruct (div_shift_range ma md Ha Hd) as (HQa & Hna & HSa).
  destruct (div_shift_range mb md Hb Hd) as (HQb & Hnb & HSb).
  unfold div_round. simpl fst; simpl snd.
  assert (Hpa : 0 < 2 ^ div_shift ma md * md).
  { pose proof (Z.pow_pos_nonneg 2 (div_shift ma md) ltac:(lia) ltac:(lia)).
    nia. }
  assert (Hpb : 0 < 2 ^ div_shift mb md * md).
  { pose proof (Z.pow_pos_nonneg 2 (div_shift mb md) ltac:(lia) ltac:(lia)).
    nia. }
  apply round53_mono; try done.
  assert (Hmono : ma <= mb -> div_shift ma md <= div_shift mb md).
  { intros Hm. unfold div_shift.
    pose proof (Zdigits2_mono (ma * 2 ^ 53 / md) (mb * 2 ^ 53 / md)) as Hdm.
    assert (ma * 2 ^ 53 / md <= mb * 2 ^ 53 / md)
      by (apply Z.div_le_mono; lia).
    lia. }
  assert (Hcase : (div_shift ma md = 0 \/ div_shift ma md = 1)
                  /\ (div_shift mb md = 0 \/ div_shift mb md = 1)) by lia.
  clear HSa HSb HQa HQb.
  destruct Hcase as [[Hca|Hca] [Hcb|Hcb]]; rewrite Hca, Hcb in *;
    change (2 ^ 0) with 1; change (2 ^ 1) with 2;
    destruct Hle as [Hlt|[-> Hm]]; try specialize (Hmono Hm);
    try (left; lia); try (right; split; [lia|nia]).
  destruct (Z.eq_dec (ea + 1) eb) as [<-|Hne]; [|left; lia].
  right. split; [lia|nia].
Qed.

Lemma ratio_positive (p n : Z) :
  0 < p < 2 ^ 64 -> 0 < n < 2 ^ 64 ->
  ratio p n = finite_of (div_round (long_round p) (long_round n)).
Proof.
  intros Hp Hn. unfold ratio.
  rewrite !double_of_long_round53 by done.
  apply dbl_div_round; by apply long_round_canon.
Qed.

Lemma ratio_zero (n : Z) : 0 < n < 2 ^ 64 -> ratio 0 n = dbl_0.
Proof.
  intros Hn. unfold ratio. rewrite (double_of_long_round53 n) by done.
  reflexivity.
Qed.

Lemma div_round_mantissa (a d : Z * Z) :
  canon a -> canon d -> 2 ^ 52 <= fst (div_round a d) < 2 ^ 53.
Proof.
  destruct a as [ma ea], d as [md ed]. unfold canon. simpl.
  intros [Ha _] [Hd _].
  destruct (div_shift_range ma md Ha Hd) as (HQa & Hna & HSa).
  unfold div_round. simpl fst; simpl snd.
  apply round53_range; [|done].
  pose proof (Z.pow_pos_nonneg 2 (div_shift ma md) ltac:(lia) ltac:(lia)).
  nia.
Qed.

(** The ratio of the scan grows with the count of equal samples. *)
Lemma ratio_mono (p q n : Z) :
  0 <= p <= q -> q < 2 ^ 64 -> 0 < n < 2 ^ 64 ->
  dbl_le (ratio p n) (ratio q n) = true.
Proof.
  intros Hpq Hq Hn.
  destruct (Z.eq_dec p 0) as [->|Hp0].
  - rewrite ratio_zero by done.
    destruct (Z.eq_dec q 0) as [->|Hq0].
    + by rewrite ratio_zero.
    + by rewrite ratio_positive by lia.
  - rewrite !ratio_positive by lia.
    pose proof (long_round_canon p ltac:(lia)) as Hcp.
    pose proof (long_round_canon q ltac:(lia)) as Hcq.
    pose proof (long_round_canon n ltac:(lia)) as Hcn.
    pose proof (div_round_mantissa _ _ Hcp Hcn).
    pose proof (div_round_mantissa _ _ Hcq Hcn).
    apply SFleb_finite_of; [lia|lia|].
    apply div_round_mono; try done. apply long_round_mono. lia.
Qed.

Lemma ratio_same (n : Z) : 0 < n < 2 ^ 64 -> ratio n n = dbl_1.
Proof.
  intros Hn. rewrite ratio_positive by done.
  pose proof (long_round_canon n Hn) as Hc.
  destruct (long_round n) as [m e]. destruct Hc as [Hm He]. simpl in Hm, He.
  unfold div_round. simpl fst; simpl snd.
  assert (Hq : m * 2 ^ 53 / m = 2 ^ 53)
    by (symmetry; apply Z.div_unique with 0; lia).
  assert (Hs : div_shift m m = 1) by (unfold div_shift; by rewrite Hq).
  rewrite Hs. change (2 ^ 1) with 2.
  assert (Hd : m * 2 ^ 53 / (2 * m) = 2 ^ 52)
    by (symmetry; apply Z.div_unique with 0; lia).
  assert (Hmod : (m * 2 ^ 53) mod (2 * m) = 0)
    by (symmetry; apply Z.mod_unique with (2 ^ 52); lia).
  unfold round53, rne. rewrite Hd, Hmod.
  replace (2 * 0 ?= 2 * m) with Lt by (symmetry; apply Z.compare_lt_iff; lia).
  replace (e - e - 53 + 1) with (-52) by lia. reflexivity.
Qed.

Lemma ratio_nonneg_finite (p n : Z) :
  0 <= p < 2 ^ 64 -> 0 < n < 2 ^ 64 -> nonneg_finite (ratio p n).
Proof.
  intros Hp Hn. destruct (Z.eq_dec p 0) as [->|Hp0].
  - by rewrite ratio_zero.
  - by rewrite ratio_positive by lia.
Qed.

(** Comparisons of doubles, one side at least [+0.0] or positive finite. *)

Ltac compare_cases :=
  repeat match goal with
  | H : context [Pos.compare_cont Eq ?a ?b] |- _ =>
      change (Pos.compare_cont Eq a b) with (a ?= b)%positive in H
  | |- context [Pos.compare_cont Eq ?a ?b] =>
      change (Pos.compare_cont Eq a b) with (a ?= b)%positive
  end;
  repeat match goal with
  | H : context [Z.compare ?a ?b] |- _ => destruct (Z.compare_spec a b)
  | |- context [Z.compare ?a ?b] => destruct (Z.compare_spec a b)
  | H : context [Pos.compare ?a ?b] |- _ => destruct (Pos.compare_spec a b)
  | |- context [Pos.compare ?a ?b] => destruct (Pos.compare_spec a b)
  end;
  simpl in *; try done; try lia.

Lemma dbl_lt_not_ge (x t : double) :
  nonneg_finite x -> dbl_lt x t = true -> dbl_ge x t = false.
Proof.
  unfold dbl_lt, dbl_ge, SFltb, SFleb, SFcompare.
  destruct x as [[]| | |[] mx ex]; try done;
    destruct t as [[]|[]| |[] mt et]; try done; intros _; compare_cases.
Qed.

Lemma dbl_le_not_lt (x y : double) :
  nonneg_finite x -> nonneg_finite y ->
  dbl_le x y = true -> dbl_lt y x = false.
Proof.
  unfold dbl_lt, dbl_le, SFltb, SFleb, SFcompare.
  destruct x as [[]| | |[] mx ex]; try done;
    destruct y as [[]| | |[] my ey]; try done; intros _ _; compare_cases.
Qed.

Lemma dbl_le_lt_trans (x y t : double) :
  nonneg_finite x -> nonneg_finite y ->
  dbl_le x y = true -> dbl_lt y t = true -> dbl_lt x t = true.
Proof.
  unfold dbl_lt, dbl_le, SFltb, SFleb, SFcompare.
  destruct x as [[]| | |[] mx ex]; try done;
    destruct y as [[]| | |[] my ey]; try done;
    destruct t as [[]|[]| |[] mt et]; try done; intros _ _; compare_cases.
Qed.

(** The ratio of a count to the total lies in [0, 1]: clamping keeps it. *)
Lemma clamp01_ratio (p n : Z) :
  0 <= p <= n -> 0 < n < 2 ^ 64 -> clamp01 (ratio p n) = ratio p n.
Proof.
  intros Hp Hn. unfold clamp01.
  pose proof (ratio_nonneg_finite p n ltac:(lia) Hn) as Hnf.
  assert (H0 : dbl_lt (ratio p n) dbl_0 = false).
  { apply dbl_le_not_lt; [done|done|].
    rewrite <- (ratio_zero n) by done. apply ratio_mono; lia. }
  assert (H1 : dbl_lt dbl_1 (ratio p n) = false).
  { apply dbl_le_not_lt; [done|done|].
    rewrite <- (ratio_same n) by done. apply ratio_mono; lia. }
  by rewrite H0, H1.
Qed.

(** * The early-out of the manual scan *)

Lemma for_steps_length (fuel : nat) :
  forall (v hi s : Z),
  0 < s -> hi - v <= Z.of_nat fuel ->
  Z.of_nat (length (for_steps fuel v hi s))
  = if v <? hi then (hi - v + (s - 1)) / s else 0.
Proof.
  induction fuel as [|fuel IH]; intros v hi s Hs Hf; simpl.
  - destruct (Z.ltb_spec v hi); [lia|done].
  - destruct (Z.ltb_spec v hi) as [Hlt|Hge]; [|done].
    simpl length. rewrite Nat2Z.inj_succ, IH by lia.
    destruct (Z.ltb_spec (v + s) hi) as [Hlt'|Hge'].
    + replace (hi - v + (s - 1)) with (hi - (v + s) + (s - 1) + 1 * s) by lia.
      rewrite Z.div_add by lia. lia.
    + apply Z.div_unique with (hi - v - 1); lia.
Qed.

Lemma for_range_length (lo hi s : Z) :
  0 < s -> lo < hi ->
  Z.of_nat (length (for_range lo hi s)) = Z.quot (hi - lo + (s - 1)) s.
Proof.
  intros Hs Hlt. unfold for_range.
  rewrite for_steps_length by lia.
  destruct (Z.ltb_spec lo hi); [|lia].
  rewrite Z.quot_div_nonneg by lia. done.
Qed.

Lemma grows_refl (st : scan) : grows st st.
Proof. unfold grows. lia. Qed.

Lemma grows_trans (st1 st2 st3 : scan) :
  grows st1 st2 -> grows st2 st3 -> grows st1 st3.
Proof. unfold grows. lia. Qed.

Section EarlyOut.
Context `{LICE}.
Variables (a b : LICE_IBitmap) (cfg : DuplicateFrameRemovalSettings).
Variable total : Z.

Lemma sampled_grows (yy xx : Z) (st : scan) :
  grows st (sampled a b cfg yy xx st)
  /\ processed (sampled a b cfg yy xx st) = processed st + 1.
Proof.
  unfold grows, sampled. simpl.
  destruct (pixels_equal _ _ _); lia.
Qed.

Lemma scan_pixel_full (yy xx : Z) (st : scan) :
  scan_pixel a b (with_early_out cfg false) total yy xx st
  = scan_next (sampled a b cfg yy xx st).
Proof. reflexivity. Qed.

Lemma scan_pixel_early (yy xx : Z) (st : scan) :
  scan_pixel a b (with_early_out cfg true) total yy xx st
  = if dbl_lt (ratio (equal_count (sampled a b cfg yy xx st)
                      + (total - processed (sampled a b cfg yy xx st))) total)
         (similarity_threshold cfg)
    then scan_finish (sampled a b cfg yy xx st) else scan_next (sampled a b cfg yy xx st).
Proof. reflexivity. Qed.

(** Without early-out a row is scanned to its end. *)
Lemma scan_row_full (yy : Z) (xs : list Z) :
  forall st, exists st',
    scan_row a b (with_early_out cfg false) total yy xs st = scan_next st'
    /\ grows st st'
    /\ processed st' = processed st + Z.of_nat (length xs).
Proof.
  induction xs as [|xx xs IH]; intros st.
  - exists st. simpl. split; [done|]. split; [apply grows_refl|lia].
  - cbn [scan_row]. rewrite scan_pixel_full.
    destruct (IH (sampled a b cfg yy xx st)) as (st' & Hrow & Hg & Hp).
    destruct (sampled_grows yy xx st) as [Hg1 Hp1].
    exists st'. split; [done|]. split; [by eapply grows_trans|].
    simpl length. lia.
Qed.

Lemma scan_rows_full (xs ys : list Z) :
  forall st,
  grows st (scan_rows a b (with_early_out cfg false) total xs ys st)
  /\ processed (scan_rows a b (with_early_out cfg false) total xs ys st)
     = processed st + Z.of_nat (length xs) * Z.of_nat (length ys).
Proof.
  induction ys as [|yy ys IH]; intros st.
  - simpl. split; [apply grows_refl|lia].
  - cbn [scan_rows].
    destruct (scan_row_full yy xs st) as (st' & -> & Hg & Hp).
    destruct (IH st') as [Hg' Hp'].
    split; [by eapply grows_trans|]. simpl length. lia.
Qed.

(** With early-out a row either ends in the state of the full scan, or
    stops in a state the full scan passes through, where the test
    succeeded. *)
Lemma scan_row_early (yy : Z) (xs : list Z) :
  forall st stF,
  scan_row a b (with_early_out cfg false) total yy xs st = scan_next stF ->
  scan_row a b (with_early_out cfg true) total yy xs st = scan_next stF
  \/ exists s,
       scan_row a b (with_early_out cfg true) total yy xs st = scan_finish s
       /\ exits cfg total s /\ grows st s /\ grows s stF
       /\ processed st < processed s.
Proof.
  induction xs as [|xx xs IH]; intros st stF.
  - simpl. intros [= ->]. by left.
  - cbn [scan_row]. rewrite scan_pixel_full, scan_pixel_early. intros HF.
    destruct (sampled_grows yy xx st) as [Hg1 Hp1].
    destruct (dbl_lt _ _) eqn:Hexit.
    + right. exists (sampled a b cfg yy xx st). split; [done|]. split; [done|].
      split; [done|]. split; [|lia].
      destruct (scan_row_full yy xs (sampled a b cfg yy xx st)) as (st' & Hrow & Hg & _).
      rewrite Hrow in HF. by injection HF as <-.
    + destruct (IH _ _ HF) as [Hsame|(s & Hs & Hex & Hg & Hg' & Hp)]; [by left|].
      right. exists s. split; [done|]. split; [done|].
      split; [by eapply grows_trans|]. split; [done|lia].
Qed.

Lemma scan_rows_early (xs ys : list Z) :
  forall st,
  scan_rows a b (with_early_out cfg true) total xs ys st
  = scan_rows a b (with_early_out cfg false) total xs ys st
  \/ (exits cfg total (scan_rows a b (with_early_out cfg true) total xs ys st)
      /\ grows st (scan_rows a b (with_early_out cfg true) total xs ys st)
      /\ grows (scan_rows a b (with_early_out cfg true) total xs ys st)
           (scan_rows a b (with_early_out cfg false) total xs ys st)
      /\ processed st
         < processed (scan_rows a b (with_early_out cfg true) total xs ys st)).
Proof.
  induction ys as [|yy ys IH]; intros st.
  - by left.
  - cbn [scan_rows].
    destruct (scan_row_full yy xs st) as (stF & HF & HgF & HpF).
    rewrite HF.
    destruct (scan_row_early yy xs st stF HF)
      as [->|(s & -> & Hex & Hg & Hg' & Hp)].
    + destruct (IH stF) as [->|(Hex & Hg & Hg' & Hp)]; [by left|].
      right. split; [done|]. split; [by eapply grows_trans|].
      split; [done|]. lia.
    + right. split; [done|]. split; [done|]. split; [|done].
      eapply grows_trans; [done|]. apply scan_rows_full.
Qed.
End EarlyOut.

Section EarlyOutClaim.
Context `{LICE}.


Lemma quot_ceil_bounds (n s : Z) :
  0 < n -> 0 < s -> 0 < Z.quot (n + (s - 1)) s <= n.
Proof.
  intros Hn Hs. rewrite Z.quot_div_nonneg by lia. split.
  - apply Z.div_str_pos. lia.
  - apply Z.div_le_upper_bound; nia.
Qed.


End EarlyOutClaim.

(** * The properties on concrete inputs *)

(** The six frames of the repository's keep-first test, with the default
    settings. *)
Lemma keep_first_sum_example_witness :
  output_frames
    (@RemoveDuplicateFrames lice_simple six_frames empty_frames
       default_settings empty_indices)
  = [FrameInfo.make 0 (Some bitmap_A) 210;
     FrameInfo.make 2 (Some bitmap_B) 390;
     FrameInfo.make 5 (Some bitmap_C) 150]
  /\ removed_count
       (@RemoveDuplicateFrames lice_simple six_frames empty_frames
          default_settings empty_indices) = 3
  /\ removed_list
       (@RemoveDuplicateFrames lice_simple six_frames empty_frames
          default_settings empty_indices) = [1; 3; 4].
Proof.
  apply (@keep_first_sum_example lice_simple default_settings
           (Some bitmap_A) (Some bitmap_B) (Some bitmap_C));
    vm_compute; reflexivity.
Defined.

(** The runs A A, B B B, C of the six frames and their delay sums. *)
Lemma sum_mode_delay_is_run_total_witness :
  concat (@runs lice_simple default_settings six_frames) = six_frames
  /\ Forall2 (carries_run_sum (keep_mode default_settings))
       (@runs lice_simple default_settings six_frames)
       (output_frames
          (@RemoveDuplicateFrames lice_simple six_frames empty_frames
             default_settings empty_indices)).
Proof.
  apply (@sum_mode_delay_is_run_total lice_simple default_settings six_frames).
  - reflexivity.
  - unfold delays_are_int, six_frames, int_range.
    repeat constructor; simpl; lia.
Defined.

(** Two frames without a region on the same bitmap. *)
Lemma is_duplicate_region_and_decision_witness :
  exists region,
    (has_region (FrameInfo.make 1 (Some bitmap_A) 110) ->
       region = frame_region (FrameInfo.make 1 (Some bitmap_A) 110))
    /\ (~ has_region (FrameInfo.make 1 (Some bitmap_A) 110) ->
        has_region (FrameInfo.make 0 (Some bitmap_A) 100) ->
        region = frame_region (FrameInfo.make 0 (Some bitmap_A) 100))
    /\ (~ has_region (FrameInfo.make 1 (Some bitmap_A) 110) ->
        ~ has_region (FrameInfo.make 0 (Some bitmap_A) 100) ->
        region = RECT.mk 0 0 (Z.min (getWidth bitmap_A) (getWidth bitmap_A))
                   (Z.min (getHeight bitmap_A) (getHeight bitmap_A)))
    /\ @IsDuplicateFrame lice_simple (FrameInfo.make 0 (Some bitmap_A) 100)
         (FrameInfo.make 1 (Some bitmap_A) 110) default_settings
       = (dbl_ge
            (@CalculateSimilarity lice_simple (Some bitmap_A) (Some bitmap_A)
               (Some region) default_settings)
            (similarity_threshold default_settings),
          @CalculateSimilarity lice_simple (Some bitmap_A) (Some bitmap_A)
            (Some region) default_settings).
Proof.
  apply (@is_duplicate_region_and_decision lice_simple
           (FrameInfo.make 0 (Some bitmap_A) 100)
           (FrameInfo.make 1 (Some bitmap_A) 110) bitmap_A bitmap_A
           default_settings); reflexivity.
Defined.

(** A second pass over the collapsed six frames. *)
Lemma keep_first_idempotent_witness :
  removed_count
    (@RemoveDuplicateFrames lice_simple
       (output_frames
          (@RemoveDuplicateFrames lice_simple six_frames empty_frames
             default_settings empty_indices))
       empty_frames default_settings empty_indices) = 0
  /\ output_frames
       (@RemoveDuplicateFrames lice_simple
          (output_frames
             (@RemoveDuplicateFrames lice_simple six_frames empty_frames
                default_settings empty_indices))
          empty_frames default_settings empty_indices)
     = output_frames
         (@RemoveDuplicateFrames lice_simple six_frames empty_frames
            default_settings empty_indices)
  /\ removed_list
       (@RemoveDuplicateFrames lice_simple
          (output_frames
             (@RemoveDuplicateFrames lice_simple six_frames empty_frames
                default_settings empty_indices))
          empty_frames default_settings empty_indices) = [].
Proof.
  apply (@keep_first_idempotent lice_simple default_settings six_frames).
  reflexivity.
Defined.

(** C6, as stated, fails with [kDuplicateKeepLast]: of the three drifting
    frames the first pass keeps the first and the third, and a second pass
    over these two removes one more. *)
Lemma keep_last_not_idempotent :
  keep_mode (settings_with 1 1 2 kDuplicateKeepLast true) = kDuplicateKeepLast
  /\ map FrameInfo.index
       (output_frames
          (@RemoveDuplicateFrames lice_simple drifting_frames empty_frames
             (settings_with 1 1 2 kDuplicateKeepLast true) empty_indices))
     = [0; 2]
  /\ removed_count
       (@RemoveDuplicateFrames lice_simple
          (output_frames
             (@RemoveDuplicateFrames lice_simple drifting_frames empty_frames
                (settings_with 1 1 2 kDuplicateKeepLast true) empty_indices))
          empty_frames (settings_with 1 1 2 kDuplicateKeepLast true)
          empty_indices) = 1
  /\ map FrameInfo.index
       (output_frames
          (@RemoveDuplicateFrames lice_simple
             (output_frames
                (@RemoveDuplicateFrames lice_simple drifting_frames
                   empty_frames (settings_with 1 1 2 kDuplicateKeepLast true)
                   empty_indices))
             empty_frames (settings_with 1 1 2 kDuplicateKeepLast true)
             empty_indices))
     = [2].
Proof. vm_compute. repeat split; reflexivity. Qed.

(** Steps 0 and -5 with tolerance 1, which never takes the fast path. *)
Lemma nonpositive_step_is_one_witness :
  @CalculateSimilarity lice_simple (Some (strip [0; 0; 0; 0]))
    (Some (strip [16843009; 0; 0; 16843009])) None
    (settings_with 0 (-5) 1 kDuplicateKeepFirst false)
  = @CalculateSimilarity lice_simple (Some (strip [0; 0; 0; 0]))
      (Some (strip [16843009; 0; 0; 16843009])) None
      (coerce_steps (settings_with 0 (-5) 1 kDuplicateKeepFirst false)).
Proof.
  apply (@nonpositive_step_is_one lice_simple).
  vm_compute. discriminate.
Defined.

(** C8, as stated, fails where the replaced steps open the fast path: with
    zero tolerance, the whole frame and [sample_step_x = 0] the manual scan
    counts 2 equal pixels of 4 (0.5), while with the step replaced by 1 the
    fast path estimates from the bounding box of the differences (0.0). *)
Lemma nonpositive_step_fast_path_differs :
  sample_step_x (settings_with 0 1 0 kDuplicateKeepFirst false) = 0
  /\ @CalculateSimilarity lice_simple (Some (strip [0; 0; 0; 0]))
       (Some (strip [16843009; 0; 0; 16843009])) None
       (settings_with 0 1 0 kDuplicateKeepFirst false)
     = S754_finite false 4503599627370496 (-53)
  /\ @CalculateSimilarity lice_simple (Some (strip [0; 0; 0; 0]))
       (Some (strip [16843009; 0; 0; 16843009])) None
       (coerce_steps (settings_with 0 1 0 kDuplicateKeepFirst false))
     = S754_zero false.
Proof. vm_compute. repeat split; reflexivity. Qed.

(** * The repository's tests on the model *)

(** [Test_RemoveDuplicates_KeepLast_AverageDelay]: the last frame of each
    run is kept with the average delay, and the indices 0 and 2 are
    removed. *)
Example keep_last_average_test :
  (fun r => (removed_count r, map FrameInfo.index (output_frames r),
             map FrameInfo.delay_ms (output_frames r), removed_list r))
    (@RemoveDuplicateFrames lice_simple
       [FrameInfo.make 0 (Some bitmap_A) 10; FrameInfo.make 1 (Some bitmap_A) 20;
        FrameInfo.make 2 (Some bitmap_B) 30; FrameInfo.make 3 (Some bitmap_B) 40]
       empty_frames
       {| similarity_threshold := similarity_threshold default_settings;
          sample_step_x := 1;
          sample_step_y := 1;
          per_channel_tolerance := 0;
          channel_mask := channel_mask default_settings;
          keep_mode := kDuplicateKeepLast;
          delay_adjust_mode := kAverage;
          enable_early_out := true |}
       empty_indices)
  = (2, [1; 3], [15; 35], [0; 2]).
Proof. vm_compute. reflexivity. Qed.

(** [test_similarity_basic]: alpha is ignored by the default mask, one
    differing pixel of 16 x 16 scores [1 - 1/256], and a region that leaves
    the pixel out scores 1.0. *)
Example similarity_basic_test :
  @CalculateSimilarity lice_simple
    (Some (make_solid 16 16 (@LICE_RGBA lice_simple 10 20 30 40)))
    (Some (make_solid 16 16 (@LICE_RGBA lice_simple 10 20 30 0)))
    None default_settings = dbl_1
  /\ @CalculateSimilarity lice_simple
       (Some (make_solid 16 16 (@LICE_RGBA lice_simple 10 20 30 40)))
       (Some (set_pixel (make_solid 16 16 (@LICE_RGBA lice_simple 10 20 30 0))
                3 4 (@LICE_RGBA lice_simple 10 20 31 0)))
       None default_settings = dbl_sub dbl_1 (ratio 1 256)
  /\ @CalculateSimilarity lice_simple
       (Some (make_solid 16 16 (@LICE_RGBA lice_simple 10 20 30 40)))
       (Some (set_pixel (make_solid 16 16 (@LICE_RGBA lice_simple 10 20 30 0))
                3 4 (@LICE_RGBA lice_simple 10 20 31 0)))
       (Some (RECT.mk 0 0 3 4)) default_settings = dbl_1.
Proof. vm_compute. repeat split; reflexivity. Qed.

(** [test_boundary_conditions]: null bitmaps and different sizes score 0.0,
    an empty region scores 1.0, and a frame without bitmap is no
    duplicate. *)
Example boundary_conditions_test :
  @CalculateSimilarity lice_simple None None None default_settings = dbl_0
  /\ @CalculateSimilarity lice_simple (Some (make_solid 4 4 0))
       (Some (make_solid 5 4 0)) None default_settings = dbl_0
  /\ @CalculateSimilarity lice_simple (Some (make_solid 4 4 0))
       (Some (make_solid 4 4 0)) (Some (RECT.mk 2 2 2 5)) default_settings
     = dbl_1
  /\ @IsDuplicateFrame lice_simple (FrameInfo.make 0 None 10)
       (FrameInfo.make 1 (Some (make_solid 4 4 0)) 10) default_settings
     = (false, dbl_0).
Proof. vm_compute. repeat split; reflexivity. Qed.

(** * Further properties of the duplicate collapser *)

Lemma keep_positions_app (r : list Z) (l1 l2 : list FrameInfo.t) :
  forall i,
  keep_positions i r (l1 ++ l2)
  = keep_positions i r l1 ++ keep_positions (i + Z.of_nat (length l1)) r l2.
Proof.
  induction l1 as [|f l1 IH]; intros i; simpl.
  - by rewrite Z.add_0_r.
  - rewrite IH.
    replace (i + 1 + Z.of_nat (length l1))
      with (i + Z.pos (Pos.of_succ_nat (length l1))) by lia.
    by destruct (existsb (Z.eqb i) r).
Qed.

Lemma existsb_snoc (i j : Z) (r : list Z) :
  existsb (Z.eqb i) (r ++ [j]) = existsb (Z.eqb i) r || (i =? j).
Proof. rewrite existsb_app. simpl. by rewrite orb_false_r. Qed.

(** An index that is no position of [l] does not change what is kept. *)
Lemma keep_positions_snoc_out (r : list Z) (j : Z) (l : list FrameInfo.t) :
  forall i,
  j < i \/ i + Z.of_nat (length l) <= j ->
  keep_positions i (r ++ [j]) l = keep_positions i r l.
Proof.
  induction l as [|f l IH]; intros i Hj; simpl; [done|].
  rewrite existsb_snoc.
  destruct (Z.eqb_spec i j) as [->|_]; [simpl in Hj; lia|].
  rewrite orb_false_r, IH; [done|]. simpl in Hj. lia.
Qed.

Lemma existsb_below (i : Z) (r : list Z) :
  Forall (fun j => j < i) r -> existsb (Z.eqb i) r = false.
Proof.
  induction 1 as [|j r Hj _ IH]; simpl; [done|].
  destruct (Z.eqb_spec i j); [lia|done].
Qed.

Lemma ascending_from_snoc (l : list Z) (j : Z) :
  forall lo,
  ascending_from lo l -> Forall (fun k => k < j) l -> lo <= j ->
  ascending_from lo (l ++ [j]).
Proof.
  induction l as [|k l IH]; intros lo Hasc Hlt Hlo; simpl; [done|].
  destruct Hasc as [Hk Hasc]. apply Forall_cons in Hlt as [Hkj Hlt].
  split; [done|]. apply IH; [done|done|lia].
Qed.

Lemma Forall_lt_weaken (r : list Z) (i j : Z) :
  i <= j -> Forall (fun k => k < i) r -> Forall (fun k => k < j) r.
Proof.
  intros Hij Hr. eapply Forall_impl; [exact Hr|]. intros k Hk. simpl in Hk. lia.
Qed.

Section CollapserPositions.
Context `{LICE}.
Variable cfg : DuplicateFrameRemovalSettings.

(** What the loop does to the list of recorded positions. *)
Lemma collapse_step_indices (i : Z) (cur : FrameInfo.t) (st : collapse)
    (ia : IndexArray.t) :
  removed_indices st = Some ia ->
  exists ia',
    removed_indices (collapse_step cfg i cur st) = Some ia'
    /\ IndexArray.indices ia'
       = if is_dup cfg (pending st) cur
         then IndexArray.indices ia ++ [i - recorded_offset (keep_mode cfg)]
         else IndexArray.indices ia.
Proof.
  intros Hia. unfold collapse_step. fold (is_dup cfg (pending st) cur).
  destruct (is_dup cfg (pending st) cur).
  - destruct (keep_mode cfg); simpl; rewrite Hia; simpl; eexists; split;
      try done; simpl; by rewrite ?Z.sub_0_r.
  - simpl. eauto.
Qed.

(** The recorded positions are strictly increasing and lie below the
    position being read. *)
Lemma collapse_loop_indices (rest : list FrameInfo.t) :
  forall (st : collapse) (i : Z) (ia : IndexArray.t),
  1 <= i -> removed_indices st = Some ia ->
  ascending_from (1 - recorded_offset (keep_mode cfg)) (IndexArray.indices ia) ->
  Forall (fun j => j < i - recorded_offset (keep_mode cfg))
    (IndexArray.indices ia) ->
  exists ia',
    removed_indices (collapse_loop cfg i rest st) = Some ia'
    /\ ascending_from (1 - recorded_offset (keep_mode cfg))
         (IndexArray.indices ia')
    /\ Forall (fun j => j < i + Z.of_nat (length rest)
                            - recorded_offset (keep_mode cfg))
         (IndexArray.indices ia').
Proof.
  induction rest as [|cur rest IH]; intros st i ia Hi Hia Hasc Hlt.
  - simpl. exists ia. rewrite Z.add_0_r. done.
  - cbn [collapse_loop].
    destruct (collapse_step_indices i cur st ia Hia) as (ia1 & Hia1 & Hind).
    destruct (IH (collapse_step cfg i cur st) (i + 1) ia1) as (ia' & H1 & H2 & H3);
      [lia|done|..].
    + rewrite Hind. destruct (is_dup cfg (pending st) cur); [|done].
      apply ascending_from_snoc; [done|done|lia].
    + rewrite Hind. destruct (is_dup cfg (pending st) cur).
      * apply Forall_app. split.
        -- eapply Forall_lt_weaken; [|done]. lia.
        -- constructor; [lia|constructor].
      * eapply Forall_lt_weaken; [|done]. lia.
    + exists ia'. split; [done|]. split; [done|].
      eapply Forall_lt_weaken; [|done]. simpl length. lia.
Qed.

Variable e : FrameInfo.t -> FrameInfo.t.
Hypothesis e_adjust : forall st, e (adjust_delay cfg st) = e (pending st).

(** The frames emitted are the frames at the positions that were not
    recorded, up to [e]. *)
Lemma collapse_loop_positions (rest : list FrameInfo.t) :
  forall (prefix K : list FrameInfo.t) (st : collapse) (i : Z)
         (arr : FrameArray.t) (ia : IndexArray.t),
  i = Z.of_nat (length prefix) ->
  output st = Some arr -> removed_indices st = Some ia ->
  keep_positions 0 (IndexArray.indices ia) prefix = K ++ [pending st] ->
  map e K = map e (FrameArray.frames arr) ->
  Forall (fun j => j < i - recorded_offset (keep_mode cfg))
    (IndexArray.indices ia) ->
  exists arr' ia',
    flush_run cfg (collapse_loop cfg i rest st) = Some arr'
    /\ removed_indices (collapse_loop cfg i rest st) = Some ia'
    /\ map e (FrameArray.frames arr')
       = map e (keep_positions 0 (IndexArray.indices ia') (prefix ++ rest)).
Proof.
  induction rest as [|cur rest IH];
    intros prefix K st i arr ia Hi Hout Hia Hkeep HK Hlt.
  - simpl. unfold flush_run. rewrite Hout. eexists _, ia.
    split; [done|]. split; [done|].
    simpl. rewrite app_nil_r, Hkeep, !map_app, HK. simpl.
    by rewrite e_adjust.
  - assert (Hlt' : Forall (fun j => j < i) (IndexArray.indices ia)).
    { eapply Forall_lt_weaken; [|done]. destruct (keep_mode cfg); simpl; lia. }
    assert (Hlen : i + 1 = Z.of_nat (length (prefix ++ [cur]))).
    { rewrite length_app. simpl. lia. }
    replace (prefix ++ cur :: rest) with ((prefix ++ [cur]) ++ rest)
      by (by rewrite <- app_assoc).
    cbn [collapse_loop]. unfold collapse_step.
    fold (is_dup cfg (pending st) cur).
    destruct (is_dup cfg (pending st) cur) eqn:Hdup.
    + destruct (keep_mode cfg) eqn:Hmode; simpl in Hlt.
      * (* the first frame is kept: position [i] is recorded *)
        eapply (IH (prefix ++ [cur]) K _ _ _ (IndexArray_Add ia i)); simpl;
          [done|done|..].
        -- by rewrite Hia.
        -- rewrite keep_positions_app, keep_positions_snoc_out by lia.
           simpl. rewrite existsb_snoc, <- Hi, Z.eqb_refl, orb_true_r.
           by rewrite app_nil_r.
        -- done.
        -- apply Forall_app. split.
           ++ apply (Forall_lt_weaken _ (i - 0)); [lia|done].
           ++ constructor; [lia|constructor].
      * (* the last frame is kept: position [i - 1], of [pending], is
           recorded *)
        destruct prefix as [|lst pre _] using rev_ind.
        { simpl in Hkeep. by destruct K. }
        rewrite length_app in Hi. simpl in Hi.
        rewrite keep_positions_app in Hkeep. simpl in Hkeep.
        rewrite existsb_below in Hkeep
          by (apply (Forall_lt_weaken _ (i - 1)); [lia|done]).
        apply app_inj_tail in Hkeep as [HKpre Hlst].
        eapply (IH ((pre ++ [lst]) ++ [cur]) K _ _ _ (IndexArray_Add ia (i - 1)));
          simpl; [done|done|..].
        -- by rewrite Hia.
        -- rewrite !keep_positions_app, keep_positions_snoc_out by lia.
           simpl. rewrite !existsb_snoc.
           rewrite (existsb_below (0 + Z.of_nat (length pre)))
             by (apply (Forall_lt_weaken _ (i - 1)); [lia|done]).
           rewrite existsb_below.
           2:{ apply (Forall_lt_weaken _ (i - 1)); [|done].
               rewrite length_app. simpl. lia. }
           destruct (Z.eqb_spec (0 + Z.of_nat (length pre)) (i - 1)) as [_|]; [|lia].
           destruct (Z.eqb_spec (0 + Z.of_nat (length (pre ++ [lst]))) (i - 1))
             as [Heq|_].
           { rewrite length_app in Heq. simpl in Heq. lia. }
           simpl. by rewrite HKpre, app_nil_r.
        -- done.
        -- apply Forall_app. split.
           ++ apply (Forall_lt_weaken _ (i - 1)); [lia|done].
           ++ constructor; [lia|constructor].
    + eapply (IH (prefix ++ [cur]) (K ++ [pending st]) _ _
                (FrameArray_Add arr (adjust_delay cfg st)) ia); simpl; [done|..].
      * unfold flush_run. by rewrite Hout.
      * done.
      * rewrite keep_positions_app, Hkeep. simpl.
        rewrite <- Hi, existsb_below by done. done.
      * rewrite !map_app, HK. simpl. by rewrite e_adjust.
      * eapply Forall_lt_weaken; [|exact Hlt]. lia.
Qed.
End CollapserPositions.

Lemma erase_delay_set_delay_ms (f : FrameInfo.t) (d : Z) :
  erase_delay (FrameInfo.set_delay_ms f d) = erase_delay f.
Proof. by destruct f. Qed.

Section CollapserCounts.
Context `{LICE}.
Variable cfg : DuplicateFrameRemovalSettings.

Lemma erase_delay_adjust (st : collapse) :
  erase_delay (adjust_delay cfg st) = erase_delay (pending st).
Proof.
  destruct (adjust_delay_pending cfg st) as [d ->].
  apply erase_delay_set_delay_ms.
Qed.

(** Every frame read is either counted as removed or emitted. *)
Lemma collapse_loop_counts (rest : list FrameInfo.t) :
  forall (st : collapse) (i : Z) (arr : FrameArray.t),
  output st = Some arr ->
  exists arr',
    flush_run cfg (collapse_loop cfg i rest st) = Some arr'
    /\ removed (collapse_loop cfg i rest st)
       + Z.of_nat (length (FrameArray.frames arr'))
       = removed st + Z.of_nat (length (FrameArray.frames arr)) + 1
         + Z.of_nat (length rest).
Proof.
  induction rest as [|cur rest IH]; intros st i arr Hout.
  - simpl. unfold flush_run. rewrite Hout. eexists. split; [done|].
    simpl. rewrite length_app. simpl. lia.
  - cbn [collapse_loop]. unfold collapse_step.
    fold (is_dup cfg (pending st) cur).
    destruct (is_dup cfg (pending st) cur).
    + destruct (keep_mode cfg);
        match goal with |- context [collapse_loop _ _ _ ?s] =>
          destruct (IH s (i + 1) arr Hout) as (arr' & H1 & H2)
        end; exists arr'; (split; [done|]); simpl in H2; simpl length; lia.
    + match goal with |- context [collapse_loop _ _ _ ?s] =>
        destruct (IH s (i + 1) (FrameArray_Add arr (adjust_delay cfg st)))
          as (arr' & H1 & H2)
      end.
      { simpl. unfold flush_run. by rewrite Hout. }
      exists arr'. split; [done|]. simpl in H2. rewrite length_app in H2.
      simpl in H2. simpl length. lia.
Qed.

(** One position is recorded for each frame counted as removed. *)
Lemma collapse_loop_recorded (rest : list FrameInfo.t) :
  forall (st : collapse) (i : Z) (ia : IndexArray.t),
  removed_indices st = Some ia ->
  exists ia',
    removed_indices (collapse_loop cfg i rest st) = Some ia'
    /\ Z.of_nat (length (IndexArray.indices ia'))
       - removed (collapse_loop cfg i rest st)
       = Z.of_nat (length (IndexArray.indices ia)) - removed st.
Proof.
  induction rest as [|cur rest IH]; intros st i ia Hia.
  - simpl. eauto.
  - cbn [collapse_loop].
    destruct (collapse_step_indices cfg i cur st ia Hia) as (ia1 & Hia1 & Hind).
    destruct (IH _ (i + 1) ia1 Hia1) as (ia' & H1 & H2).
    exists ia'. split; [done|]. rewrite H2, Hind.
    unfold collapse_step. fold (is_dup cfg (pending st) cur).
    destruct (is_dup cfg (pending st) cur).
    + rewrite length_app. destruct (keep_mode cfg); simpl; lia.
    + simpl. lia.
Qed.

(** The run state and the count do not depend on the arrays. *)
Lemma collapse_loop_core (rest : list FrameInfo.t) :
  forall (st1 st2 : collapse) (i : Z),
  pending st1 = pending st2 -> group_count st1 = group_count st2 ->
  group_delay_sum st1 = group_delay_sum st2 -> removed st1 = removed st2 ->
  removed (collapse_loop cfg i rest st1) = removed (collapse_loop cfg i rest st2)
  /\ (removed_indices st1 = removed_indices st2 ->
      removed_indices (collapse_loop cfg i rest st1)
      = removed_indices (collapse_loop cfg i rest st2))
  /\ (output st1 = output st2 ->
      flush_run cfg (collapse_loop cfg i rest st1)
      = flush_run cfg (collapse_loop cfg i rest st2)).
Proof.
  induction rest as [|cur rest IH]; intros st1 st2 i Hp Hc Hs Hr.
  - simpl. split; [done|]. split; [done|].
    intros Ho. unfold flush_run, adjust_delay. by rewrite Hp, Hc, Hs, Ho.
  - cbn [collapse_loop].
    assert (Hadj : adjust_delay cfg st1 = adjust_delay cfg st2)
      by (unfold adjust_delay; by rewrite Hp, Hc, Hs).
    destruct (IH (collapse_step cfg i cur st1) (collapse_step cfg i cur st2)
                (i + 1)) as (H1 & H2 & H3);
      try (unfold collapse_step; rewrite Hp, Hc, Hs, Hr;
           destruct (fst (IsDuplicateFrame (pending st2) cur cfg));
           [by destruct (keep_mode cfg)|done]).
    split; [done|]. split.
    + intros Hri. apply H2. unfold collapse_step. rewrite Hp, Hri.
      destruct (fst (IsDuplicateFrame (pending st2) cur cfg));
        [by destruct (keep_mode cfg)|done].
    + intros Ho. apply H3. unfold collapse_step. rewrite Hp.
      destruct (fst (IsDuplicateFrame (pending st2) cur cfg));
        [by destruct (keep_mode cfg)|].
      simpl. unfold flush_run. by rewrite Hadj, Ho.
Qed.

(** X1.  On a non-empty input every frame is either removed or kept: the
    returned count and the number of frames in the output add up to the
    number of input frames, and exactly one position is recorded for each
    removed frame. *)
Theorem removed_plus_kept_is_input (first : FrameInfo.t)
    (rest : list FrameInfo.t) (arr : FrameArray.t) (ia : IndexArray.t) :
  let r := RemoveDuplicateFrames (first :: rest) (Some arr) cfg (Some ia) in
  removed_count r + Z.of_nat (length (output_frames r))
  = Z.of_nat (length (first :: rest))
  /\ Z.of_nat (length (removed_list r)) = removed_count r.
Proof.
  cbv zeta.
  unfold RemoveDuplicateFrames, removed_count, output_frames, removed_list.
  simpl fst; simpl snd.
  match goal with |- context [collapse_loop _ _ _ ?s] => set (st0 := s) end.
  destruct (collapse_loop_counts rest st0 1 _ eq_refl) as (arr' & H1 & H2).
  destruct (collapse_loop_recorded rest st0 1 _ eq_refl) as (ia' & H3 & H4).
  rewrite H1, H3. simpl in H2, H4 |- *. lia.
Qed.

(** X2.  The recorded positions are strictly increasing positions of the
    input.  Keeping the first frame of a run they lie in [1, n - 1]: the
    first input frame is never removed.  Keeping the last frame they lie in
    [0, n - 2]: the last input frame is never removed. *)
Theorem removed_positions_ascending (first : FrameInfo.t)
    (rest : list FrameInfo.t) (out : option FrameArray.t) (ia : IndexArray.t) :
  let r := RemoveDuplicateFrames (first :: rest) out cfg (Some ia) in
  ascending_from (1 - recorded_offset (keep_mode cfg)) (removed_list r)
  /\ Forall (fun j => j < Z.of_nat (length (first :: rest))
                          - recorded_offset (keep_mode cfg))
       (removed_list r).
Proof.
  cbv zeta. unfold RemoveDuplicateFrames, removed_list. simpl snd.
  match goal with |- context [collapse_loop _ _ _ ?s] => set (st0 := s) end.
  destruct (collapse_loop_indices cfg rest st0 1
              (IndexArray_Init (Z.quot (Z.of_nat (length (first :: rest))) 4)))
    as (ia' & H1 & H2 & H3); [lia|done|done|constructor|].
  rewrite H1. simpl. split; [done|].
  eapply Forall_lt_weaken; [|exact H3]. simpl length. lia.
Qed.

(** X3.  The output holds exactly the input frames whose positions were not
    recorded as removed, in the order of the input; only the delay of a
    frame may differ from the input. *)
Theorem output_is_input_without_removed (first : FrameInfo.t)
    (rest : list FrameInfo.t) (arr : FrameArray.t) (ia : IndexArray.t) :
  let r := RemoveDuplicateFrames (first :: rest) (Some arr) cfg (Some ia) in
  map erase_delay (output_frames r)
  = map erase_delay (keep_positions 0 (removed_list r) (first :: rest)).
Proof.
  cbv zeta. unfold RemoveDuplicateFrames, output_frames, removed_list.
  simpl fst; simpl snd.
  match goal with |- context [collapse_loop _ _ _ ?s] => set (st0 := s) end.
  destruct (collapse_loop_positions cfg erase_delay erase_delay_adjust rest
              [first] [] st0 1
              (FrameArray_Init (Z.quot (Z.of_nat (length (first :: rest))) 2))
              (IndexArray_Init (Z.quot (Z.of_nat (length (first :: rest))) 4)))
    as (arr' & ia' & H1 & H2 & H3); try done.
  by rewrite H1, H2.
Qed.

(** X4.  With [kDontAdjust] the output is the input with the removed frames
    deleted: every kept frame is returned as it was passed. *)
Theorem dont_adjust_output_is_sublist (first : FrameInfo.t)
    (rest : list FrameInfo.t) (arr : FrameArray.t) (ia : IndexArray.t) :
  delay_adjust_mode cfg = kDontAdjust ->
  let r := RemoveDuplicateFrames (first :: rest) (Some arr) cfg (Some ia) in
  output_frames r = keep_positions 0 (removed_list r) (first :: rest).
Proof.
  intros Hmode. cbv zeta.
  unfold RemoveDuplicateFrames, output_frames, removed_list.
  simpl fst; simpl snd.
  match goal with |- context [collapse_loop _ _ _ ?s] => set (st0 := s) end.
  destruct (collapse_loop_positions cfg id
              ltac:(intros st; unfold adjust_delay; by rewrite Hmode) rest
              [first] [] st0 1
              (FrameArray_Init (Z.quot (Z.of_nat (length (first :: rest))) 2))
              (IndexArray_Init (Z.quot (Z.of_nat (length (first :: rest))) 4)))
    as (arr' & ia' & H1 & H2 & H3); try done.
  rewrite H1, H2. simpl. by rewrite !map_id in H3.
Qed.

(** X5.  An input in which no frame is a duplicate of the frame before it
    comes back unchanged, in every keep mode and delay mode: nothing is
    removed and no position is recorded. *)
Theorem no_consecutive_duplicates_unchanged (first : FrameInfo.t)
    (rest : list FrameInfo.t) (arr : FrameArray.t) (ia : IndexArray.t) :
  no_consecutive_duplicates cfg (first :: rest) ->
  let r := RemoveDuplicateFrames (first :: rest) (Some arr) cfg (Some ia) in
  removed_count r = 0 /\ output_frames r = first :: rest
  /\ removed_list r = [].
Proof.
  intros Hch. cbv zeta.
  unfold RemoveDuplicateFrames, removed_count, output_frames, removed_list.
  simpl fst; simpl snd.
  match goal with |- context [collapse_loop _ _ _ ?s] => set (st0 := s) end.
  destruct (collapse_loop_distinct cfg rest st0 1
              (FrameArray_Init (Z.quot (Z.of_nat (length (first :: rest))) 2)))
    as (H1 & H2 & arr' & H3 & H4); try done.
  rewrite H1, H2, H3. simpl. by rewrite H4.
Qed.

(** X6.  Passing a null pointer for an array changes nothing else: the
    returned count is the same whichever arrays are passed, the recorded
    positions are the same with and without an output array, and the output
    frames are the same with and without an index array. *)
Theorem results_independent_of_arrays (first : FrameInfo.t)
    (rest : list FrameInfo.t) (out out' : option FrameArray.t)
    (ri ri' : option IndexArray.t) (arr arr' : FrameArray.t)
    (ia ia' : IndexArray.t) :
  removed_count (RemoveDuplicateFrames (first :: rest) out cfg ri)
  = removed_count (RemoveDuplicateFrames (first :: rest) out' cfg ri')
  /\ removed_list (RemoveDuplicateFrames (first :: rest) out cfg (Some ia))
     = removed_list (RemoveDuplicateFrames (first :: rest) out' cfg (Some ia'))
  /\ output_frames (RemoveDuplicateFrames (first :: rest) (Some arr) cfg ri)
     = output_frames (RemoveDuplicateFrames (first :: rest) (Some arr') cfg ri').
Proof.
  unfold RemoveDuplicateFrames, removed_count, output_frames, removed_list.
  simpl fst; simpl snd. split; [|split].
  - match goal with |- removed (collapse_loop _ _ _ ?s1)
                       = removed (collapse_loop _ _ _ ?s2) =>
      destruct (collapse_loop_core rest s1 s2 1) as (H1 & _); done
    end.
  - match goal with |- indices_of (removed_indices (collapse_loop _ _ _ ?s1))
                       = indices_of (removed_indices (collapse_loop _ _ _ ?s2)) =>
      destruct (collapse_loop_core rest s1 s2 1) as (_ & H2 & _); try done;
      by rewrite H2
    end.
  - match goal with |- frames_of (flush_run _ (collapse_loop _ _ _ ?s1))
                       = frames_of (flush_run _ (collapse_loop _ _ _ ?s2)) =>
      destruct (collapse_loop_core rest s1 s2 1) as (_ & _ & H3); try done;
      by rewrite H3
    end.
Qed.
End CollapserCounts.

Lemma delay_total_app (l1 l2 : list FrameInfo.t) :
  delay_total (l1 ++ l2) = delay_total l1 + delay_total l2.
Proof.
  unfold delay_total. induction l1 as [|f l1 IH]; simpl in *; lia.
Qed.

Lemma delay_total_nonneg (l : list FrameInfo.t) :
  delays_nonneg l -> 0 <= delay_total l.
Proof.
  unfold delay_total. induction 1 as [|f l Hf _ IH]; simpl in *; lia.
Qed.

Lemma delays_nonneg_are_int (l : list FrameInfo.t) :
  delays_nonneg l -> delay_total l < 2 ^ 31 -> delays_are_int l.
Proof.
  unfold delays_are_int, int_range.
  induction 1 as [|f l Hf Hl IH]; intros Hlt; constructor.
  - pose proof (delay_total_nonneg l Hl). unfold delay_total in *.
    simpl in *. lia.
  - apply IH. unfold delay_total in *. simpl in *. lia.
Qed.

(** A property of each run and its kept frame that holds for runs of
    non-negative delays, of a total of at most [T] and of at most [N]
    frames, holds for the runs of such an input. *)
Lemma Forall2_pieces (P Q : list FrameInfo.t -> FrameInfo.t -> Prop)
    (T N : Z) (rs : list (list FrameInfo.t)) (fs : list FrameInfo.t) :
  (forall run f,
     P run f -> delays_nonneg run -> delay_total run <= T ->
     Z.of_nat (length run) <= N -> Q run f) ->
  Forall2 P rs fs ->
  delays_nonneg (concat rs) -> delay_total (concat rs) <= T ->
  Z.of_nat (length (concat rs)) <= N ->
  Forall2 Q rs fs.
Proof.
  intros HPQ. induction 1 as [|run f rs fs HP _ IH]; intros Hnn HT HN;
    [constructor|].
  simpl in Hnn, HT, HN. unfold delays_nonneg in Hnn.
  apply Forall_app in Hnn as [Hrun Hrs].
  rewrite delay_total_app in HT. rewrite length_app in HN.
  pose proof (delay_total_nonneg run Hrun).
  pose proof (delay_total_nonneg (concat rs) Hrs).
  constructor.
  - apply HPQ; [done|done|lia|lia].
  - apply IH; [done|lia|lia].
Qed.

Section CollapserDelays.
Context `{LICE}.
Variable cfg : DuplicateFrameRemovalSettings.

(** X7.  In [kSum] mode the collapser preserves the total duration: when the
    delays are non-negative and their total fits an [int], the delays of the
    output frames add up to the delays of the input frames. *)
Theorem sum_mode_total_delay_conserved (first : FrameInfo.t)
    (rest : list FrameInfo.t) (arr : FrameArray.t) (ri : option IndexArray.t) :
  delay_adjust_mode cfg = kSum ->
  delays_nonneg (first :: rest) ->
  delay_total (first :: rest) < 2 ^ 31 ->
  delay_total
    (output_frames (RemoveDuplicateFrames (first :: rest) (Some arr) cfg ri))
  = delay_total (first :: rest).
Proof.
  intros Hmode Hnn Hlt.
  pose proof (output_frames_runs cfg (first :: rest) arr ri
                (delays_nonneg_are_int _ Hnn Hlt)) as Hk.
  set (out := output_frames _) in *. clearbody out.
  pose proof (runs_concat cfg (first :: rest)) as Hcat.
  set (rs := runs cfg (first :: rest)) in *. clearbody rs.
  rewrite <- Hcat in *. clear Hcat.
  assert (Hsum : Forall2 (fun run f => FrameInfo.delay_ms f = delay_total run)
                   rs out).
  { eapply (Forall2_pieces _ _ (2 ^ 31 - 1)
              (Z.of_nat (length (concat rs)))); [|exact Hk|done|lia|lia].
    intros run f (rep & _ & ->) Hrun HT _. unfold run_delay. rewrite Hmode.
    pose proof (delay_total_nonneg run Hrun).
    destruct rep. simpl. apply wrap_int_id. unfold int_range. lia. }
  clear Hk Hnn Hlt. induction Hsum as [|run f rs out Hf _ IH]; [done|].
  simpl. rewrite delay_total_app, <- IH, <- Hf. unfold delay_total. done.
Qed.

(** X8.  In [kAverage] mode every output frame is the kept frame of one run
    of the input, and its delay is the mean of the delays of the frames of
    that run, truncated toward zero, when the delays are non-negative and
    their total and the number of frames fit an [int]. *)
Theorem average_mode_delay_is_run_mean (first : FrameInfo.t)
    (rest : list FrameInfo.t) (arr : FrameArray.t) (ri : option IndexArray.t) :
  delay_adjust_mode cfg = kAverage ->
  delays_nonneg (first :: rest) ->
  delay_total (first :: rest) < 2 ^ 31 ->
  Z.of_nat (length (first :: rest)) < 2 ^ 31 ->
  Forall2 (carries_run_mean (keep_mode cfg)) (runs cfg (first :: rest))
    (output_frames (RemoveDuplicateFrames (first :: rest) (Some arr) cfg ri)).
Proof.
  intros Hmode Hnn Hlt Hlen.
  pose proof (output_frames_runs cfg (first :: rest) arr ri
                (delays_nonneg_are_int _ Hnn Hlt)) as Hk.
  set (out := output_frames _) in *. clearbody out.
  pose proof (runs_concat cfg (first :: rest)) as Hcat.
  set (rs := runs cfg (first :: rest)) in *. clearbody rs.
  rewrite <- Hcat in *. clear Hcat.
  eapply (Forall2_pieces _ _ (2 ^ 31 - 1) (2 ^ 31 - 1));
    [|exact Hk|done|lia|lia].
  intros run f (rep & Hrep & ->) Hrun HT HN. exists rep. split; [done|].
  f_equal. unfold run_delay. rewrite Hmode.
  pose proof (delay_total_nonneg run Hrun).
  assert (Hpos : 0 < Z.of_nat (length run)).
  { destruct run; [|simpl; lia]. by destruct (keep_mode cfg). }
  rewrite !wrap_int_id by (unfold int_range; lia).
  by destruct (Z.ltb_spec 0 (Z.of_nat (length run))); [|lia].
Qed.
End CollapserDelays.

(** * Further properties of the helpers *)

Section PixelRelation.
Context `{LICE}.

Lemma channel_exceeds_sym (mask sel : LICE_pixel) (c1 c2 tol : Z) :
  channel_exceeds mask sel c1 c2 tol = channel_exceeds mask sel c2 c1 tol.
Proof.
  unfold channel_exceeds.
  replace (Z.abs (c2 - c1)) with (Z.abs (c1 - c2)) by lia. done.
Qed.

Lemma pixels_equal_sym (p1 p2 : LICE_pixel)
    (cfg : DuplicateFrameRemovalSettings) :
  pixels_equal p1 p2 cfg = pixels_equal p2 p1 cfg.
Proof.
  unfold pixels_equal. rewrite (Z.lxor_comm p1 p2).
  by rewrite (channel_exceeds_sym _ _ (LICE_GETR p1)),
    (channel_exceeds_sym _ _ (LICE_GETG p1)),
    (channel_exceeds_sym _ _ (LICE_GETB p1)),
    (channel_exceeds_sym _ _ (LICE_GETA p1)).
Qed.

Lemma pixels_equal_refl (p : LICE_pixel) (cfg : DuplicateFrameRemovalSettings) :
  pixels_equal p p cfg = true.
Proof.
  destruct (Z.le_gt_cases (per_channel_tolerance cfg) 0) as [Htol|Htol].
  - apply pixels_equal_strict; done.
  - apply pixels_equal_tolerant; [lia|]. intros c _.
    rewrite Z.sub_diag. simpl. lia.
Qed.

(** X9.  The pixel test is reflexive and symmetric for every setting of the
    tolerance and of the mask. *)
Theorem pixels_equal_reflexive_symmetric (p1 p2 : LICE_pixel)
    (cfg : DuplicateFrameRemovalSettings) :
  pixels_equal p1 p1 cfg = true
  /\ pixels_equal p1 p2 cfg = pixels_equal p2 p1 cfg.
Proof. split; [apply pixels_equal_refl|apply pixels_equal_sym]. Qed.

Lemma LICE_GET_range (c : channel) (p : LICE_pixel) :
  0 <= LICE_GET c p <= 255.
Proof.
  unfold LICE_GET. change 255 with (Z.ones 8).
  rewrite Z.land_ones by lia. change (2 ^ 8) with 256.
  change (Z.ones 8) with 255.
  pose proof (Z.mod_pos_bound (Z.shiftr p (channel_shift c)) 256 ltac:(lia)).
  lia.
Qed.

Lemma mask_selects_zero (c : channel) : ~ mask_selects 0 c.
Proof. intros (i & _ & Hb). by rewrite Z.bits_0 in Hb. Qed.

(** X10.  Two settings make every two pixels equal: an empty channel mask,
    with any tolerance, and a tolerance of 255 or more, with any mask. *)
Theorem pixels_equal_always (p1 p2 : LICE_pixel)
    (cfg : DuplicateFrameRemovalSettings) :
  channel_mask cfg = 0 \/ 255 <= per_channel_tolerance cfg ->
  pixels_equal p1 p2 cfg = true.
Proof.
  intros Hcase.
  destruct (Z.le_gt_cases (per_channel_tolerance cfg) 0) as [Htol|Htol].
  - destruct Hcase as [Hmask|?]; [|lia].
    apply pixels_equal_strict; [done|]. intros i. by rewrite Hmask, Z.bits_0.
  - apply pixels_equal_tolerant; [lia|]. intros c Hc.
    destruct Hcase as [Hmask|H255].
    + rewrite Hmask in Hc. by apply mask_selects_zero in Hc.
    + pose proof (LICE_GET_range c p1). pose proof (LICE_GET_range c p2). lia.
Qed.

Lemma pixels_equal_relaxed_tol (p1 p2 : LICE_pixel)
    (cfg cfg' : DuplicateFrameRemovalSettings) :
  pixels_equal p1 p2 cfg = true ->
  0 < per_channel_tolerance cfg <= per_channel_tolerance cfg' ->
  channel_mask cfg' = channel_mask cfg ->
  pixels_equal p1 p2 cfg' = true.
Proof.
  intros Heq Htol Hmask. apply pixels_equal_tolerant; [lia|]. intros c Hc.
  rewrite Hmask in Hc.
  pose proof (proj1 (pixels_equal_tolerant p1 p2 cfg ltac:(lia)) Heq c Hc).
  lia.
Qed.

(** X11.  Relaxing the settings never makes equal pixels unequal: a larger
    positive tolerance, with the same mask; with an exact comparison, a mask
    with fewer bits; with a tolerant comparison, a mask that selects fewer
    channels. *)
Theorem pixels_equal_relaxed (p1 p2 : LICE_pixel)
    (cfg cfg' : DuplicateFrameRemovalSettings) :
  pixels_equal p1 p2 cfg = true ->
  (0 < per_channel_tolerance cfg <= per_channel_tolerance cfg'
   /\ forall c, mask_selects (channel_mask cfg') c ->
        mask_selects (channel_mask cfg) c)
  \/ (per_channel_tolerance cfg <= 0 /\ per_channel_tolerance cfg' <= 0
      /\ forall i, Z.testbit (channel_mask cfg') i = true ->
           Z.testbit (channel_mask cfg) i = true) ->
  pixels_equal p1 p2 cfg' = true.
Proof.
  intros Heq [(Htol & Hsub)|(Htol & Htol' & Hsub)].
  - apply pixels_equal_tolerant; [lia|]. intros c Hc.
    pose proof (proj1 (pixels_equal_tolerant p1 p2 cfg ltac:(lia)) Heq c
                  (Hsub c Hc)).
    lia.
  - apply pixels_equal_strict; [done|]. intros i Hi.
    apply (proj1 (pixels_equal_strict p1 p2 cfg Htol) Heq). auto.
Qed.
End PixelRelation.

(** ** The dynamic arrays *)

Lemma FrameArray_Add_bounds (c0 : Z) (arr : FrameArray.t) (f : FrameInfo.t) :
  FrameArray.count arr <= FrameArray.capacity arr
    <= Z.max c0 (Z.max 16 (2 * FrameArray.count arr)) ->
  FrameArray.count (FrameArray_Add arr f) = FrameArray.count arr + 1
  /\ FrameArray.count (FrameArray_Add arr f)
       <= FrameArray.capacity (FrameArray_Add arr f)
       <= Z.max c0 (Z.max 16 (2 * FrameArray.count (FrameArray_Add arr f))).
Proof.
  unfold FrameArray_Add, FrameArray.count. simpl. rewrite length_app. simpl.
  intros Hb.
  destruct (Z.leb_spec (FrameArray.capacity arr)
              (Z.of_nat (length (FrameArray.frames arr))));
    [destruct (Z.eqb_spec (FrameArray.capacity arr) 0)|]; lia.
Qed.

Lemma IndexArray_Add_bounds (c0 : Z) (arr : IndexArray.t) (i : Z) :
  IndexArray.count arr <= IndexArray.capacity arr
    <= Z.max c0 (Z.max 16 (2 * IndexArray.count arr)) ->
  IndexArray.count (IndexArray_Add arr i) = IndexArray.count arr + 1
  /\ IndexArray.count (IndexArray_Add arr i)
       <= IndexArray.capacity (IndexArray_Add arr i)
       <= Z.max c0 (Z.max 16 (2 * IndexArray.count (IndexArray_Add arr i))).
Proof.
  unfold IndexArray_Add, IndexArray.count. simpl. rewrite length_app. simpl.
  intros Hb.
  destruct (Z.leb_spec (IndexArray.capacity arr)
              (Z.of_nat (length (IndexArray.indices arr))));
    [destruct (Z.eqb_spec (IndexArray.capacity arr) 0)|]; lia.
Qed.

Lemma fold_FrameArray_Add (c0 : Z) (fs : list FrameInfo.t) :
  forall arr,
  FrameArray.count arr <= FrameArray.capacity arr
    <= Z.max c0 (Z.max 16 (2 * FrameArray.count arr)) ->
  FrameArray.frames (fold_left FrameArray_Add fs arr)
  = FrameArray.frames arr ++ fs
  /\ FrameArray.count (fold_left FrameArray_Add fs arr)
       <= FrameArray.capacity (fold_left FrameArray_Add fs arr)
       <= Z.max c0 (Z.max 16 (2 * FrameArray.count (fold_left FrameArray_Add fs arr))).
Proof.
  induction fs as [|f fs IH]; intros arr Hb; simpl.
  - by rewrite app_nil_r.
  - destruct (FrameArray_Add_bounds c0 arr f Hb) as [_ Hb'].
    destruct (IH _ Hb') as [Hfs Hcap]. split; [|done].
    rewrite Hfs. simpl. by rewrite <- app_assoc.
Qed.

Lemma fold_IndexArray_Add (c0 : Z) (l : list Z) :
  forall arr,
  IndexArray.count arr <= IndexArray.capacity arr
    <= Z.max c0 (Z.max 16 (2 * IndexArray.count arr)) ->
  IndexArray.indices (fold_left IndexArray_Add l arr)
  = IndexArray.indices arr ++ l
  /\ IndexArray.count (fold_left IndexArray_Add l arr)
       <= IndexArray.capacity (fold_left IndexArray_Add l arr)
       <= Z.max c0 (Z.max 16 (2 * IndexArray.count (fold_left IndexArray_Add l arr))).
Proof.
  induction l as [|i l IH]; intros arr Hb; simpl.
  - by rewrite app_nil_r.
  - destruct (IndexArray_Add_bounds c0 arr i Hb) as [_ Hb'].
    destruct (IH _ Hb') as [Hfs Hcap]. split; [|done].
    rewrite Hfs. simpl. by rewrite <- app_assoc.
Qed.

(** X12.  An array initialised with a capacity [c0] and filled by successive
    additions holds the added elements in their order; its count never
    exceeds its capacity, and the capacity never exceeds the largest of
    [c0], 16 and twice the count.  A freed array is an array initialised
    with the capacity 0. *)
Theorem dynamic_array_growth (c0 : Z) (fs : list FrameInfo.t) (l : list Z) :
  0 <= c0 ->
  (FrameArray.frames (frame_array_of c0 fs) = fs
   /\ FrameArray.count (frame_array_of c0 fs)
        <= FrameArray.capacity (frame_array_of c0 fs)
        <= Z.max c0 (Z.max 16 (2 * FrameArray.count (frame_array_of c0 fs)))
   /\ FrameArray_Free (frame_array_of c0 fs) = frame_array_of 0 [])
  /\ (IndexArray.indices (index_array_of c0 l) = l
      /\ IndexArray.count (index_array_of c0 l)
           <= IndexArray.capacity (index_array_of c0 l)
           <= Z.max c0 (Z.max 16 (2 * IndexArray.count (index_array_of c0 l)))
      /\ IndexArray_Free (index_array_of c0 l) = index_array_of 0 []).
Proof.
  intros Hc0. split.
  - destruct (fold_FrameArray_Add c0 fs (FrameArray_Init c0)) as [H1 H2].
    { unfold FrameArray.count. simpl. lia. }
    done.
  - destruct (fold_IndexArray_Add c0 l (IndexArray_Init c0)) as [H1 H2].
    { unfold IndexArray.count. simpl. lia. }
    done.
Qed.

(** ** The comparison region *)

Lemma clampi_range (v lo hi : Z) : lo <= hi -> lo <= clampi v lo hi <= hi.
Proof.
  intros Hle. unfold clampi.
  destruct (Z.ltb_spec v lo), (Z.ltb_spec hi v); lia.
Qed.

Lemma clampi_id (v lo hi : Z) : lo <= v <= hi -> clampi v lo hi = v.
Proof.
  intros Hv. unfold clampi.
  destruct (Z.ltb_spec v lo), (Z.ltb_spec hi v); lia.
Qed.

Lemma compute_roi_common (a b : option LICE_IBitmap) (roi : option RECT.t) :
  compute_roi a b roi
  = let w := Z.min (bitmap_width a) (bitmap_width b) in
    let h := Z.min (bitmap_height a) (bitmap_height b) in
    match roi with
    | None => RECT.mk 0 0 w h
    | Some r =>
        RECT.mk (clampi (RECT.left r) 0 w) (clampi (RECT.top r) 0 h)
          (Z.max (clampi (RECT.left r) 0 w) (clampi (RECT.right r) 0 w))
          (Z.max (clampi (RECT.top r) 0 h) (clampi (RECT.bottom r) 0 h))
    end.
Proof.
  unfold compute_roi, bitmap_width, bitmap_height. cbv zeta.
  set (aw := match a with Some bm => getWidth bm | None => 0 end).
  set (ah := match a with Some bm => getHeight bm | None => 0 end).
  set (bw := match b with Some bm => getWidth bm | None => 0 end).
  set (bh := match b with Some bm => getHeight bm | None => 0 end).
  replace (if aw <? bw then aw else bw) with (Z.min aw bw)
    by (destruct (Z.ltb_spec aw bw); lia).
  replace (if ah <? bh then ah else bh) with (Z.min ah bh)
    by (destruct (Z.ltb_spec ah bh); lia).
  destruct roi as [r|]; [|done]. f_equal.
  - destruct (Z.ltb_spec (clampi (RECT.right r) 0 (Z.min aw bw))
                (clampi (RECT.left r) 0 (Z.min aw bw))); lia.
  - destruct (Z.ltb_spec (clampi (RECT.bottom r) 0 (Z.min ah bh))
                (clampi (RECT.top r) 0 (Z.min ah bh))); lia.
Qed.

Lemma compute_roi_rect_within (a b : option LICE_IBitmap)
    (roi : option RECT.t) :
  0 <= bitmap_width a -> 0 <= bitmap_width b ->
  0 <= bitmap_height a -> 0 <= bitmap_height b ->
  rect_within (Z.min (bitmap_width a) (bitmap_width b))
    (Z.min (bitmap_height a) (bitmap_height b)) (compute_roi a b roi).
Proof.
  intros Haw Hbw Hah Hbh. rewrite compute_roi_common. cbv zeta.
  set (w := Z.min _ _). set (h := Z.min (bitmap_height a) _).
  assert (Hw : 0 <= w) by lia. assert (Hh : 0 <= h) by lia.
  unfold rect_within. destruct roi as [r|]; simpl; [|lia].
  pose proof (clampi_range (RECT.left r) 0 w Hw).
  pose proof (clampi_range (RECT.right r) 0 w Hw).
  pose proof (clampi_range (RECT.top r) 0 h Hh).
  pose proof (clampi_range (RECT.bottom r) 0 h Hh). lia.
Qed.

(** X13.  For bitmaps of non-negative dimensions the region computed from any
    request lies inside the common bounds of the two bitmaps (the smaller
    width and the smaller height, 0 for a null pointer) and its edges are in
    order; with a null pointer the region is empty. *)
Theorem compute_roi_within_bounds (a b : option LICE_IBitmap)
    (roi : option RECT.t) :
  0 <= bitmap_width a -> 0 <= bitmap_width b ->
  0 <= bitmap_height a -> 0 <= bitmap_height b ->
  rect_within (Z.min (bitmap_width a) (bitmap_width b))
    (Z.min (bitmap_height a) (bitmap_height b)) (compute_roi a b roi)
  /\ (a = None \/ b = None -> compute_roi a b roi = RECT.mk 0 0 0 0).
Proof.
  intros Haw Hbw Hah Hbh.
  pose proof (compute_roi_rect_within a b roi Haw Hbw Hah Hbh) as Hin.
  split; [done|]. intros Hnull.
  assert (Hw : Z.min (bitmap_width a) (bitmap_width b) = 0)
    by (destruct Hnull as [-> | ->]; simpl in *; lia).
  assert (Hh : Z.min (bitmap_height a) (bitmap_height b) = 0)
    by (destruct Hnull as [-> | ->]; simpl in *; lia).
  rewrite Hw, Hh in Hin. destruct Hin as (Hl & Hr & Ht & Hb).
  destruct (compute_roi a b roi). simpl in *. f_equal; lia.
Qed.

(** X14.  A request that already lies inside the common bounds with its edges
    in order is returned unchanged; so computing the region of a computed
    region changes nothing. *)
Theorem compute_roi_idempotent (a b : option LICE_IBitmap)
    (roi : option RECT.t) (r : RECT.t) :
  0 <= bitmap_width a -> 0 <= bitmap_width b ->
  0 <= bitmap_height a -> 0 <= bitmap_height b ->
  (rect_within (Z.min (bitmap_width a) (bitmap_width b))
     (Z.min (bitmap_height a) (bitmap_height b)) r ->
   compute_roi a b (Some r) = r)
  /\ compute_roi a b (Some (compute_roi a b roi)) = compute_roi a b roi.
Proof.
  intros Haw Hbw Hah Hbh.
  assert (Hfix : forall r,
            rect_within (Z.min (bitmap_width a) (bitmap_width b))
              (Z.min (bitmap_height a) (bitmap_height b)) r ->
            compute_roi a b (Some r) = r).
  { intros r' (Hl & Hr & Ht & Hb). rewrite compute_roi_common. cbv zeta.
    rewrite !clampi_id by lia. destruct r'. simpl in *. f_equal; lia. }
  split; [apply Hfix|]. apply Hfix. by apply compute_roi_rect_within.
Qed.

(** * Further properties of the similarity engine *)

(** ** No operation of the similarity computation yields a NaN *)

Lemma shr_1_nonneg (mrs : shr_record) :
  0 <= shr_m mrs -> 0 <= shr_m (shr_1 mrs).
Proof.
  destruct mrs as [m r s]. simpl.
  destruct m as [|[p|p|]|[p|p|]]; simpl; lia.
Qed.

Lemma iter_shr_1_nonneg (p : positive) :
  forall mrs, 0 <= shr_m mrs -> 0 <= shr_m (SpecFloat.iter_pos shr_1 p mrs).
Proof.
  induction p as [p IH|p IH|]; intros mrs Hm; simpl;
    auto using shr_1_nonneg.
Qed.

Lemma shr_fexp_nonneg (m e : Z) (l : location) :
  0 <= m -> 0 <= shr_m (fst (shr_fexp dbl_prec dbl_emax m e l)).
Proof.
  intros Hm. unfold shr_fexp, shr.
  assert (H0 : 0 <= shr_m (shr_record_of_loc m l))
    by (by destruct l as [|[]]).
  destruct (fexp dbl_prec dbl_emax (Zdigits2 m + e) - e); simpl; try done.
  by apply iter_shr_1_nonneg.
Qed.

Lemma round_nearest_even_nonneg (m : Z) (l : location) :
  0 <= m -> 0 <= round_nearest_even m l.
Proof.
  intros Hm. unfold round_nearest_even.
  destruct l as [|[]]; try destruct (Z.even m); lia.
Qed.

Lemma binary_round_aux_not_nan (sx : bool) (mx ex : Z) (lx : location) :
  0 <= mx -> binary_round_aux dbl_prec dbl_emax sx mx ex lx <> S754_nan.
Proof.
  intros Hm. unfold binary_round_aux.
  pose proof (shr_fexp_nonneg mx ex lx Hm) as H1.
  destruct (shr_fexp dbl_prec dbl_emax mx ex lx) as [mrs' e']. simpl in H1.
  pose proof (shr_fexp_nonneg _ e' loc_Exact
                (round_nearest_even_nonneg (shr_m mrs')
                   (loc_of_shr_record mrs') H1)) as H2.
  destruct (shr_fexp dbl_prec dbl_emax _ e' loc_Exact) as [mrs'' e''].
  simpl in H2.
  destruct (shr_m mrs''); [done| |lia].
  by destruct (e'' <=? dbl_emax - dbl_prec).
Qed.

Lemma binary_normalize_not_nan (m e : Z) (szero : bool) :
  binary_normalize dbl_prec dbl_emax m e szero <> S754_nan.
Proof.
  unfold binary_normalize, binary_round.
  destruct m as [|p|p]; [done| |];
    destruct (shl_align p e _) as [mz ez];
    by apply binary_round_aux_not_nan.
Qed.

Lemma double_of_long_not_nan (z : Z) : double_of_long z <> S754_nan.
Proof. apply binary_normalize_not_nan. Qed.

(** A quotient by a finite double other than zero. *)
Lemma dbl_div_not_nan (x : double) (sy : bool) (my : positive) (ey : Z) :
  x <> S754_nan -> dbl_div x (S754_finite sy my ey) <> S754_nan.
Proof.
  intros Hx. destruct x as [sx|sx| |sx mx ex]; try done.
  unfold dbl_div, SFdiv.
  destruct (SFdiv_core_binary dbl_prec dbl_emax (Z.pos mx) ex (Z.pos my) ey)
    as [[mz ez] lz] eqn:Hcore.
  apply binary_round_aux_not_nan.
  unfold SFdiv_core_binary in Hcore. cbv zeta in Hcore.
  match type of Hcore with
  | (let '(q, r) := Z.div_eucl ?m' _ in _) = _ =>
      assert (Hm' : 0 <= m'); [|pose proof (Z.div_pos m' (Z.pos my) Hm' ltac:(lia)) as Hq;
                                  unfold Z.div in Hq;
                                  destruct (Z.div_eucl m' (Z.pos my)) as [q r]]
  end.
  - match goal with |- 0 <= match ?s with _ => _ end =>
      destruct s eqn:Hs; [lia| |lia] end.
    apply Z.shiftl_nonneg. lia.
  - by injection Hcore as <- _ _.
Qed.

(** The difference [1.0 - y]. *)
Lemma dbl_sub_one_not_nan (y : double) :
  y <> S754_nan -> dbl_sub dbl_1 y <> S754_nan.
Proof.
  intros Hy. destruct y as [sy|sy| |sy my ey]; try done.
  unfold dbl_sub, dbl_1, SFsub. apply binary_normalize_not_nan.
Qed.

(** The order of the doubles is total away from the NaN. *)
Lemma dbl_not_lt_le (x t : double) :
  x <> S754_nan -> t <> S754_nan -> dbl_lt t x = false -> dbl_le x t = true.
Proof.
  unfold dbl_lt, dbl_le, SFltb, SFleb, SFcompare.
  destruct x as [[]|[]| |[] mx ex]; try done;
    destruct t as [[]|[]| |[] mt et]; try done; intros _ _; compare_cases.
Qed.

(** The clamping brings every double other than a NaN into [0.0, 1.0]. *)
Lemma clamp01_range (x : double) :
  x <> S754_nan ->
  dbl_le dbl_0 (clamp01 x) = true /\ dbl_le (clamp01 x) dbl_1 = true.
Proof.
  intros Hx. unfold clamp01.
  destruct (dbl_lt x dbl_0) eqn:H0.
  - change (dbl_lt dbl_1 dbl_0) with false. cbv iota. by vm_compute.
  - destruct (dbl_lt dbl_1 x) eqn:H1.
    + by vm_compute.
    + split; by apply dbl_not_lt_le.
Qed.

(** ** The score lies in [0.0, 1.0] *)

Lemma dbl_unit_range_0 : dbl_le dbl_0 dbl_0 = true /\ dbl_le dbl_0 dbl_1 = true.
Proof. by vm_compute. Qed.

Lemma dbl_unit_range_1 : dbl_le dbl_0 dbl_1 = true /\ dbl_le dbl_1 dbl_1 = true.
Proof. by vm_compute. Qed.

(** The quotient of the conversions of a count and of a positive total. *)
Lemma ratio_not_nan (p n : Z) : 0 < n < 2 ^ 64 -> ratio p n <> S754_nan.
Proof.
  intros Hn. unfold ratio. rewrite (double_of_long_round53 n Hn).
  apply dbl_div_not_nan, double_of_long_not_nan.
Qed.

Section SimilarityRange.
Context `{LICE}.

(** What the manual scan path tells about its inputs. *)
Lemma path_generic_inv (a b : option LICE_IBitmap) (roi : option RECT.t)
    (cfg : DuplicateFrameRemovalSettings) :
  path_of a b roi cfg = path_generic ->
  exists bma bmb,
    a = Some bma /\ b = Some bmb
    /\ getWidth bma = getWidth bmb /\ getHeight bma = getHeight bmb
    /\ 0 < RECT.right (compute_roi a b roi) - RECT.left (compute_roi a b roi)
    /\ 0 < RECT.bottom (compute_roi a b roi) - RECT.top (compute_roi a b roi)
    /\ fast_path_cond bma (compute_roi a b roi) cfg = false
    /\ CalculateSimilarity a b roi cfg
       = generic_scan bma bmb (compute_roi a b roi) cfg.
Proof.
  intros Hpath.
  pose proof (CalculateSimilarity_path a b roi cfg) as Hsim.
  rewrite Hpath in Hsim. destruct Hsim as (bma & bmb & -> & -> & Hsim).
  exists bma, bmb. unfold path_of in Hpath.
  destruct (Z.eqb_spec (getWidth bma) (getWidth bmb)); [|done].
  destruct (Z.eqb_spec (getHeight bma) (getHeight bmb)); [|done].
  simpl in Hpath.
  destruct (Z.leb_spec (RECT.right (compute_roi (Some bma) (Some bmb) roi)
                        - RECT.left (compute_roi (Some bma) (Some bmb) roi)) 0);
    [done|].
  destruct (Z.leb_spec (RECT.bottom (compute_roi (Some bma) (Some bmb) roi)
                        - RECT.top (compute_roi (Some bma) (Some bmb) roi)) 0);
    [done|].
  simpl in Hpath.
  destruct (fast_path_cond bma _ cfg); [done|]. done.
Qed.

(** The region of two bitmaps of equal, non-negative dimensions. *)
Lemma compute_roi_same_dims (bma bmb : LICE_IBitmap) (roi : option RECT.t) :
  getWidth bma = getWidth bmb -> getHeight bma = getHeight bmb ->
  0 <= getWidth bma -> 0 <= getHeight bma ->
  rect_within (getWidth bma) (getHeight bma)
    (compute_roi (Some bma) (Some bmb) roi).
Proof.
  intros Hw Hh Hw0 Hh0.
  pose proof (compute_roi_rect_within (Some bma) (Some bmb) roi) as Hin.
  simpl in Hin. rewrite <- Hw, <- Hh, !Z.min_id in Hin. apply Hin; lia.
Qed.

Lemma generic_scan_range (a b : LICE_IBitmap) (r : RECT.t)
    (cfg : DuplicateFrameRemovalSettings) :
  0 < RECT.right r - RECT.left r < 2 ^ 31 ->
  0 < RECT.bottom r - RECT.top r < 2 ^ 31 ->
  dbl_le dbl_0 (generic_scan a b r cfg) = true
  /\ dbl_le (generic_scan a b r cfg) dbl_1 = true.
Proof.
  intros Hrw Hrh. unfold generic_scan.
  set (sX := if 0 <? sample_step_x cfg then sample_step_x cfg else 1).
  set (sY := if 0 <? sample_step_y cfg then sample_step_y cfg else 1).
  assert (HsX : 0 < sX)
    by (unfold sX; destruct (Z.ltb_spec 0 (sample_step_x cfg)); lia).
  assert (HsY : 0 < sY)
    by (unfold sY; destruct (Z.ltb_spec 0 (sample_step_y cfg)); lia).
  pose proof (quot_ceil_bounds (RECT.right r - RECT.left r) sX ltac:(lia) HsX)
    as Hbx.
  pose proof (quot_ceil_bounds (RECT.bottom r - RECT.top r) sY ltac:(lia) HsY)
    as Hby.
  set (total := Z.quot (RECT.right r - RECT.left r + (sX - 1)) sX
                * Z.quot (RECT.bottom r - RECT.top r + (sY - 1)) sY) in *.
  assert (Htot : 0 < total < 2 ^ 64) by (unfold total; nia).
  destruct (total <=? 0); [apply dbl_unit_range_1|].
  match goal with |- context [processed ?s <=? 0] => set (st := s) end.
  destruct (processed st <=? 0); [apply dbl_unit_range_1|].
  apply clamp01_range. by apply ratio_not_nan.
Qed.

Lemma fast_path_range (a b : LICE_IBitmap)
    (cfg : DuplicateFrameRemovalSettings) :
  0 <= getWidth a < 2 ^ 31 -> 0 <= getHeight a < 2 ^ 31 ->
  dbl_le dbl_0 (fast_path a b cfg) = true
  /\ dbl_le (fast_path a b cfg) dbl_1 = true.
Proof.
  intros Hw Hh. unfold fast_path.
  destruct (LICE_BitmapCmpEx (Some a) (Some b) (channel_mask cfg))
    as [ret [[[dx dy] dw] dh]].
  destruct (ret =? 0); [apply dbl_unit_range_1|].
  destruct (Z.leb_spec (getWidth a * getHeight a) 0) as [|Htot];
    [apply dbl_unit_range_0|].
  apply clamp01_range, dbl_sub_one_not_nan.
  apply (ratio_not_nan (dw * dh)). nia.
Qed.

Lemma CalculateSimilarity_range (a b : option LICE_IBitmap)
    (roi : option RECT.t) (cfg : DuplicateFrameRemovalSettings) :
  0 <= bitmap_width a < 2 ^ 31 -> 0 <= bitmap_height a < 2 ^ 31 ->
  dbl_le dbl_0 (CalculateSimilarity a b roi cfg) = true
  /\ dbl_le (CalculateSimilarity a b roi cfg) dbl_1 = true.
Proof.
  intros Hw Hh.
  pose proof (CalculateSimilarity_path a b roi cfg) as Hsim.
  destruct (path_of a b roi cfg) eqn:Hpath.
  - rewrite Hsim. apply dbl_unit_range_0.
  - rewrite Hsim. apply dbl_unit_range_0.
  - rewrite Hsim. apply dbl_unit_range_1.
  - destruct Hsim as (bma & bmb & -> & -> & ->). by apply fast_path_range.
  - destruct (path_generic_inv a b roi cfg Hpath)
      as (bma & bmb & -> & -> & Hwe & Hhe & Hrw & Hrh & _ & ->).
    simpl in Hw, Hh.
    destruct (compute_roi_same_dims bma bmb roi Hwe Hhe ltac:(lia) ltac:(lia))
      as (Hl & Hr & Ht & Hb).
    apply generic_scan_range; lia.
Qed.

End SimilarityRange.

(** ** What the manual scan computes *)

Lemma for_steps_complete (fuel : nat) :
  forall (v hi s k : Z),
  0 < s -> 0 <= k -> v + k * s < hi -> hi - v <= Z.of_nat fuel ->
  In (v + k * s) (for_steps fuel v hi s).
Proof.
  induction fuel as [|fuel IH]; intros v hi s k Hs Hk Hlt Hf; simpl.
  - nia.
  - destruct (Z.ltb_spec v hi) as [Hv|Hv]; [|nia].
    destruct (Z.eq_dec k 0) as [->|Hk0]; [left; lia|]. right.
    replace (v + k * s) with (v + s + (k - 1) * s) by lia.
    apply IH; lia.
Qed.

(** The values of the loop variable: [lo], [lo + s], ... below [hi]. *)
Lemma for_range_spec (lo hi s x : Z) :
  0 < s ->
  In x (for_range lo hi s) <-> exists k, 0 <= k /\ x = lo + k * s /\ x < hi.
Proof.
  intros Hs. split.
  - intros Hin. destruct (for_range_In _ _ _ _ Hs Hin) as (k & Hk & Hx & Hr).
    exists k. lia.
  - intros (k & Hk & -> & Hlt). apply for_steps_complete; lia.
Qed.

Lemma with_early_out_same (cfg : DuplicateFrameRemovalSettings) :
  with_early_out cfg (enable_early_out cfg) = cfg.
Proof. by destruct cfg. Qed.

Lemma filter_length_le {A : Type} (f : A -> bool) (l : list A) :
  (length (List.filter f l) <= length l)%nat.
Proof. induction l as [|x l IH]; simpl; [lia|]. destruct (f x); simpl; lia. Qed.

Lemma filter_all {A : Type} (f : A -> bool) (l : list A) :
  (forall x, In x l -> f x = true) -> List.filter f l = l.
Proof.
  induction l as [|x l IH]; intros Hall; simpl; [done|].
  rewrite (Hall x) by (by left). f_equal. apply IH. intros y Hy.
  apply Hall. by right.
Qed.

Lemma filter_none {A : Type} (f : A -> bool) (l : list A) :
  (forall x, In x l -> f x = false) -> List.filter f l = [].
Proof.
  induction l as [|x l IH]; intros Hall; simpl; [done|].
  rewrite (Hall x) by (by left). apply IH. intros y Hy. apply Hall. by right.
Qed.

Section ScanCount.
Context `{LICE}.
Variables (a b : LICE_IBitmap) (cfg : DuplicateFrameRemovalSettings).

Lemma equal_samples_bounds (xs ys : list Z) :
  0 <= equal_samples a b cfg xs ys
    <= Z.of_nat (length xs) * Z.of_nat (length ys).
Proof.
  induction ys as [|yy ys IH]; simpl; [lia|].
  pose proof (filter_length_le (equal_at a b cfg yy) xs). nia.
Qed.

Lemma equal_samples_all (xs ys : list Z) :
  (forall xx yy, In xx xs -> In yy ys -> equal_at a b cfg yy xx = true) ->
  equal_samples a b cfg xs ys = Z.of_nat (length xs) * Z.of_nat (length ys).
Proof.
  induction ys as [|yy ys IH]; intros Hall; simpl; [lia|].
  rewrite filter_all by (intros xx Hx; apply Hall; [done|by left]).
  rewrite IH by (intros xx yy' Hx Hy; apply Hall; [done|by right]). lia.
Qed.

Lemma equal_samples_none (xs ys : list Z) :
  (forall xx yy, In xx xs -> In yy ys -> equal_at a b cfg yy xx = false) ->
  equal_samples a b cfg xs ys = 0.
Proof.
  induction ys as [|yy ys IH]; intros Hall; simpl; [lia|].
  rewrite filter_none by (intros xx Hx; apply Hall; [done|by left]).
  rewrite IH by (intros xx yy' Hx Hy; apply Hall; [done|by right]). done.
Qed.

(** Without early-out a row adds its equal samples to the count. *)
Lemma scan_row_full_count (total yy : Z) (xs : list Z) :
  forall st,
  scan_row a b (with_early_out cfg false) total yy xs st
  = scan_next
      {| equal_count :=
           equal_count st
           + Z.of_nat (length (List.filter (equal_at a b cfg yy) xs));
         processed := processed st + Z.of_nat (length xs) |}.
Proof.
  induction xs as [|xx xs IH]; intros st.
  - simpl. rewrite !Z.add_0_r. by destruct st.
  - cbn [scan_row]. rewrite scan_pixel_full, IH. f_equal.
    unfold sampled. cbn [List.filter equal_count processed length].
    fold (equal_at a b cfg yy xx).
    destruct (equal_at a b cfg yy xx); f_equal; simpl length; lia.
Qed.

Lemma scan_rows_full_count (total : Z) (xs ys : list Z) :
  forall st,
  scan_rows a b (with_early_out cfg false) total xs ys st
  = {| equal_count := equal_count st + equal_samples a b cfg xs ys;
       processed :=
         processed st + Z.of_nat (length xs) * Z.of_nat (length ys) |}.
Proof.
  induction ys as [|yy ys IH]; intros st.
  - simpl. rewrite Z.mul_0_r, !Z.add_0_r. by destruct st.
  - cbn [scan_rows]. rewrite scan_row_full_count, IH. simpl.
    f_equal; lia.
Qed.

(** The score of the manual scan: the fraction of equal samples, or, when
    the early-out stopped the scan, the fraction counted so far. *)
Lemma generic_scan_cases (r : RECT.t) :
  0 < RECT.right r - RECT.left r < 2 ^ 31 ->
  0 < RECT.bottom r - RECT.top r < 2 ^ 31 ->
  let xs := sample_columns r cfg in
  let ys := sample_rows r cfg in
  let total := Z.of_nat (length xs) * Z.of_nat (length ys) in
  let full := equal_samples a b cfg xs ys in
  0 < total < 2 ^ 64
  /\ (generic_scan a b r cfg = ratio full total
      \/ (enable_early_out cfg = true
          /\ exists e p,
               generic_scan a b r cfg = ratio e total
               /\ 0 <= e <= p /\ 0 < p <= total
               /\ e <= full /\ full - e <= total - p
               /\ dbl_lt (ratio (e + (total - p)) total)
                    (similarity_threshold cfg) = true)).
Proof.
  intros Hrw Hrh xs ys total full.
  set (sX := effective_step (sample_step_x cfg)).
  set (sY := effective_step (sample_step_y cfg)).
  assert (HsX : 0 < sX)
    by (unfold sX, effective_step;
        destruct (Z.ltb_spec 0 (sample_step_x cfg)); lia).
  assert (HsY : 0 < sY)
    by (unfold sY, effective_step;
        destruct (Z.ltb_spec 0 (sample_step_y cfg)); lia).
  pose proof (for_range_length (RECT.left r) (RECT.right r) sX HsX ltac:(lia))
    as Hlx.
  pose proof (for_range_length (RECT.top r) (RECT.bottom r) sY HsY ltac:(lia))
    as Hly.
  change (for_range (RECT.left r) (RECT.right r) sX) with xs in Hlx.
  change (for_range (RECT.top r) (RECT.bottom r) sY) with ys in Hly.
  pose proof (quot_ceil_bounds (RECT.right r - RECT.left r) sX ltac:(lia) HsX)
    as Hbx.
  pose proof (quot_ceil_bounds (RECT.bottom r - RECT.top r) sY ltac:(lia) HsY)
    as Hby.
  rewrite <- Hlx in Hbx. rewrite <- Hly in Hby.
  assert (Htot : 0 < total < 2 ^ 64).
  { unfold total.
    assert (Z.of_nat (length xs) * Z.of_nat (length ys) <= 2 ^ 31 * 2 ^ 31)
      by (apply Z.mul_le_mono_nonneg; lia).
    nia. }
  split; [done|].
  set (st0 := {| equal_count := 0; processed := 0 |}).
  assert (Hgs : generic_scan a b r cfg
                = if processed (scan_rows a b cfg total xs ys st0) <=? 0
                  then dbl_1
                  else clamp01
                         (ratio (equal_count (scan_rows a b cfg total xs ys st0))
                            total)).
  { unfold generic_scan.
    change (if 0 <? sample_step_x cfg then sample_step_x cfg else 1) with sX.
    change (if 0 <? sample_step_y cfg then sample_step_y cfg else 1) with sY.
    cbv zeta. rewrite <- Hlx, <- Hly. fold total.
    change (for_range (RECT.left r) (RECT.right r) sX) with xs.
    change (for_range (RECT.top r) (RECT.bottom r) sY) with ys.
    by destruct (Z.leb_spec total 0) as [|_]; [lia|]. }
  rewrite Hgs. clear Hgs.
  pose proof (equal_samples_bounds xs ys) as Hfull. fold full total in Hfull.
  pose proof (scan_rows_full_count total xs ys st0) as HF.
  cbn [equal_count processed st0] in HF. rewrite !Z.add_0_l in HF.
  fold full total in HF.
  destruct (enable_early_out cfg) eqn:Hearly.
  - rewrite <- (with_early_out_same cfg), Hearly.
    destruct (scan_rows_early a b cfg total xs ys st0)
      as [->|(Hex & [HgE1 HgE2] & [HgEF1 HgEF2] & HprE)].
    + left. rewrite HF. simpl.
      destruct (Z.leb_spec total 0) as [|_]; [lia|].
      apply clamp01_ratio; lia.
    + right. split; [done|]. rewrite HF in HgEF1, HgEF2.
      set (stE := scan_rows a b (with_early_out cfg true) total xs ys st0) in *.
      simpl in HgE1, HgE2, HgEF1, HgEF2, HprE.
      exists (equal_count stE), (processed stE).
      destruct (Z.leb_spec (processed stE) 0) as [|_]; [lia|].
      split; [apply clamp01_ratio; lia|].
      split; [lia|]. split; [lia|]. split; [lia|]. split; [lia|]. exact Hex.
  - left. rewrite <- (with_early_out_same cfg), Hearly, HF. simpl.
    destruct (Z.leb_spec total 0) as [|_]; [lia|].
    apply clamp01_ratio; lia.
Qed.
End ScanCount.

Section ScanScores.
Context `{LICE}.

(** The manual scan path of two bitmaps with [int] dimensions. *)
Lemma path_generic_scan (a b : LICE_IBitmap) (roi : option RECT.t)
    (cfg : DuplicateFrameRemovalSettings) :
  0 <= getWidth a < 2 ^ 31 -> 0 <= getHeight a < 2 ^ 31 ->
  path_of (Some a) (Some b) roi cfg = path_generic ->
  let r := compute_roi (Some a) (Some b) roi in
  CalculateSimilarity (Some a) (Some b) roi cfg = generic_scan a b r cfg
  /\ 0 < RECT.right r - RECT.left r < 2 ^ 31
  /\ 0 < RECT.bottom r - RECT.top r < 2 ^ 31.
Proof.
  intros Hw Hh Hpath r.
  destruct (path_generic_inv _ _ _ _ Hpath)
    as (bma & bmb & [= <-] & [= <-] & Hwe & Hhe & Hrw & Hrh & _ & Hsim).
  destruct (compute_roi_same_dims a b roi Hwe Hhe ltac:(lia) ltac:(lia))
    as (Hl & Hr & Ht & Hb).
  fold r in Hrw, Hrh, Hl, Hr, Ht, Hb, Hsim. split; [done|]. lia.
Qed.

(** Without early-out the score of the manual scan, in exact arithmetic, is
    the number of sampled positions at which the pixel test succeeds divided
    by the number of sampled positions, as doubles.  The sampled columns are
    the columns [left + k * step] of the region, the sampled rows the rows
    [top + k * step], with each non-positive step taken as 1. *)
Lemma full_scan_exact (a b : LICE_IBitmap)
    (roi : option RECT.t) (cfg : DuplicateFrameRemovalSettings) :
  0 <= getWidth a < 2 ^ 31 -> 0 <= getHeight a < 2 ^ 31 ->
  path_of (Some a) (Some b) roi cfg = path_generic ->
  enable_early_out cfg = false ->
  let r := compute_roi (Some a) (Some b) roi in
  let xs := sample_columns r cfg in
  let ys := sample_rows r cfg in
  CalculateSimilarity (Some a) (Some b) roi cfg
  = ratio (equal_samples a b cfg xs ys)
      (Z.of_nat (length xs) * Z.of_nat (length ys))
  /\ (forall x, In x xs <->
        exists k, 0 <= k
          /\ x = RECT.left r + k * effective_step (sample_step_x cfg)
          /\ x < RECT.right r)
  /\ (forall y, In y ys <->
        exists k, 0 <= k
          /\ y = RECT.top r + k * effective_step (sample_step_y cfg)
          /\ y < RECT.bottom r).
Proof.
  intros Hw Hh Hpath Hearly r xs ys.
  destruct (path_generic_scan a b roi cfg Hw Hh Hpath) as (-> & Hrw & Hrh).
  fold r in Hrw, Hrh |- *.
  assert (Hstep : forall s, 0 < effective_step s)
    by (intros s; unfold effective_step; destruct (Z.ltb_spec 0 s); lia).
  split; [|split; intros v; apply for_range_spec, Hstep].
  destruct (generic_scan_cases a b cfg r Hrw Hrh)
    as (_ & [Hfull|(Hcontra & _)]); [done|congruence].
Qed.

(** When the pixel test succeeds at every sampled position, the score of
    the manual scan, in exact arithmetic, is 1.0, provided the early-out is
    disabled or the threshold is not above 1.0. *)
Lemma equal_samples_exact (a b : LICE_IBitmap)
    (roi : option RECT.t) (cfg : DuplicateFrameRemovalSettings) :
  0 <= getWidth a < 2 ^ 31 -> 0 <= getHeight a < 2 ^ 31 ->
  path_of (Some a) (Some b) roi cfg = path_generic ->
  (enable_early_out cfg = true ->
   dbl_lt dbl_1 (similarity_threshold cfg) = false) ->
  (forall xx yy,
     In xx (sample_columns (compute_roi (Some a) (Some b) roi) cfg) ->
     In yy (sample_rows (compute_roi (Some a) (Some b) roi) cfg) ->
     equal_at a b cfg yy xx = true) ->
  CalculateSimilarity (Some a) (Some b) roi cfg = dbl_1.
Proof.
  intros Hw Hh Hpath Hthr Hall.
  destruct (path_generic_scan a b roi cfg Hw Hh Hpath) as (-> & Hrw & Hrh).
  set (r := compute_roi (Some a) (Some b) roi) in *.
  destruct (generic_scan_cases a b cfg r Hrw Hrh) as (Htot & Hcases).
  rewrite (equal_samples_all a b cfg _ _ Hall) in Hcases.
  set (total := Z.of_nat (length (sample_columns r cfg))
                * Z.of_nat (length (sample_rows r cfg))) in *.
  destruct Hcases as [->|(Hearly & e & p & _ & He & Hp & _ & Hep & Hexit)].
  - by apply ratio_same.
  - replace (e + (total - p)) with total in Hexit by lia.
    rewrite ratio_same, Hthr in Hexit; done.
Qed.

(** When the pixel test fails at every sampled position, the score of the
    manual scan, in exact arithmetic, is 0.0, with and without early-out. *)
Lemma different_samples_exact (a b : LICE_IBitmap)
    (roi : option RECT.t) (cfg : DuplicateFrameRemovalSettings) :
  0 <= getWidth a < 2 ^ 31 -> 0 <= getHeight a < 2 ^ 31 ->
  path_of (Some a) (Some b) roi cfg = path_generic ->
  (forall xx yy,
     In xx (sample_columns (compute_roi (Some a) (Some b) roi) cfg) ->
     In yy (sample_rows (compute_roi (Some a) (Some b) roi) cfg) ->
     equal_at a b cfg yy xx = false) ->
  CalculateSimilarity (Some a) (Some b) roi cfg = dbl_0.
Proof.
  intros Hw Hh Hpath Hall.
  destruct (path_generic_scan a b roi cfg Hw Hh Hpath) as (-> & Hrw & Hrh).
  set (r := compute_roi (Some a) (Some b) roi) in *.
  destruct (generic_scan_cases a b cfg r Hrw Hrh) as (Htot & Hcases).
  rewrite (equal_samples_none a b cfg _ _ Hall) in Hcases.
  destruct Hcases as [->|(Hearly & e & p & -> & He & Hp & He0 & _)].
  - by apply ratio_zero.
  - replace e with 0 by lia. by apply ratio_zero.
Qed.
End ScanScores.

(** ** Symmetry and locality of the score *)

Lemma compute_roi_sym (a b : option LICE_IBitmap) (roi : option RECT.t) :
  compute_roi a b roi = compute_roi b a roi.
Proof.
  rewrite !compute_roi_common.
  by rewrite (Z.min_comm (bitmap_width a)), (Z.min_comm (bitmap_height a)).
Qed.

Section ScanSymmetry.
Context `{LICE}.

Lemma scan_pixel_sym (a b : LICE_IBitmap)
    (cfg : DuplicateFrameRemovalSettings) (n yy xx : Z) (st : scan) :
  scan_pixel a b cfg n yy xx st = scan_pixel b a cfg n yy xx st.
Proof.
  unfold scan_pixel. cbv zeta.
  by rewrite (pixels_equal_sym (peek (getBits a) (pixel_offset a xx yy))).
Qed.

Lemma scan_row_sym (a b : LICE_IBitmap)
    (cfg : DuplicateFrameRemovalSettings) (n yy : Z) (xs : list Z) :
  forall st, scan_row a b cfg n yy xs st = scan_row b a cfg n yy xs st.
Proof.
  induction xs as [|xx xs IH]; intros st; simpl; [done|].
  rewrite scan_pixel_sym. by destruct (scan_pixel b a cfg n yy xx st).
Qed.

Lemma scan_rows_sym (a b : LICE_IBitmap)
    (cfg : DuplicateFrameRemovalSettings) (n : Z) (xs ys : list Z) :
  forall st, scan_rows a b cfg n xs ys st = scan_rows b a cfg n xs ys st.
Proof.
  induction ys as [|yy ys IH]; intros st; simpl; [done|].
  rewrite scan_row_sym. by destruct (scan_row b a cfg n yy xs st).
Qed.

Lemma generic_scan_sym (a b : LICE_IBitmap) (r : RECT.t)
    (cfg : DuplicateFrameRemovalSettings) :
  generic_scan a b r cfg = generic_scan b a r cfg.
Proof. unfold generic_scan. by rewrite scan_rows_sym. Qed.

(** X19.  Off the fast path the similarity does not depend on the order of the
    two bitmaps. *)
Theorem similarity_symmetric (a b : option LICE_IBitmap)
    (roi : option RECT.t) (cfg : DuplicateFrameRemovalSettings) :
  path_of a b roi cfg <> path_fast ->
  CalculateSimilarity a b roi cfg = CalculateSimilarity b a roi cfg.
Proof.
  unfold path_of, CalculateSimilarity.
  destruct a as [bma|], b as [bmb|]; try done.
  rewrite (compute_roi_sym (Some bmb)).
  rewrite (Z.eqb_sym (getWidth bmb)), (Z.eqb_sym (getHeight bmb)).
  destruct (Z.eqb_spec (getWidth bma) (getWidth bmb)) as [Hw|]; [|done].
  destruct (Z.eqb_spec (getHeight bma) (getHeight bmb)) as [Hh|]; [|done].
  simpl.
  destruct ((_ <=? 0) || (_ <=? 0)); [done|].
  assert (Hc : fast_path_cond bmb (compute_roi (Some bma) (Some bmb) roi) cfg
               = fast_path_cond bma (compute_roi (Some bma) (Some bmb) roi) cfg)
    by (unfold fast_path_cond; by rewrite Hw, Hh).
  rewrite Hc.
  destruct (fast_path_cond bma _ cfg); [done|].
  intros _. apply generic_scan_sym.
Qed.

(** In exact arithmetic a pixel of the bitmaps that lies outside the
    comparison region is never read: replacing it in either bitmap or in
    both leaves the similarity as it is. *)
Lemma outside_region_exact (a b : LICE_IBitmap)
    (roi : option RECT.t) (cfg : DuplicateFrameRemovalSettings)
    (x0 y0 : Z) (va vb : LICE_pixel) :
  getWidth a = getWidth b -> getHeight a = getHeight b ->
  getWidth a <= getRowSpan a -> getWidth b <= getRowSpan b ->
  0 <= x0 < getWidth a -> 0 <= y0 < getHeight a ->
  ~ (RECT.left (compute_roi (Some a) (Some b) roi) <= x0
       < RECT.right (compute_roi (Some a) (Some b) roi)
     /\ RECT.top (compute_roi (Some a) (Some b) roi) <= y0
          < RECT.bottom (compute_roi (Some a) (Some b) roi)) ->
  CalculateSimilarity (Some (set_pixel a x0 y0 va))
    (Some (set_pixel b x0 y0 vb)) roi cfg
  = CalculateSimilarity (Some a) (Some b) roi cfg.
Proof.
  intros Hw Hh Hspa Hspb Hx0 Hy0 Hout.
  destruct (set_pixel_dims a x0 y0 va) as [Hwa Hha].
  destruct (set_pixel_dims b x0 y0 vb) as [Hwb Hhb].
  assert (Hroi : compute_roi (Some (set_pixel a x0 y0 va))
                   (Some (set_pixel b x0 y0 vb)) roi
                 = compute_roi (Some a) (Some b) roi).
  { unfold compute_roi. by rewrite Hwa, Hha, Hwb, Hhb. }
  destruct (compute_roi_same_dims a b roi Hw Hh ltac:(lia) ltac:(lia))
    as (Hl & Hr & Ht & Hb).
  set (r := compute_roi (Some a) (Some b) roi) in *.
  assert (Hfast : fast_path_cond a r cfg = false).
  { destruct (fast_path_cond a r cfg) eqn:Hc; [|done].
    unfold fast_path_cond in Hc. rewrite !andb_true_iff, !Z.eqb_eq in Hc.
    lia. }
  unfold CalculateSimilarity. rewrite Hroi, Hwa, Hha, Hwb, Hhb. fold r.
  assert (Hfast' : fast_path_cond (set_pixel a x0 y0 va) r cfg = false)
    by (unfold fast_path_cond in *; by rewrite Hwa, Hha).
  rewrite Hfast, Hfast'.
  destruct (negb _ || negb _); [done|].
  destruct ((_ <=? 0) || (_ <=? 0)); [done|].
  unfold generic_scan.
  set (sX := if 0 <? sample_step_x cfg then sample_step_x cfg else 1).
  set (sY := if 0 <? sample_step_y cfg then sample_step_y cfg else 1).
  assert (HsX : 0 < sX)
    by (unfold sX; destruct (Z.ltb_spec 0 (sample_step_x cfg)); lia).
  assert (HsY : 0 < sY)
    by (unfold sY; destruct (Z.ltb_spec 0 (sample_step_y cfg)); lia).
  rewrite (scan_rows_ext a b); [done|].
  intros xx yy Hxx Hyy.
  destruct (for_range_In _ _ _ _ HsX Hxx) as (kx & _ & _ & Hxr).
  destruct (for_range_In _ _ _ _ HsY Hyy) as (ky & _ & _ & Hyr).
  split; rewrite pixel_offset_set_pixel; apply peek_set_pixel; intros Heq;
    apply pixel_offset_inj in Heq as [-> ->]; try done; lia.
Qed.
End ScanSymmetry.

(** ** The threshold *)



Lemma dbl_le_not_gt (t u : double) :
  dbl_le t u = true -> dbl_lt u t = false.
Proof.
  unfold dbl_lt, dbl_le, SFltb, SFleb, SFcompare.
  destruct u as [[]|[]| |[] mu eu]; try done;
    destruct t as [[]|[]| |[] mt et]; try done; compare_cases.
Qed.

Section Thresholds.
Context `{LICE}.
Variable cfg : DuplicateFrameRemovalSettings.






(** The similarity of a bitmap with itself. *)
Lemma same_bitmap_similarity (a : LICE_IBitmap) (roi : option RECT.t) :
  0 <= getWidth a < 2 ^ 31 -> 0 <= getHeight a < 2 ^ 31 ->
  dbl_le (similarity_threshold cfg) dbl_1 = true ->
  fst (LICE_BitmapCmpEx (Some a) (Some a) (channel_mask cfg)) = 0 ->
  CalculateSimilarity (Some a) (Some a) roi cfg = dbl_1.
Proof.
  intros Hw Hh Hthr Hcmp.
  pose proof (CalculateSimilarity_path (Some a) (Some a) roi cfg) as Hsim.
  assert (Hsome : path_of (Some a) (Some a) roi cfg <> path_null
                  /\ path_of (Some a) (Some a) roi cfg <> path_size_mismatch).
  { unfold path_of. rewrite !Z.eqb_refl. simpl.
    destruct ((_ <=? 0) || (_ <=? 0)); [done|].
    by destruct (fast_path_cond a _ cfg). }
  destruct Hsome as [Hnull Hsize].
  destruct (path_of (Some a) (Some a) roi cfg) eqn:Hpath; try done.
  - destruct Hsim as (a1 & a2 & [= <-] & [= <-] & ->). unfold fast_path.
    destruct (LICE_BitmapCmpEx (Some a) (Some a) (channel_mask cfg))
      as [ret [[[dx dy] dw] dh]]. simpl in Hcmp. by rewrite Hcmp.
  - destruct (path_generic_scan a a roi cfg Hw Hh Hpath) as (-> & Hrw & Hrh).
    set (r := compute_roi (Some a) (Some a) roi) in *.
    destruct (generic_scan_cases a a cfg r Hrw Hrh) as (Htot & Hcases).
    rewrite (equal_samples_all a a cfg) in Hcases
      by (intros; apply pixels_equal_refl).
    set (total := Z.of_nat (length (sample_columns r cfg))
                  * Z.of_nat (length (sample_rows r cfg))) in *.
    destruct Hcases as [->|(Hearly & e & p & _ & He & Hp & _ & Hep & Hexit)].
    + by apply ratio_same.
    + replace (e + (total - p)) with total in Hexit by lia.
      rewrite ratio_same, (dbl_le_not_gt _ _ Hthr) in Hexit; done.
Qed.

Lemma is_dup_same_bitmap (a : LICE_IBitmap) (prev curr : FrameInfo.t) :
  0 <= getWidth a < 2 ^ 31 -> 0 <= getHeight a < 2 ^ 31 ->
  dbl_le (similarity_threshold cfg) dbl_1 = true ->
  fst (LICE_BitmapCmpEx (Some a) (Some a) (channel_mask cfg)) = 0 ->
  FrameInfo.bmp prev = Some a -> FrameInfo.bmp curr = Some a ->
  IsDuplicateFrame prev curr cfg = (true, dbl_1).
Proof.
  intros Hw Hh Hthr Hcmp Hp Hc. unfold IsDuplicateFrame.
  rewrite Hp, Hc. rewrite same_bitmap_similarity by done.
  f_equal. exact Hthr.
Qed.

(** A run in which every frame is a duplicate of every other is never
    flushed before the end of the input. *)
Lemma collapse_loop_all_dup (P : FrameInfo.t -> Prop)
    (rest : list FrameInfo.t) :
  (forall p c, P p -> P c -> is_dup cfg p c = true) ->
  forall (st : collapse) (i : Z) (arr : FrameArray.t),
  P (pending st) -> Forall P rest -> output st = Some arr ->
  removed (collapse_loop cfg i rest st) = removed st + Z.of_nat (length rest)
  /\ exists f,
       flush_run cfg (collapse_loop cfg i rest st) = Some (FrameArray_Add arr f)
       /\ erase_delay f
          = erase_delay
              (match keep_mode cfg with
               | kDuplicateKeepFirst => pending st
               | kDuplicateKeepLast => default (pending st) (last rest)
               end).
Proof.
  intros Hdup. induction rest as [|cur rest IH]; intros st i arr Hp Hall Hout.
  - simpl. split; [lia|]. exists (adjust_delay cfg st).
    unfold flush_run. rewrite Hout. split; [done|].
    rewrite erase_delay_adjust. by destruct (keep_mode cfg).
  - apply Forall_cons in Hall as [Hcur Hall]. cbn [collapse_loop].
    unfold collapse_step. fold (is_dup cfg (pending st) cur).
    rewrite (Hdup _ _ Hp Hcur).
    destruct (keep_mode cfg) eqn:Hmode.
    + match goal with |- context [collapse_loop _ _ _ ?s] =>
        destruct (IH s (i + 1) arr Hp Hall Hout) as (H1 & f & H2 & H3)
      end.
      split; [rewrite H1; simpl; lia|]. exists f. done.
    + match goal with |- context [collapse_loop _ _ _ ?s] =>
        destruct (IH s (i + 1) arr Hcur Hall Hout) as (H1 & f & H2 & H3)
      end.
      split; [rewrite H1; simpl; lia|]. exists f. split; [done|].
      rewrite H3. simpl. rewrite last_cons. by destruct (last rest).
Qed.

(** Frames that all share one bitmap collapse into a single frame when the
    duplicate test is computed in exact arithmetic: all but one are removed,
    and the frame that is left is the first input frame when the first of a
    run is kept and the last input frame when the last is, up to its
    delay. *)
Lemma shared_bitmap_collapse (a : LICE_IBitmap)
    (first : FrameInfo.t) (rest : list FrameInfo.t) (arr : FrameArray.t)
    (ri : option IndexArray.t) :
  0 <= getWidth a < 2 ^ 31 -> 0 <= getHeight a < 2 ^ 31 ->
  dbl_le (similarity_threshold cfg) dbl_1 = true ->
  fst (LICE_BitmapCmpEx (Some a) (Some a) (channel_mask cfg)) = 0 ->
  Forall (fun f => FrameInfo.bmp f = Some a) (first :: rest) ->
  let r := RemoveDuplicateFrames (first :: rest) (Some arr) cfg ri in
  removed_count r = Z.of_nat (length rest)
  /\ exists f,
       output_frames r = [f]
       /\ erase_delay f
          = erase_delay
              (match keep_mode cfg with
               | kDuplicateKeepFirst => first
               | kDuplicateKeepLast => default first (last rest)
               end).
Proof.
  intros Hw Hh Hthr Hcmp Hall. cbv zeta.
  apply Forall_cons in Hall as [Hfirst Hall].
  unfold RemoveDuplicateFrames, removed_count, output_frames.
  simpl fst; simpl snd.
  match goal with |- context [collapse_loop _ _ _ ?s] => set (st0 := s) end.
  destruct (collapse_loop_all_dup (fun f => FrameInfo.bmp f = Some a) rest)
    with (st := st0) (i := 1)
         (arr := FrameArray_Init (Z.quot (Z.of_nat (length (first :: rest))) 2))
    as (H1 & f & H2 & H3); try done.
  { intros p c Hp Hc. unfold is_dup.
    by rewrite (is_dup_same_bitmap a p c). }
  rewrite H1, H2. simpl. split; [lia|]. exists f. done.
Qed.
End Thresholds.

(** ** Monotonicity of the duplicate decision *)

Lemma dbl_le_trans (x y z : double) :
  dbl_le x y = true -> dbl_le y z = true -> dbl_le x z = true.
Proof.
  unfold dbl_le, SFleb, SFcompare.
  destruct y as [[]|[]| |[] my ey]; try done;
    destruct x as [[]|[]| |[] mx ex]; try done;
    destruct z as [[]|[]| |[] mz ez]; try done; compare_cases.
Qed.

Lemma filter_length_mono {A : Type} (f g : A -> bool) (l : list A) :
  (forall x, In x l -> f x = true -> g x = true) ->
  (length (List.filter f l) <= length (List.filter g l))%nat.
Proof.
  induction l as [|x l IH]; intros Himp; simpl; [lia|].
  assert (IH' : (length (List.filter f l) <= length (List.filter g l))%nat)
    by (apply IH; intros y Hy; apply Himp; by right).
  destruct (f x) eqn:Hf.
  - rewrite (Himp x (or_introl eq_refl) Hf). simpl. lia.
  - destruct (g x); simpl; lia.
Qed.

Section DecisionMonotone.
Context `{LICE}.

(** The decision of the manual scan is the decision on the fraction of
    equal samples, with and without early-out. *)
Lemma generic_scan_decision (a b : LICE_IBitmap) (r : RECT.t)
    (cfg : DuplicateFrameRemovalSettings) :
  0 < RECT.right r - RECT.left r < 2 ^ 31 ->
  0 < RECT.bottom r - RECT.top r < 2 ^ 31 ->
  dbl_ge (generic_scan a b r cfg) (similarity_threshold cfg)
  = dbl_ge
      (ratio (equal_samples a b cfg (sample_columns r cfg) (sample_rows r cfg))
         (Z.of_nat (length (sample_columns r cfg))
          * Z.of_nat (length (sample_rows r cfg))))
      (similarity_threshold cfg).
Proof.
  intros Hrw Hrh.
  destruct (generic_scan_cases a b cfg r Hrw Hrh) as (Htot & Hcases).
  pose proof (equal_samples_bounds a b cfg (sample_columns r cfg)
                (sample_rows r cfg)) as Hfull.
  set (full := equal_samples a b cfg _ _) in *.
  set (total := Z.of_nat (length (sample_columns r cfg))
                * Z.of_nat (length (sample_rows r cfg))) in *.
  destruct Hcases as [->|(_ & e & p & -> & He & Hp & Hef & Hfe & Hexit)];
    [done|].
  set (best := e + (total - p)) in *.
  assert (Hnb : nonneg_finite (ratio best total))
    by (apply ratio_nonneg_finite; unfold best; lia).
  rewrite !dbl_lt_not_ge; try done.
  - apply ratio_nonneg_finite; lia.
  - apply (dbl_le_lt_trans _ (ratio best total)); try done.
    + apply ratio_nonneg_finite; lia.
    + apply ratio_mono; unfold best; lia.
  - apply ratio_nonneg_finite; lia.
  - apply (dbl_le_lt_trans _ (ratio best total)); try done.
    + apply ratio_nonneg_finite; lia.
    + apply ratio_mono; unfold best; lia.
Qed.

Lemma equal_samples_mono (a b : LICE_IBitmap)
    (cfg cfg' : DuplicateFrameRemovalSettings) (xs ys : list Z) :
  (forall xx yy, equal_at a b cfg yy xx = true ->
                 equal_at a b cfg' yy xx = true) ->
  equal_samples a b cfg xs ys <= equal_samples a b cfg' xs ys.
Proof.
  intros Himp. induction ys as [|yy ys IH]; simpl; [lia|].
  pose proof (filter_length_mono (equal_at a b cfg yy) (equal_at a b cfg' yy) xs
                ltac:(intros x _; apply Himp)).
  lia.
Qed.

Lemma similarity_lower_threshold (a b : option LICE_IBitmap)
    (roi : option RECT.t) (cfg : DuplicateFrameRemovalSettings)
    (t : double) :
  int_sized a ->
  dbl_le t (similarity_threshold cfg) = true ->
  dbl_ge (CalculateSimilarity a b roi cfg) (similarity_threshold cfg) = true ->
  dbl_ge (CalculateSimilarity a b roi (with_threshold cfg t)) t = true.
Proof.
  intros [Hw Hh] Ht.
  pose proof (CalculateSimilarity_path a b roi cfg) as Hsim.
  pose proof (CalculateSimilarity_path a b roi (with_threshold cfg t)) as Hsim'.
  change (path_of a b roi (with_threshold cfg t)) with (path_of a b roi cfg)
    in Hsim'.
  destruct (path_of a b roi cfg) eqn:Hpath.
  - rewrite Hsim, Hsim'. unfold dbl_ge. intros Hge. by eapply dbl_le_trans.
  - rewrite Hsim, Hsim'. unfold dbl_ge. intros Hge. by eapply dbl_le_trans.
  - rewrite Hsim, Hsim'. unfold dbl_ge. intros Hge. by eapply dbl_le_trans.
  - destruct Hsim as (bma & bmb & -> & -> & ->).
    destruct Hsim' as (bma' & bmb' & [= <-] & [= <-] & ->).
    change (fast_path bma bmb (with_threshold cfg t))
      with (fast_path bma bmb cfg).
    unfold dbl_ge. intros Hge. by eapply dbl_le_trans.
  - destruct (path_generic_inv a b roi cfg Hpath)
      as (bma & bmb & -> & -> & Hwe & Hhe & Hrw & Hrh & _ & ->).
    destruct Hsim' as (bma' & bmb' & [= <-] & [= <-] & ->).
    simpl in Hw, Hh.
    destruct (compute_roi_same_dims bma bmb roi Hwe Hhe ltac:(lia) ltac:(lia))
      as (Hl & Hr & Ht' & Hb).
    set (r := compute_roi (Some bma) (Some bmb) roi) in *.
    rewrite (generic_scan_decision bma bmb r cfg) by lia.
    pose proof (generic_scan_decision bma bmb r (with_threshold cfg t)
                  ltac:(lia) ltac:(lia)) as Hdec.
    change (similarity_threshold (with_threshold cfg t)) with t in Hdec.
    rewrite Hdec.
    change (sample_columns r (with_threshold cfg t))
      with (sample_columns r cfg).
    change (sample_rows r (with_threshold cfg t)) with (sample_rows r cfg).
    change (equal_samples bma bmb (with_threshold cfg t))
      with (equal_samples bma bmb cfg).
    unfold dbl_ge. intros Hge. by eapply dbl_le_trans.
Qed.

(** X25.  Lowering the threshold never turns a duplicate into a
    non-duplicate: two frames that are duplicates at a threshold are
    duplicates at every lower threshold, with or without early-out. *)
Theorem lower_threshold_keeps_duplicates (prev curr : FrameInfo.t)
    (cfg : DuplicateFrameRemovalSettings) (t : double) :
  int_sized (FrameInfo.bmp prev) ->
  dbl_le t (similarity_threshold cfg) = true ->
  fst (IsDuplicateFrame prev curr cfg) = true ->
  fst (IsDuplicateFrame prev curr (with_threshold cfg t)) = true.
Proof.
  intros Hsize Ht. unfold IsDuplicateFrame.
  destruct (FrameInfo.bmp prev) as [pb|]; [|done].
  destruct (FrameInfo.bmp curr) as [cb|]; [|done].
  cbn [fst]. by apply similarity_lower_threshold.
Qed.

(** X26.  With a tolerant comparison, raising the tolerance never turns a
    duplicate into a non-duplicate. *)
Theorem larger_tolerance_keeps_duplicates (prev curr : FrameInfo.t)
    (cfg : DuplicateFrameRemovalSettings) (tol : Z) :
  int_sized (FrameInfo.bmp prev) ->
  0 < per_channel_tolerance cfg <= tol ->
  fst (IsDuplicateFrame prev curr cfg) = true ->
  fst (IsDuplicateFrame prev curr (with_tolerance cfg tol)) = true.
Proof.
  intros [Hw Hh] Htol. unfold IsDuplicateFrame.
  destruct (FrameInfo.bmp prev) as [pb|]; [|done].
  destruct (FrameInfo.bmp curr) as [cb|]; [|done].
  cbn [fst]. simpl in Hw, Hh.
  change (similarity_threshold (with_tolerance cfg tol))
    with (similarity_threshold cfg).
  set (roi := Some (frame_roi prev curr pb cb)).
  assert (Hnofast : forall c r, 0 < per_channel_tolerance c ->
            fast_path_cond pb r c = false).
  { intros c r Hc. unfold fast_path_cond.
    by destruct (Z.leb_spec (per_channel_tolerance c) 0); [lia|]. }
  assert (Hpath' : path_of (Some pb) (Some cb) roi (with_tolerance cfg tol)
                   = path_of (Some pb) (Some cb) roi cfg
                   /\ path_of (Some pb) (Some cb) roi cfg <> path_fast).
  { unfold path_of.
    destruct (negb _ || negb _); [done|].
    destruct ((_ <=? 0) || (_ <=? 0)); [done|].
    rewrite !Hnofast; [done|lia|simpl; lia]. }
  destruct Hpath' as [Hpath' Hnf].
  pose proof (CalculateSimilarity_path (Some pb) (Some cb) roi cfg) as Hsim.
  pose proof (CalculateSimilarity_path (Some pb) (Some cb) roi
                (with_tolerance cfg tol)) as Hsim'.
  rewrite Hpath' in Hsim'.
  destruct (path_of (Some pb) (Some cb) roi cfg) eqn:Hpath.
  - by rewrite Hsim, Hsim'.
  - by rewrite Hsim, Hsim'.
  - by rewrite Hsim, Hsim'.
  - exfalso. by apply Hnf.
  - destruct (path_generic_inv _ _ roi cfg Hpath)
      as (bma & bmb & [= <-] & [= <-] & Hwe & Hhe & Hrw & Hrh & _ & ->).
    destruct Hsim' as (bma' & bmb' & [= <-] & [= <-] & ->).
    destruct (compute_roi_same_dims pb cb roi Hwe Hhe ltac:(lia) ltac:(lia))
      as (Hl & Hr & Ht' & Hb).
    set (r := compute_roi (Some pb) (Some cb) roi) in *.
    rewrite (generic_scan_decision pb cb r cfg) by lia.
    pose proof (generic_scan_decision pb cb r (with_tolerance cfg tol)
                  ltac:(lia) ltac:(lia)) as Hdec.
    change (similarity_threshold (with_tolerance cfg tol))
      with (similarity_threshold cfg) in Hdec.
    rewrite Hdec.
    change (sample_columns r (with_tolerance cfg tol))
      with (sample_columns r cfg).
    change (sample_rows r (with_tolerance cfg tol)) with (sample_rows r cfg).
    destruct (generic_scan_cases pb cb cfg r ltac:(lia) ltac:(lia))
      as (Htot & _).
    pose proof (equal_samples_bounds pb cb cfg (sample_columns r cfg)
                  (sample_rows r cfg)) as Hfull.
    pose proof (equal_samples_bounds pb cb (with_tolerance cfg tol)
                  (sample_columns r cfg) (sample_rows r cfg)) as Hfull'.
    pose proof (equal_samples_mono pb cb cfg (with_tolerance cfg tol)
                  (sample_columns r cfg) (sample_rows r cfg)) as Hmono.
    unfold dbl_ge. intros Hge. eapply dbl_le_trans; [exact Hge|].
    apply ratio_mono; [|lia|done]. split; [lia|]. apply Hmono.
    intros xx yy. unfold equal_at. intros Heq.
    apply (pixels_equal_relaxed_tol _ _ cfg); [done|simpl; lia|done].
Qed.
End DecisionMonotone.

(** * The stand-in of the exact bitmap compare *)

Lemma bounds_differences_ext (W H : Z) (S S' : Z -> Z -> Prop)
    (d : Z -> Z -> bool) (box : bbox) :
  (forall x y, S x y <-> S' x y) ->
  bounds_differences W H S d box -> bounds_differences W H S' d box.
Proof.
  intros Heq (Hb & Hcov & Halt). split; [done|]. split.
  - intros x y Hs. apply Hcov. by apply Heq.
  - destruct Halt as [[Hbox Hno]|(H1 & H2 & H3 & H4)].
    + left. split; [done|]. intros x y Hs. apply Hno. by apply Heq.
    + right.
      destruct H1 as (y1 & Hs1 & Hd1), H2 as (y2 & Hs2 & Hd2),
        H3 as (x3 & Hs3 & Hd3), H4 as (x4 & Hs4 & Hd4).
      repeat split; eexists; (split; [apply Heq|]); eassumption.
Qed.

Section StandInCompare.
Variables (a b : LICE_IBitmap) (mask : LICE_pixel).
Variables (W H : Z).

(** One pixel more. *)
Lemma cmp_pixel_bounds (S : Z -> Z -> Prop) (box : bbox) (xx yy : Z) :
  0 <= xx < W -> 0 <= yy < H ->
  bounds_differences W H S (differs_at a b mask) box ->
  bounds_differences W H (fun x y => S x y \/ (x = xx /\ y = yy)) (differs_at a b mask)
    (cmp_pixel a b mask yy box xx).
Proof.
  intros Hxx Hyy (Hb & Hcov & Halt). unfold cmp_pixel. cbv zeta.
  fold (differs_at a b mask xx yy).
  destruct (differs_at a b mask xx yy) eqn:Hd.
  - (* the pixel differs: the box grows to hold it *)
    assert (Hgrow :
      (if xx <? minx box then xx else minx box) <= xx
        <= (if maxx box <? xx then xx else maxx box)
      /\ (if yy <? miny box then yy else miny box) <= yy
           <= (if maxy box <? yy then yy else maxy box)
      /\ (if xx <? minx box then xx else minx box) <= minx box
      /\ maxx box <= (if maxx box <? xx then xx else maxx box)
      /\ (if yy <? miny box then yy else miny box) <= miny box
      /\ maxy box <= (if maxy box <? yy then yy else maxy box)).
    { destruct (Z.ltb_spec xx (minx box)), (Z.ltb_spec (maxx box) xx),
        (Z.ltb_spec yy (miny box)), (Z.ltb_spec (maxy box) yy); lia. }
    split; [|split].
    + simpl.
      destruct (Z.ltb_spec xx (minx box)), (Z.ltb_spec (maxx box) xx),
        (Z.ltb_spec yy (miny box)), (Z.ltb_spec (maxy box) yy); lia.
    + simpl. intros x y [Hs|[-> ->]] Hdx; [|lia].
      specialize (Hcov x y Hs Hdx). lia.
    + right. simpl.
      assert (Hinit : box = empty_box W H ->
                xx < minx box /\ maxx box < xx /\ yy < miny box /\ maxy box < yy)
        by (intros ->; simpl; lia).
      destruct Halt as [[Hbox _]|(H1 & H2 & H3 & H4)].
      * destruct (Hinit Hbox) as (I1 & I2 & I3 & I4).
        destruct (Z.ltb_spec xx (minx box)); [|lia].
        destruct (Z.ltb_spec (maxx box) xx); [|lia].
        destruct (Z.ltb_spec yy (miny box)); [|lia].
        destruct (Z.ltb_spec (maxy box) yy); [|lia].
        repeat split; eexists; (split; [right; done|done]).
      * destruct H1 as (y1 & Hs1 & Hd1), H2 as (y2 & Hs2 & Hd2),
          H3 as (x3 & Hs3 & Hd3), H4 as (x4 & Hs4 & Hd4).
        split; [|split; [|split]].
        -- destruct (Z.ltb_spec xx (minx box));
             [exists yy; split; [right; done|done]
             |exists y1; split; [left; done|done]].
        -- destruct (Z.ltb_spec (maxx box) xx);
             [exists yy; split; [right; done|done]
             |exists y2; split; [left; done|done]].
        -- destruct (Z.ltb_spec yy (miny box));
             [exists xx; split; [right; done|done]
             |exists x3; split; [left; done|done]].
        -- destruct (Z.ltb_spec (maxy box) yy);
             [exists xx; split; [right; done|done]
             |exists x4; split; [left; done|done]].
  - (* the pixel is equal under the mask: the box stays *)
    simpl. split; [done|]. split.
    + intros x y [Hs|[-> ->]] Hdx; [by apply Hcov|congruence].
    + destruct Halt as [[Hbox Hno]|(H1 & H2 & H3 & H4)].
      * left. split; [done|]. intros x y [Hs|[-> ->]]; [by apply Hno|done].
      * right.
        destruct H1 as (y1 & Hs1 & Hd1), H2 as (y2 & Hs2 & Hd2),
          H3 as (x3 & Hs3 & Hd3), H4 as (x4 & Hs4 & Hd4).
        repeat split; eexists; (split; [left|]); eassumption.
Qed.

(** One row more. *)
Lemma cmp_pixels_bounds (yy : Z) (xs : list Z) :
  0 <= yy < H -> Forall (fun x => 0 <= x < W) xs ->
  forall (S : Z -> Z -> Prop) (box : bbox),
  bounds_differences W H S (differs_at a b mask) box ->
  bounds_differences W H (fun x y => S x y \/ (In x xs /\ y = yy)) (differs_at a b mask)
    (fold_left (cmp_pixel a b mask yy) xs box).
Proof.
  intros Hyy. induction 1 as [|xx xs Hxx _ IH]; intros S box Hinv; simpl.
  - eapply bounds_differences_ext; [|exact Hinv]. intros x y. tauto.
  - eapply bounds_differences_ext;
      [|apply IH, (cmp_pixel_bounds S box xx yy Hxx Hyy Hinv)].
    intros x y. simpl. intuition congruence.
Qed.

Lemma cmp_rows_bounds (xs ys : list Z) :
  Forall (fun x => 0 <= x < W) xs -> Forall (fun y => 0 <= y < H) ys ->
  forall (S : Z -> Z -> Prop) (box : bbox),
  bounds_differences W H S (differs_at a b mask) box ->
  bounds_differences W H (fun x y => S x y \/ (In x xs /\ In y ys)) (differs_at a b mask)
    (fold_left (fun bx yy => fold_left (cmp_pixel a b mask yy) xs bx) ys box).
Proof.
  intros Hxs. induction 1 as [|yy ys Hyy _ IH]; intros S box Hinv; simpl.
  - eapply bounds_differences_ext; [|exact Hinv]. intros x y. tauto.
  - eapply bounds_differences_ext;
      [|apply IH, (cmp_pixels_bounds yy xs Hyy Hxs S box Hinv)].
    intros x y. simpl. intuition congruence.
Qed.

Lemma for_range_unit (n x : Z) : In x (for_range 0 n 1) <-> 0 <= x < n.
Proof.
  rewrite for_range_spec by lia. split.
  - intros (k & Hk & -> & Hlt). lia.
  - intros Hx. exists x. lia.
Qed.

End StandInCompare.

(** The box after the two loops of the stand-in compare. *)
Lemma cmp_all_bounds (a b : LICE_IBitmap) (mask : LICE_pixel) :
  0 <= getWidth a -> 0 <= getHeight a ->
  bounds_differences (getWidth a) (getHeight a) (in_frame a)
    (differs_at a b mask)
    (fold_left (cmp_row a b mask) (for_range 0 (getHeight a) 1)
       (empty_box (getWidth a) (getHeight a))).
Proof.
  intros HW HH.
  assert (Hrows : forall n, Forall (fun x => 0 <= x < n) (for_range 0 n 1)).
  { intros n. apply Forall_forall. intros x Hx.
    apply for_range_unit. by apply list_elem_of_In. }
  pose proof (cmp_rows_bounds a b mask (getWidth a) (getHeight a)
                (for_range 0 (getWidth a) 1) (for_range 0 (getHeight a) 1)
                (Hrows _) (Hrows _) (fun _ _ => False)
                (empty_box (getWidth a) (getHeight a))) as Hinv.
  eapply bounds_differences_ext; [|apply Hinv].
  - intros x y. unfold in_frame. rewrite !for_range_unit. tauto.
  - split; [simpl; lia|]. split; [done|]. left. done.
Qed.

Lemma stand_in_compare_box (a b : LICE_IBitmap)
    (mask : LICE_pixel) :
  getWidth a = getWidth b -> getHeight a = getHeight b ->
  0 < getWidth a -> 0 < getHeight a -> getBits a <> [] -> getBits b <> [] ->
  ((forall x y, in_frame a x y -> differs_at a b mask x y = false)
   /\ simple_BitmapCmpEx (Some a) (Some b) mask = (0, (0, 0, 0, 0)))
  \/ (exists x y w h,
        simple_BitmapCmpEx (Some a) (Some b) mask = (1, (x, y, w, h))
        /\ 0 <= x /\ 0 <= y /\ 0 < w /\ 0 < h
        /\ x + w <= getWidth a /\ y + h <= getHeight a
        /\ (forall x' y', in_frame a x' y' ->
              differs_at a b mask x' y' = true ->
              x <= x' < x + w /\ y <= y' < y + h)
        /\ (exists y', in_frame a x y' /\ differs_at a b mask x y' = true)
        /\ (exists y', in_frame a (x + w - 1) y'
                       /\ differs_at a b mask (x + w - 1) y' = true)
        /\ (exists x', in_frame a x' y /\ differs_at a b mask x' y = true)
        /\ (exists x', in_frame a x' (y + h - 1)
                       /\ differs_at a b mask x' (y + h - 1) = true)).
Proof.
  intros Hw Hh HW HH Hna Hnb. unfold simple_BitmapCmpEx.
  rewrite <- Hw, <- Hh, !Z.eqb_refl. simpl negb. simpl orb.
  assert (Hnull : null_bits a || null_bits b || (getWidth a <=? 0)
                  || (getHeight a <=? 0) = false).
  { unfold null_bits. destruct (getBits a); [done|].
    destruct (getBits b); [done|]. simpl.
    destruct (Z.leb_spec (getWidth a) 0); [lia|].
    destruct (Z.leb_spec (getHeight a) 0); [lia|]. done. }
  rewrite Hnull.
  pose proof (cmp_all_bounds a b mask ltac:(lia) ltac:(lia))
    as (Hb & Hcov & Halt).
  change {| minx := getWidth a; miny := getHeight a; maxx := -1; maxy := -1 |}
    with (empty_box (getWidth a) (getHeight a)).
  set (box := fold_left (cmp_row a b mask) (for_range 0 (getHeight a) 1)
                (empty_box (getWidth a) (getHeight a))) in *.
  destruct Halt as [[Hbox Hno]|(H1 & H2 & H3 & H4)].
  - left. split; [done|]. rewrite Hbox. simpl.
    destruct (Z.ltb_spec (-1) (getWidth a)); [done|lia].
  - right.
    destruct H1 as (y1 & Hs1 & Hd1), H2 as (y2 & Hs2 & Hd2),
      H3 as (x3 & Hs3 & Hd3), H4 as (x4 & Hs4 & Hd4).
    pose proof (Hcov _ _ Hs1 Hd1) as C1. pose proof (Hcov _ _ Hs3 Hd3) as C3.
    destruct (Z.ltb_spec (maxx box) (minx box)); [lia|].
    destruct (Z.ltb_spec (maxy box) (miny box)); [lia|]. simpl.
    exists (minx box), (miny box), (maxx box - minx box + 1),
      (maxy box - miny box + 1).
    split; [done|].
    replace (minx box + (maxx box - minx box + 1) - 1) with (maxx box) by lia.
    replace (miny box + (maxy box - miny box + 1) - 1) with (maxy box) by lia.
    repeat (split; [lia|]).
    split; [intros x' y' Hin Hd; specialize (Hcov x' y' Hin Hd); lia|].
    split; [by exists y1|]. split; [by exists y2|].
    split; [by exists x3|]. by exists x4.
Qed.

(** X27.  The stand-in compare on two bitmaps of the same positive size with
    pixel buffers: either no pixel of the frame differs under the mask and
    it reports 0 with a zeroed box, or it reports 1 with a box that lies in
    the frame, holds every differing pixel and is tight: each of its four
    edges passes through a differing pixel. *)
Theorem stand_in_compare_bounding_box (a b : LICE_IBitmap)
    (mask : LICE_pixel) :
  getWidth a = getWidth b -> getHeight a = getHeight b ->
  0 < getWidth a -> 0 < getHeight a -> getBits a <> [] -> getBits b <> [] ->
  ((forall x y, in_frame a x y -> differs_at a b mask x y = false)
   /\ simple_BitmapCmpEx (Some a) (Some b) mask = (0, (0, 0, 0, 0)))
  \/ (exists x y w h,
        simple_BitmapCmpEx (Some a) (Some b) mask = (1, (x, y, w, h))
        /\ 0 <= x /\ 0 <= y /\ 0 < w /\ 0 < h
        /\ x + w <= getWidth a /\ y + h <= getHeight a
        /\ (forall x' y', in_frame a x' y' ->
              differs_at a b mask x' y' = true ->
              x <= x' < x + w /\ y <= y' < y + h)
        /\ (exists y', in_frame a x y' /\ differs_at a b mask x y' = true)
        /\ (exists y', in_frame a (x + w - 1) y'
                       /\ differs_at a b mask (x + w - 1) y' = true)
        /\ (exists x', in_frame a x' y /\ differs_at a b mask x' y = true)
        /\ (exists x', in_frame a x' (y + h - 1)
                       /\ differs_at a b mask x' (y + h - 1) = true)).
Proof. apply stand_in_compare_box. Qed.

(** X28.  With the stand-in compare, two bitmaps that differ at exactly one
    pixel under the mask score [1 - 1 / (w * h)] on the fast path (exact
    comparison, both steps 1, no region): the box of the differences is that
    one pixel. *)
Theorem single_pixel_difference_on_fast_path (a b : LICE_IBitmap)
    (cfg : DuplicateFrameRemovalSettings) (x0 y0 : Z) :
  getWidth a = getWidth b -> getHeight a = getHeight b ->
  0 < getWidth a -> 0 < getHeight a -> getBits a <> [] -> getBits b <> [] ->
  per_channel_tolerance cfg <= 0 ->
  sample_step_x cfg = 1 -> sample_step_y cfg = 1 ->
  in_frame a x0 y0 ->
  (forall x y, in_frame a x y ->
     (differs_at a b (channel_mask cfg) x y = true <-> x = x0 /\ y = y0)) ->
  @CalculateSimilarity lice_simple (Some a) (Some b) None cfg
  = clamp01 (dbl_sub dbl_1 (ratio 1 (getWidth a * getHeight a))).
Proof.
  intros Hw Hh HW HH Hna Hnb Htol Hsx Hsy Hin Hone.
  assert (Hroi : compute_roi (Some a) (Some b) None
                 = RECT.mk 0 0 (getWidth a) (getHeight a)).
  { unfold compute_roi. by rewrite <- Hw, <- Hh, !Z.ltb_irrefl. }
  assert (Hfast : fast_path_cond a (RECT.mk 0 0 (getWidth a) (getHeight a)) cfg
                  = true).
  { unfold fast_path_cond. simpl. rewrite Hsx, Hsy, !Z.eqb_refl.
    by destruct (Z.leb_spec (per_channel_tolerance cfg) 0); [|lia]. }
  unfold CalculateSimilarity. rewrite Hroi.
  cbn [RECT.left RECT.right RECT.top RECT.bottom].
  rewrite <- Hw, <- Hh, !Z.eqb_refl, !Z.sub_0_r.
  destruct (Z.leb_spec (getWidth a) 0); [lia|].
  destruct (Z.leb_spec (getHeight a) 0); [lia|]. cbn [negb orb].
  rewrite Hfast. unfold fast_path.
  change (@LICE_BitmapCmpEx lice_simple) with simple_BitmapCmpEx.
  destruct (stand_in_compare_box a b (channel_mask cfg) Hw Hh HW HH Hna Hnb)
    as [[Hno _]|(x & y & w & h & -> & Hx & Hy & Hw0 & Hh0 & Hxw & Hyh
                 & Hcov & (y1 & Hi1 & Hd1) & (y2 & Hi2 & Hd2)
                 & (x3 & Hi3 & Hd3) & (x4 & Hi4 & Hd4))].
  - pose proof (proj2 (Hone x0 y0 Hin) (conj eq_refl eq_refl)) as Hd.
    rewrite (Hno x0 y0 Hin) in Hd. done.
  - apply (Hone _ _ Hi1) in Hd1 as [Hx1 _].
    apply (Hone _ _ Hi2) in Hd2 as [Hx2 _].
    apply (Hone _ _ Hi3) in Hd3 as [_ Hy3].
    apply (Hone _ _ Hi4) in Hd4 as [_ Hy4].
    assert (w = 1) as -> by lia. assert (h = 1) as -> by lia.
    simpl Z.eqb. cbv iota.
    destruct (Z.leb_spec (getWidth a * getHeight a) 0); [nia|].
    reflexivity.
Qed.

(** * The test bitmap *)

Lemma lookup_repeat {A : Type} (v : A) (n : nat) :
  forall i, (i < n)%nat -> repeat v n !! i = Some v.
Proof.
  induction n as [|n IH]; intros i Hi; [lia|].
  destruct i as [|i]; simpl; [done|]. apply IH. lia.
Qed.

Section SimpleBitmapFacts.
Context `{LICE}.

Lemma resize_is_packed (w h : Z) :
  SimpleBitmap.packed (SimpleBitmap.resize w h).
Proof.
  unfold SimpleBitmap.packed, SimpleBitmap.resize. simpl.
  rewrite repeat_length.
  destruct (Z.ltb_spec w 0), (Z.ltb_spec h 0);
    repeat match goal with |- context [0 <? ?v] => destruct (Z.ltb_spec 0 v) end;
    repeat split; try lia; rewrite Z2Nat.id; nia.
Qed.

Lemma setPixel_keeps_packed (bm : SimpleBitmap.t) (x y : Z)
    (px : LICE_pixel) :
  SimpleBitmap.packed bm -> SimpleBitmap.packed (SimpleBitmap.setPixel bm x y px).
Proof.
  unfold SimpleBitmap.packed, SimpleBitmap.setPixel.
  destruct (SimpleBitmap.outside bm x y); [done|]. simpl.
  by rewrite length_insert.
Qed.

Lemma outside_iff (bm : SimpleBitmap.t) (x y : Z) :
  SimpleBitmap.outside bm x y = false <-> 0 <= x < SimpleBitmap.w_ bm /\ 0 <= y < SimpleBitmap.h_ bm.
Proof.
  unfold SimpleBitmap.outside.
  destruct (Z.ltb_spec x 0), (Z.ltb_spec y 0), (Z.leb_spec (SimpleBitmap.w_ bm) x),
    (Z.leb_spec (SimpleBitmap.h_ bm) y); simpl; split; (done || lia).
Qed.

(** X29.  A test bitmap made by [resize] is tightly packed with non-negative
    dimensions, and [fill] and [setPixel] keep it so.  Filled with one pixel
    value it is the solid bitmap [make_solid] that the properties above are
    exercised on, and every pixel inside it reads that value. *)
Theorem SimpleBitmap_construction (w h x y : Z) (px qx : LICE_pixel)
    (bm : SimpleBitmap.t) :
  SimpleBitmap.packed (SimpleBitmap.resize w h)
  /\ (SimpleBitmap.packed bm ->
      SimpleBitmap.packed (SimpleBitmap.fill bm px)
      /\ SimpleBitmap.packed (SimpleBitmap.setPixel bm x y qx))
  /\ SimpleBitmap.view (SimpleBitmap.make_solid w h px)
     = make_solid (Z.max 0 w) (Z.max 0 h) px
  /\ (0 <= x < w -> 0 <= y < h ->
      SimpleBitmap.getPixel (SimpleBitmap.make_solid w h px) x y = px).
Proof.
  split; [apply resize_is_packed|]. split; [|split].
  - intros Hp. split; [|by apply setPixel_keeps_packed].
    unfold SimpleBitmap.packed, SimpleBitmap.fill in *. simpl.
    by rewrite repeat_length.
  - unfold SimpleBitmap.view, SimpleBitmap.make_solid, SimpleBitmap.fill,
      SimpleBitmap.resize, make_solid. simpl. rewrite repeat_length.
    destruct (Z.ltb_spec w 0), (Z.ltb_spec h 0);
      repeat match goal with
             | |- context [0 <? ?v] => destruct (Z.ltb_spec 0 v)
             end;
      f_equal; try lia; f_equal;
      rewrite ?Z.mul_0_l, ?Z.mul_0_r; try lia;
      try (replace (Z.max 0 w) with w by lia);
      try (replace (Z.max 0 h) with h by lia);
      try (replace (Z.max 0 w) with 0 by lia);
      try (replace (Z.max 0 h) with 0 by lia);
      rewrite ?Z.mul_0_l, ?Z.mul_0_r; try done;
      destruct (w * 0); done.
  - intros Hx Hy.
    unfold SimpleBitmap.getPixel, SimpleBitmap.make_solid, SimpleBitmap.fill,
      SimpleBitmap.resize, SimpleBitmap.outside. simpl.
    rewrite repeat_length.
    destruct (Z.ltb_spec w 0); [lia|]. destruct (Z.ltb_spec h 0); [lia|].
    destruct (Z.ltb_spec 0 w); [|lia].
    destruct (Z.ltb_spec x 0); [lia|]. destruct (Z.ltb_spec y 0); [lia|].
    destruct (Z.leb_spec w x); [lia|]. destruct (Z.leb_spec h y); [lia|].
    simpl.
    assert (Hlt : (Z.to_nat (y * w + x) < Z.to_nat (w * h))%nat)
      by (apply Z2Nat.inj_lt; nia).
    by rewrite lookup_repeat.
Qed.

(** X30.  On a packed test bitmap a pixel written inside the bitmap is read
    back, every other pixel reads as before, and a write outside the bitmap
    changes nothing; a read outside gives [LICE_RGBA(0,0,0,0)].  Inside the
    bitmap [getPixel] reads the pixel the similarity scan reads at that
    position, and [setPixel] replaces that pixel. *)
Theorem SimpleBitmap_pixel_round_trip (bm : SimpleBitmap.t) (x y x' y' : Z)
    (px : LICE_pixel) :
  SimpleBitmap.packed bm ->
  (0 <= x < SimpleBitmap.w_ bm /\ 0 <= y < SimpleBitmap.h_ bm ->
     SimpleBitmap.getPixel (SimpleBitmap.setPixel bm x y px) x y = px
     /\ SimpleBitmap.getPixel bm x y
        = peek (getBits (SimpleBitmap.view bm))
            (pixel_offset (SimpleBitmap.view bm) x y)
     /\ SimpleBitmap.view (SimpleBitmap.setPixel bm x y px)
        = set_pixel (SimpleBitmap.view bm) x y px)
  /\ (x' <> x \/ y' <> y ->
      SimpleBitmap.getPixel (SimpleBitmap.setPixel bm x y px) x' y'
      = SimpleBitmap.getPixel bm x' y')
  /\ (~ (0 <= x < SimpleBitmap.w_ bm /\ 0 <= y < SimpleBitmap.h_ bm) ->
      SimpleBitmap.setPixel bm x y px = bm
      /\ SimpleBitmap.getPixel bm x y = LICE_RGBA 0 0 0 0).
Proof.
  intros (Hw & Hh & Hspan & Hlen). split; [|split].
  - intros Hin. pose proof (proj2 (outside_iff bm x y) Hin) as Ho.
    assert (Hoff : 0 <= y * SimpleBitmap.row_span_ bm + x < SimpleBitmap.w_ bm * SimpleBitmap.h_ bm)
      by (rewrite Hspan; nia).
    split; [|split].
    + unfold SimpleBitmap.getPixel, SimpleBitmap.setPixel. rewrite Ho.
      unfold SimpleBitmap.outside in *. simpl. rewrite Ho. simpl.
      rewrite list_lookup_insert_eq; [done|].
      unfold LICE_pixel in *. lia.
    + unfold SimpleBitmap.getPixel. rewrite Ho.
      unfold peek, pixel_offset, row_origin, row_stride. simpl.
      rewrite Z.add_0_l.
      by destruct (Z.ltb_spec (y * SimpleBitmap.row_span_ bm + x) 0); [lia|].
    + unfold SimpleBitmap.setPixel, set_pixel. rewrite Ho.
      unfold pixel_offset, row_origin, row_stride. simpl. rewrite Z.add_0_l.
      by destruct (Z.ltb_spec (y * SimpleBitmap.row_span_ bm + x) 0); [lia|].
  - intros Hne. unfold SimpleBitmap.getPixel, SimpleBitmap.setPixel.
    destruct (SimpleBitmap.outside bm x y) eqn:Ho; [done|].
    apply outside_iff in Ho.
    change (SimpleBitmap.outside _ x' y') with (SimpleBitmap.outside bm x' y').
    destruct (SimpleBitmap.outside bm x' y') eqn:Ho'; [done|].
    apply outside_iff in Ho'. simpl.
    rewrite list_lookup_insert_ne; [done|].
    intros Heq. rewrite Hspan in Heq.
    apply Z2Nat.inj in Heq; [|nia|nia].
    assert (Hy : y' = y)
      by (destruct (Z.lt_total y' y) as [?|[?|?]]; [nia|done|nia]).
    subst y'. lia.
  - intros Hout.
    assert (Ho : SimpleBitmap.outside bm x y = true).
    { destruct (SimpleBitmap.outside bm x y) eqn:Ho; [done|].
      by apply outside_iff in Ho. }
    unfold SimpleBitmap.setPixel, SimpleBitmap.getPixel. by rewrite Ho.
Qed.
End SimpleBitmapFacts.

(** * The further properties on concrete inputs *)

(** The six frames A A B B B C with the delays left as they are. *)
Lemma dont_adjust_output_is_sublist_witness :
  let cfg := with_delay_mode default_settings kDontAdjust in
  let r := @RemoveDuplicateFrames lice_simple six_frames empty_frames cfg
             empty_indices in
  output_frames r = keep_positions 0 (removed_list r) six_frames.
Proof.
  apply (@dont_adjust_output_is_sublist lice_simple
           (with_delay_mode default_settings kDontAdjust)).
  reflexivity.
Defined.

(** Frames without a bitmap are duplicates of nothing. *)
Lemma no_consecutive_duplicates_unchanged_witness :
  let r := @RemoveDuplicateFrames lice_simple bitmapless_frames empty_frames
             default_settings empty_indices in
  removed_count r = 0 /\ output_frames r = bitmapless_frames
  /\ removed_list r = [].
Proof.
  apply (@no_consecutive_duplicates_unchanged lice_simple default_settings).
  vm_compute. repeat split; reflexivity.
Defined.

(** The six frames last 750 ms before and after the collapse. *)
Lemma sum_mode_total_delay_conserved_witness :
  delay_total
    (output_frames
       (@RemoveDuplicateFrames lice_simple six_frames empty_frames
          default_settings None))
  = delay_total six_frames.
Proof.
  apply (@sum_mode_total_delay_conserved lice_simple default_settings).
  - reflexivity.
  - unfold delays_nonneg, six_frames. repeat constructor; simpl; lia.
  - vm_compute. reflexivity.
Defined.

(** The runs A A, B B B, C with the means 105, 130, 150. *)
Lemma average_mode_delay_is_run_mean_witness :
  let cfg := with_delay_mode default_settings kAverage in
  Forall2 (carries_run_mean (keep_mode cfg)) (@runs lice_simple cfg six_frames)
    (output_frames
       (@RemoveDuplicateFrames lice_simple six_frames empty_frames cfg None)).
Proof.
  apply (@average_mode_delay_is_run_mean lice_simple
           (with_delay_mode default_settings kAverage)).
  - reflexivity.
  - unfold delays_nonneg, six_frames. repeat constructor; simpl; lia.
  - vm_compute. reflexivity.
  - vm_compute. reflexivity.
Defined.

(** Black and white under a tolerance of 255. *)
Lemma pixels_equal_always_witness :
  @pixels_equal lice_simple 0 4294967295 (with_tolerance default_settings 255)
  = true.
Proof.
  apply (@pixels_equal_always lice_simple). right. simpl. lia.
Defined.

(** Two greys one step apart, equal under the tolerance 1 and so under 2. *)
Lemma pixels_equal_relaxed_witness :
  @pixels_equal lice_simple 100 101 (with_tolerance default_settings 2) = true.
Proof.
  apply (@pixels_equal_relaxed lice_simple 100 101
           (with_tolerance default_settings 1)).
  - reflexivity.
  - left. split; [simpl; lia|]. intros c Hc. exact Hc.
Defined.

(** Six frames and three indices added to arrays of capacity 3. *)
Lemma dynamic_array_growth_witness :
  (FrameArray.frames (frame_array_of 3 six_frames) = six_frames
   /\ FrameArray.count (frame_array_of 3 six_frames)
        <= FrameArray.capacity (frame_array_of 3 six_frames)
        <= Z.max 3 (Z.max 16 (2 * FrameArray.count (frame_array_of 3 six_frames)))
   /\ FrameArray_Free (frame_array_of 3 six_frames) = frame_array_of 0 [])
  /\ (IndexArray.indices (index_array_of 3 [1; 3; 4]) = [1; 3; 4]
      /\ IndexArray.count (index_array_of 3 [1; 3; 4])
           <= IndexArray.capacity (index_array_of 3 [1; 3; 4])
           <= Z.max 3 (Z.max 16 (2 * IndexArray.count (index_array_of 3 [1; 3; 4])))
      /\ IndexArray_Free (index_array_of 3 [1; 3; 4]) = index_array_of 0 []).
Proof. apply (dynamic_array_growth 3 six_frames [1; 3; 4]). lia. Defined.

(** A request that sticks out of a 2 x 2 frame on three sides, with its
    bottom above its top. *)
Lemma compute_roi_within_bounds_witness :
  let a := Some bitmap_A in
  let b := Some bitmap_B in
  let roi := Some (RECT.mk (-5) 1 7 0) in
  rect_within (Z.min (bitmap_width a) (bitmap_width b))
    (Z.min (bitmap_height a) (bitmap_height b)) (compute_roi a b roi)
  /\ (a = None \/ b = None -> compute_roi a b roi = RECT.mk 0 0 0 0).
Proof.
  apply (compute_roi_within_bounds (Some bitmap_A) (Some bitmap_B)
           (Some (RECT.mk (-5) 1 7 0))); simpl; lia.
Defined.

Lemma compute_roi_idempotent_witness :
  let a := Some bitmap_A in
  let b := Some bitmap_B in
  let roi := Some (RECT.mk (-5) 1 7 0) in
  (rect_within (Z.min (bitmap_width a) (bitmap_width b))
     (Z.min (bitmap_height a) (bitmap_height b)) (RECT.mk 0 1 2 2) ->
   compute_roi a b (Some (RECT.mk 0 1 2 2)) = RECT.mk 0 1 2 2)
  /\ compute_roi a b (Some (compute_roi a b roi)) = compute_roi a b roi.
Proof.
  apply (compute_roi_idempotent (Some bitmap_A) (Some bitmap_B)
           (Some (RECT.mk (-5) 1 7 0)) (RECT.mk 0 1 2 2)); simpl; lia.
Defined.

Lemma similarity_symmetric_witness :
  let a := Some (strip [0; 0; 0; 0]) in
  let b := Some (strip [0; 4294967295; 0; 0]) in
  let cfg := settings_with 1 1 1 kDuplicateKeepFirst true in
  @CalculateSimilarity lice_simple a b None cfg
  = @CalculateSimilarity lice_simple b a None cfg.
Proof.
  apply (@similarity_symmetric lice_simple). vm_compute. discriminate.
Defined.



(** Duplicates at the threshold 0.9 are duplicates at 0.5. *)
Lemma lower_threshold_keeps_duplicates_witness :
  fst (@IsDuplicateFrame lice_simple (FrameInfo.make 0 (Some bitmap_A) 100)
         (FrameInfo.make 1 (Some bitmap_A) 110)
         (with_threshold default_settings dbl_half)) = true.
Proof.
  apply (@lower_threshold_keeps_duplicates lice_simple).
  - split; simpl; lia.
  - reflexivity.
  - reflexivity.
Defined.

(** Greys one step apart are duplicates under the tolerance 1 and so under
    the tolerance 5. *)
Lemma larger_tolerance_keeps_duplicates_witness :
  fst (@IsDuplicateFrame lice_simple (FrameInfo.make 0 (Some (grey 100)) 10)
         (FrameInfo.make 1 (Some (grey 101)) 20)
         (with_tolerance (with_tolerance default_settings 1) 5)) = true.
Proof.
  apply (@larger_tolerance_keeps_duplicates lice_simple).
  - split; simpl; lia.
  - simpl. lia.
  - reflexivity.
Defined.

(** Four pixels in a row of which the second differs: the box is that
    pixel. *)
Lemma stand_in_compare_bounding_box_witness :
  let a := strip [0; 0; 0; 0] in
  let b := strip [0; 4294967295; 0; 0] in
  let mask := channel_mask default_settings in
  ((forall x y, in_frame a x y -> differs_at a b mask x y = false)
   /\ simple_BitmapCmpEx (Some a) (Some b) mask = (0, (0, 0, 0, 0)))
  \/ (exists x y w h,
        simple_BitmapCmpEx (Some a) (Some b) mask = (1, (x, y, w, h))
        /\ 0 <= x /\ 0 <= y /\ 0 < w /\ 0 < h
        /\ x + w <= getWidth a /\ y + h <= getHeight a
        /\ (forall x' y', in_frame a x' y' ->
              differs_at a b mask x' y' = true ->
              x <= x' < x + w /\ y <= y' < y + h)
        /\ (exists y', in_frame a x y' /\ differs_at a b mask x y' = true)
        /\ (exists y', in_frame a (x + w - 1) y'
                       /\ differs_at a b mask (x + w - 1) y' = true)
        /\ (exists x', in_frame a x' y /\ differs_at a b mask x' y = true)
        /\ (exists x', in_frame a x' (y + h - 1)
                       /\ differs_at a b mask x' (y + h - 1) = true)).
Proof.
  apply (stand_in_compare_bounding_box (strip [0; 0; 0; 0])
           (strip [0; 4294967295; 0; 0]) (channel_mask default_settings));
    try reflexivity; try (simpl; lia); discriminate.
Defined.

Lemma single_pixel_difference_on_fast_path_witness :
  @CalculateSimilarity lice_simple (Some (strip [0; 0; 0; 0]))
    (Some (strip [0; 4294967295; 0; 0])) None default_settings
  = clamp01 (dbl_sub dbl_1 (ratio 1 (4 * 1))).
Proof.
  apply (single_pixel_difference_on_fast_path (strip [0; 0; 0; 0])
           (strip [0; 4294967295; 0; 0]) default_settings 1 0);
    try reflexivity; try (simpl; lia); try discriminate.
  - split; simpl; lia.
  - intros x y [Hx Hy]. simpl in Hx, Hy.
    assert (Hy0 : y = 0) by lia. subst y.
    assert (Hc : x = 0 \/ x = 1 \/ x = 2 \/ x = 3) by lia.
    destruct Hc as [->|[->|[->| ->]]]; vm_compute;
      split; try done; intros [? ?]; done.
Defined.

(** A 3 x 2 test bitmap. *)
Lemma SimpleBitmap_pixel_round_trip_witness :
  let bm := @SimpleBitmap.make_solid lice_simple 3 2 7 in
  (0 <= 1 < SimpleBitmap.w_ bm /\ 0 <= 1 < SimpleBitmap.h_ bm ->
     @SimpleBitmap.getPixel lice_simple
       (SimpleBitmap.setPixel bm 1 1 9) 1 1 = 9
     /\ @SimpleBitmap.getPixel lice_simple bm 1 1
        = peek (getBits (SimpleBitmap.view bm))
            (pixel_offset (SimpleBitmap.view bm) 1 1)
     /\ SimpleBitmap.view (SimpleBitmap.setPixel bm 1 1 9)
        = set_pixel (SimpleBitmap.view bm) 1 1 9)
  /\ (2 <> 1 \/ 0 <> 1 ->
      @SimpleBitmap.getPixel lice_simple
        (SimpleBitmap.setPixel bm 1 1 9) 2 0
      = @SimpleBitmap.getPixel lice_simple bm 2 0)
  /\ (~ (0 <= 1 < SimpleBitmap.w_ bm /\ 0 <= 1 < SimpleBitmap.h_ bm) ->
      SimpleBitmap.setPixel bm 1 1 9 = bm
      /\ @SimpleBitmap.getPixel lice_simple bm 1 1
         = @LICE_RGBA lice_simple 0 0 0 0).
Proof.
  apply (@SimpleBitmap_pixel_round_trip lice_simple
           (@SimpleBitmap.make_solid lice_simple 3 2 7) 1 1 2 0 9).
  unfold SimpleBitmap.packed. simpl. lia.
Defined.

(** * The manual scan on 32-bit integers *)

(** ** Where the exact arithmetic is the arithmetic of the source *)

Lemma valid_bitmap_int_sized (bm : LICE_IBitmap) :
  valid_bitmap bm ->
  0 <= getWidth bm < 2 ^ 31 /\ 0 <= getHeight bm < 2 ^ 31.
Proof. unfold valid_bitmap. lia. Qed.

(** Inside a valid bitmap the offset of a pixel needs no reduction and lies
    in the buffer. *)
Lemma valid_pixel_offset (bm : LICE_IBitmap) (xx yy : Z) :
  valid_bitmap bm -> 0 <= xx < getWidth bm -> 0 <= yy < getHeight bm ->
  pixel_offset_int bm xx yy = pixel_offset bm xx yy
  /\ 0 <= pixel_offset bm xx yy < Z.of_nat (length (getBits bm)).
Proof.
  intros (Hw & Hh & Hs & Hsz & Hlen) Hx Hy.
  unfold pixel_offset_int, pixel_offset, row_origin_int, row_stride_int,
    row_origin, row_stride.
  destruct (isFlipped bm).
  - rewrite (wrap_int_id (getHeight bm - 1)) by (unfold int_range; lia).
    rewrite (wrap_int_id (- getRowSpan bm)) by (unfold int_range; lia).
    rewrite (wrap_int_id (getRowSpan bm * (getHeight bm - 1)))
      by (unfold int_range; nia).
    rewrite (wrap_int_id (yy * - getRowSpan bm)) by (unfold int_range; nia).
    split; [done|]. nia.
  - rewrite (wrap_int_id (yy * getRowSpan bm)) by (unfold int_range; nia).
    split; [done|]. nia.
Qed.

Lemma peek_checked_valid (bm : LICE_IBitmap) (xx yy : Z) :
  valid_bitmap bm -> 0 <= xx < getWidth bm -> 0 <= yy < getHeight bm ->
  peek_checked (getBits bm) (pixel_offset_int bm xx yy)
  = Some (peek (getBits bm) (pixel_offset bm xx yy)).
Proof.
  intros Hv Hx Hy.
  destruct (valid_pixel_offset bm xx yy Hv Hx Hy) as (-> & Hlo & Hhi).
  unfold peek_checked, peek.
  destruct (Z.ltb_spec (pixel_offset bm xx yy) 0) as [|_]; [lia|].
  destruct (getBits bm !! Z.to_nat (pixel_offset bm xx yy)) eqn:Hl; [done|].
  apply lookup_ge_None in Hl. unfold LICE_pixel in *. lia.
Qed.

Section ScanInt.
Context `{LICE}.
Variables (a b : LICE_IBitmap) (cfg : DuplicateFrameRemovalSettings).
Hypothesis valid_a : valid_bitmap a.
Hypothesis valid_b : valid_bitmap b.
Hypothesis same_width : getWidth a = getWidth b.
Hypothesis same_height : getHeight a = getHeight b.

Lemma scan_pixel_int_valid (n yy xx : Z) (st : scan) :
  0 <= xx < getWidth a -> 0 <= yy < getHeight a ->
  scan_pixel_int a b cfg n yy xx st = returned (scan_pixel a b cfg n yy xx st).
Proof.
  intros Hx Hy. unfold scan_pixel_int.
  rewrite (peek_checked_valid a), (peek_checked_valid b) by (done || lia).
  done.
Qed.

(** The inner loop: as long as one step past the last column is an [int],
    the counter takes the values of the exact loop and every read is inside
    the buffers. *)
Lemma scan_row_int_fits (total yy right sX : Z) :
  0 <= yy < getHeight a -> right <= getWidth a -> 0 < sX ->
  right + sX <= 2 ^ 31 ->
  forall (n : nat) (xx : Z) (st : scan),
  0 <= xx -> (Z.to_nat (right - xx) <= n)%nat ->
  scan_row_int (S n) a b cfg total yy xx right sX st
  = returned (scan_row a b cfg total yy (for_steps n xx right sX) st).
Proof.
  intros Hy Hr Hs Hfit. induction n as [|n IH]; intros xx st Hx Hn.
  - cbn [scan_row_int for_steps scan_row].
    by destruct (Z.ltb_spec xx right) as [|_]; [lia|].
  - cbn [scan_row_int for_steps].
    destruct (Z.ltb_spec xx right) as [Hlt|_]; [|done].
    cbn [scan_row]. rewrite scan_pixel_int_valid by lia.
    destruct (scan_pixel a b cfg total yy xx st) as [st'|st']; [|done].
    rewrite (wrap_int_id (xx + sX)) by (unfold int_range; lia).
    apply IH; lia.
Qed.

(** The outer loop, likewise. *)
Lemma scan_rows_int_fits (total left right sX bottom sY : Z) :
  0 <= left -> right <= getWidth a -> 0 < sX -> right + sX <= 2 ^ 31 ->
  bottom <= getHeight a -> 0 < sY -> bottom + sY <= 2 ^ 31 ->
  forall (m : nat) (yy : Z) (st : scan),
  0 <= yy -> (Z.to_nat (bottom - yy) <= m)%nat ->
  scan_rows_int (S m) (S (Z.to_nat (right - left))) a b cfg total
    left right sX yy bottom sY st
  = returned
      (scan_rows a b cfg total (for_range left right sX)
         (for_steps m yy bottom sY) st).
Proof.
  intros Hl Hr HsX HfX Hb HsY HfY.
  induction m as [|m IH]; intros yy st Hy Hm.
  - cbn [scan_rows_int for_steps scan_rows].
    by destruct (Z.ltb_spec yy bottom) as [|_]; [lia|].
  - cbn [scan_rows_int for_steps].
    destruct (Z.ltb_spec yy bottom) as [Hlt|_]; [|done].
    cbn [scan_rows].
    rewrite (scan_row_int_fits total yy right sX) by (done || lia).
    fold (for_range left right sX).
    destruct (scan_row a b cfg total yy (for_range left right sX) st)
      as [st'|st']; [|done].
    rewrite (wrap_int_id (yy + sY)) by (unfold int_range; lia).
    apply IH; lia.
Qed.

(** The manual scan over a region inside the bitmaps. *)
Lemma generic_scan_int_fits (r : RECT.t) :
  rect_within (getWidth a) (getHeight a) r ->
  steps_fit_int r cfg ->
  generic_scan_int a b r cfg = returned (generic_scan a b r cfg).
Proof.
  intros Hin [HfX HfY].
  destruct (valid_bitmap_int_sized a valid_a) as [Hw Hh].
  unfold rect_within in Hin. unfold effective_step in HfX, HfY.
  unfold generic_scan_int, generic_scan.
  set (sX := if 0 <? sample_step_x cfg then sample_step_x cfg else 1) in *.
  set (sY := if 0 <? sample_step_y cfg then sample_step_y cfg else 1) in *.
  assert (HsX : 0 < sX)
    by (unfold sX; destruct (Z.ltb_spec 0 (sample_step_x cfg)); lia).
  assert (HsY : 0 < sY)
    by (unfold sY; destruct (Z.ltb_spec 0 (sample_step_y cfg)); lia).
  rewrite (wrap_int_id (RECT.right r - RECT.left r))
    by (unfold int_range; lia).
  rewrite (wrap_int_id (RECT.bottom r - RECT.top r))
    by (unfold int_range; lia).
  rewrite (wrap_int_id (sX - 1)), (wrap_int_id (sY - 1))
    by (unfold int_range; lia).
  rewrite (wrap_int_id (RECT.right r - RECT.left r + (sX - 1)))
    by (unfold int_range; lia).
  rewrite (wrap_int_id (RECT.bottom r - RECT.top r + (sY - 1)))
    by (unfold int_range; lia).
  destruct (_ <=? 0); [done|].
  rewrite (scan_rows_int_fits _ (RECT.left r) (RECT.right r) sX
             (RECT.bottom r) sY) by lia.
  done.
Qed.
End ScanInt.

(** Whenever the bitmaps are valid and the loop counters stay [int]s, the
    call on 32-bit integers returns, and it returns the similarity computed
    with exact arithmetic. *)
Lemma CalculateSimilarity_int_exact `{LICE} (a b : option LICE_IBitmap)
    (roi : option RECT.t) (cfg : DuplicateFrameRemovalSettings) :
  valid_arg a -> valid_arg b ->
  steps_fit_int (compute_roi a b roi) cfg ->
  CalculateSimilarity_int a b roi cfg
  = returned (CalculateSimilarity a b roi cfg).
Proof.
  intros Ha Hb Hfit. unfold CalculateSimilarity_int, CalculateSimilarity.
  destruct a as [bma|], b as [bmb|]; try done.
  simpl in Ha, Hb.
  destruct (Z.eqb_spec (getWidth bma) (getWidth bmb)) as [Hw|]; [|done].
  destruct (Z.eqb_spec (getHeight bma) (getHeight bmb)) as [Hh|]; [|done].
  cbn [negb orb].
  destruct (valid_bitmap_int_sized bma Ha) as [Hwa Hha].
  pose proof (compute_roi_same_dims bma bmb roi Hw Hh ltac:(lia) ltac:(lia))
    as Hin.
  set (r := compute_roi (Some bma) (Some bmb) roi) in *.
  assert (Hin' := Hin). unfold rect_within in Hin'.
  rewrite (wrap_int_id (RECT.right r - RECT.left r))
    by (unfold int_range; lia).
  rewrite (wrap_int_id (RECT.bottom r - RECT.top r))
    by (unfold int_range; lia).
  destruct ((_ <=? 0) || (_ <=? 0)); [done|].
  destruct (fast_path_cond bma r cfg); [done|].
  by apply generic_scan_int_fits.
Qed.

(** The bound on the steps cannot be dropped.  The whole 4 x 4 frame with
    both steps [INT_MAX] and a difference at the pixel (0,0): in the source
    [rw + (sX - 1)] overflows to -2147483646, the sample count is 0 and the
    call returns 1.0 without a read, where exact arithmetic counts the one
    sample and scores 0.0. *)
Lemma exactness_needs_fitting_steps :
  wrap_int (4 + (sample_step_x (int_max_steps false) - 1)) = -2147483646
  /\ @CalculateSimilarity_int lice_simple (Some (make_solid 4 4 0))
       (Some (set_pixel (make_solid 4 4 0) 0 0 4294967295)) None
       (int_max_steps false)
     = returned dbl_1
  /\ @CalculateSimilarity lice_simple (Some (make_solid 4 4 0))
       (Some (set_pixel (make_solid 4 4 0) 0 0 4294967295)) None
       (int_max_steps false)
     = dbl_0.
Proof. vm_compute. repeat split; reflexivity. Qed.

(** ** The properties of the manual scan, on 32-bit integers *)

Lemma steps_fit_int_within (bm : LICE_IBitmap) (r : RECT.t)
    (cfg : DuplicateFrameRemovalSettings) :
  rect_within (getWidth bm) (getHeight bm) r ->
  steps_fit_int (frame_rect bm) cfg -> steps_fit_int r cfg.
Proof. unfold rect_within, steps_fit_int, frame_rect. simpl. lia. Qed.

Lemma set_pixel_valid (bm : LICE_IBitmap) (x0 y0 : Z) (v : LICE_pixel) :
  valid_bitmap bm -> valid_bitmap (set_pixel bm x0 y0 v).
Proof.
  unfold valid_bitmap, set_pixel.
  destruct (pixel_offset bm x0 y0 <? 0); [done|]. simpl.
  by rewrite length_insert.
Qed.

Lemma compute_roi_set_pixel (a b : LICE_IBitmap) (roi : option RECT.t)
    (x0 y0 : Z) (va vb : LICE_pixel) :
  compute_roi (Some (set_pixel a x0 y0 va)) (Some (set_pixel b x0 y0 vb)) roi
  = compute_roi (Some a) (Some b) roi.
Proof.
  destruct (set_pixel_dims a x0 y0 va) as [Hwa Hha].
  destruct (set_pixel_dims b x0 y0 vb) as [Hwb Hhb].
  unfold compute_roi. by rewrite Hwa, Hha, Hwb, Hhb.
Qed.

Section ScanIntProperties.
Context `{LICE}.



(** X15.  For valid bitmaps and sample steps that keep the loop counters
    [int]s, [CalculateSimilarity] returns, and what it returns is a double
    between 0.0 and 1.0, never a NaN, whatever the region, the other
    settings and the answer of the exact bitmap compare. *)
Theorem similarity_in_unit_range (a b : option LICE_IBitmap)
    (roi : option RECT.t) (cfg : DuplicateFrameRemovalSettings) :
  valid_arg a -> valid_arg b ->
  steps_fit_int (compute_roi a b roi) cfg ->
  exists s,
    CalculateSimilarity_int a b roi cfg = returned s
    /\ dbl_le dbl_0 s = true /\ dbl_le s dbl_1 = true.
Proof.
  intros Ha Hb Hfit. exists (CalculateSimilarity a b roi cfg).
  split; [by apply CalculateSimilarity_int_exact|].
  apply CalculateSimilarity_range; destruct a as [bm|]; simpl in *;
    try lia; by apply valid_bitmap_int_sized.
Qed.

(** X16.  For valid bitmaps and sample steps that keep the loop counters
    [int]s, the manual scan without early-out returns the number of sampled
    positions at which the pixel test succeeds divided by the number of
    sampled positions, as doubles.  The sampled columns are the columns
    [left + k * step] of the region, the sampled rows the rows
    [top + k * step], with each non-positive step taken as 1. *)
Theorem full_scan_score_is_equal_fraction (a b : LICE_IBitmap)
    (roi : option RECT.t) (cfg : DuplicateFrameRemovalSettings) :
  valid_bitmap a -> valid_bitmap b ->
  steps_fit_int (compute_roi (Some a) (Some b) roi) cfg ->
  path_of (Some a) (Some b) roi cfg = path_generic ->
  enable_early_out cfg = false ->
  let r := compute_roi (Some a) (Some b) roi in
  let xs := sample_columns r cfg in
  let ys := sample_rows r cfg in
  CalculateSimilarity_int (Some a) (Some b) roi cfg
  = returned (ratio (equal_samples a b cfg xs ys)
                (Z.of_nat (length xs) * Z.of_nat (length ys)))
  /\ (forall x, In x xs <->
        exists k, 0 <= k
          /\ x = RECT.left r + k * effective_step (sample_step_x cfg)
          /\ x < RECT.right r)
  /\ (forall y, In y ys <->
        exists k, 0 <= k
          /\ y = RECT.top r + k * effective_step (sample_step_y cfg)
          /\ y < RECT.bottom r).
Proof.
  intros Ha Hb Hfit Hpath Hearly r xs ys.
  destruct (valid_bitmap_int_sized a Ha) as [Hw Hh].
  destruct (full_scan_exact a b roi cfg Hw Hh Hpath Hearly)
    as (Hsim & Hxs & Hys).
  rewrite CalculateSimilarity_int_exact by done.
  split; [by rewrite Hsim|]. done.
Qed.

(** X17.  For valid bitmaps and sample steps that keep the loop counters
    [int]s: when the pixel test succeeds at every sampled position, the
    manual scan returns exactly 1.0, provided the early-out is disabled or
    the threshold is not above 1.0. *)
Theorem equal_samples_score_one (a b : LICE_IBitmap)
    (roi : option RECT.t) (cfg : DuplicateFrameRemovalSettings) :
  valid_bitmap a -> valid_bitmap b ->
  steps_fit_int (compute_roi (Some a) (Some b) roi) cfg ->
  path_of (Some a) (Some b) roi cfg = path_generic ->
  (enable_early_out cfg = true ->
   dbl_lt dbl_1 (similarity_threshold cfg) = false) ->
  (forall xx yy,
     In xx (sample_columns (compute_roi (Some a) (Some b) roi) cfg) ->
     In yy (sample_rows (compute_roi (Some a) (Some b) roi) cfg) ->
     equal_at a b cfg yy xx = true) ->
  CalculateSimilarity_int (Some a) (Some b) roi cfg = returned dbl_1.
Proof.
  intros Ha Hb Hfit Hpath Hthr Hall.
  destruct (valid_bitmap_int_sized a Ha) as [Hw Hh].
  rewrite CalculateSimilarity_int_exact by done.
  f_equal. by apply equal_samples_exact.
Qed.

(** X18.  For valid bitmaps and sample steps that keep the loop counters
    [int]s: when the pixel test fails at every sampled position, the manual
    scan returns exactly 0.0, with and without early-out. *)
Theorem different_samples_score_zero (a b : LICE_IBitmap)
    (roi : option RECT.t) (cfg : DuplicateFrameRemovalSettings) :
  valid_bitmap a -> valid_bitmap b ->
  steps_fit_int (compute_roi (Some a) (Some b) roi) cfg ->
  path_of (Some a) (Some b) roi cfg = path_generic ->
  (forall xx yy,
     In xx (sample_columns (compute_roi (Some a) (Some b) roi) cfg) ->
     In yy (sample_rows (compute_roi (Some a) (Some b) roi) cfg) ->
     equal_at a b cfg yy xx = false) ->
  CalculateSimilarity_int (Some a) (Some b) roi cfg = returned dbl_0.
Proof.
  intros Ha Hb Hfit Hpath Hall.
  destruct (valid_bitmap_int_sized a Ha) as [Hw Hh].
  rewrite CalculateSimilarity_int_exact by done.
  f_equal. by apply different_samples_exact.
Qed.

(** X20.  For valid bitmaps of one size and sample steps that keep the loop
    counters [int]s, a pixel of the bitmaps that lies outside the comparison
    region is never read: the call returns, and it returns the same score
    when that pixel is replaced in either bitmap or in both. *)
Theorem pixel_outside_region_ignored (a b : LICE_IBitmap)
    (roi : option RECT.t) (cfg : DuplicateFrameRemovalSettings)
    (x0 y0 : Z) (va vb : LICE_pixel) :
  getWidth a = getWidth b -> getHeight a = getHeight b ->
  valid_bitmap a -> valid_bitmap b ->
  steps_fit_int (compute_roi (Some a) (Some b) roi) cfg ->
  0 <= x0 < getWidth a -> 0 <= y0 < getHeight a ->
  ~ (RECT.left (compute_roi (Some a) (Some b) roi) <= x0
       < RECT.right (compute_roi (Some a) (Some b) roi)
     /\ RECT.top (compute_roi (Some a) (Some b) roi) <= y0
          < RECT.bottom (compute_roi (Some a) (Some b) roi)) ->
  exists s,
    CalculateSimilarity_int (Some (set_pixel a x0 y0 va))
      (Some (set_pixel b x0 y0 vb)) roi cfg
    = returned s
    /\ CalculateSimilarity_int (Some a) (Some b) roi cfg = returned s.
Proof.
  intros Hw Hh Ha Hb Hfit Hx0 Hy0 Hout.
  exists (CalculateSimilarity (Some a) (Some b) roi cfg).
  split; [|by apply CalculateSimilarity_int_exact].
  rewrite CalculateSimilarity_int_exact.
  - f_equal.
    apply outside_region_exact; try done; unfold valid_bitmap in *; lia.
  - by apply set_pixel_valid.
  - by apply set_pixel_valid.
  - by rewrite compute_roi_set_pixel.
Qed.

(** On valid bitmaps whose loop counters stay [int]s over the whole frame,
    the duplicate test on 32-bit integers returns what the duplicate test in
    exact arithmetic computes. *)
Lemma IsDuplicateFrame_int_exact (prev curr : FrameInfo.t)
    (cfg : DuplicateFrameRemovalSettings) :
  valid_arg (FrameInfo.bmp prev) -> valid_arg (FrameInfo.bmp curr) ->
  (forall bm, FrameInfo.bmp prev = Some bm ->
     steps_fit_int (frame_rect bm) cfg) ->
  IsDuplicateFrame_int prev curr cfg
  = returned (IsDuplicateFrame prev curr cfg).
Proof.
  intros Hp Hc Hfit. unfold IsDuplicateFrame_int, IsDuplicateFrame.
  destruct (FrameInfo.bmp prev) as [pb|] eqn:Hpb; [|done].
  destruct (FrameInfo.bmp curr) as [cb|] eqn:Hcb; [|done].
  simpl in Hp, Hc.
  rewrite CalculateSimilarity_int_exact; [done|done|done|].
  destruct (valid_bitmap_int_sized pb Hp) as [Hw Hh].
  apply (steps_fit_int_within pb); [|by apply Hfit].
  destruct (valid_bitmap_int_sized cb Hc) as [Hwc Hhc].
  pose proof (compute_roi_rect_within (Some pb) (Some cb)
                (Some (frame_roi prev curr pb cb))) as Hin.
  cbn [bitmap_width bitmap_height] in Hin. unfold rect_within in *.
  specialize (Hin ltac:(lia) ltac:(lia) ltac:(lia) ltac:(lia)). lia.
Qed.

(** X23.  Two frames that share one valid bitmap are duplicates with the
    similarity 1.0, whatever their regions, the tolerance and the mask, when
    the sample steps keep the loop counters [int]s over the whole frame, the
    threshold is at most 1.0 and the exact bitmap compare reports the bitmap
    identical to itself. *)
Theorem same_bitmap_is_duplicate (cfg : DuplicateFrameRemovalSettings)
    (a : LICE_IBitmap) (prev curr : FrameInfo.t) :
  valid_bitmap a -> steps_fit_int (frame_rect a) cfg ->
  dbl_le (similarity_threshold cfg) dbl_1 = true ->
  fst (LICE_BitmapCmpEx (Some a) (Some a) (channel_mask cfg)) = 0 ->
  FrameInfo.bmp prev = Some a -> FrameInfo.bmp curr = Some a ->
  IsDuplicateFrame_int prev curr cfg = returned (true, dbl_1).
Proof.
  intros Ha Hfit Hthr Hcmp Hp Hc.
  destruct (valid_bitmap_int_sized a Ha) as [Hw Hh].
  rewrite IsDuplicateFrame_int_exact.
  - f_equal. by apply (is_dup_same_bitmap cfg a).
  - by rewrite Hp.
  - by rewrite Hc.
  - intros bm Hbm. rewrite Hp in Hbm. by injection Hbm as <-.
Qed.

(** X24.  Frames that all share one valid bitmap collapse into a single
    frame when the sample steps keep the loop counters [int]s over the whole
    frame, the threshold is at most 1.0 and the exact bitmap compare reports
    the bitmap identical to itself: every duplicate test among them returns
    a duplicate, all frames but one are removed, and the frame that is left
    is the first input frame when the first of a run is kept and the last
    input frame when the last is, up to its delay. *)
Theorem shared_bitmap_collapses_to_one (cfg : DuplicateFrameRemovalSettings)
    (a : LICE_IBitmap) (first : FrameInfo.t) (rest : list FrameInfo.t)
    (arr : FrameArray.t) (ri : option IndexArray.t) :
  valid_bitmap a -> steps_fit_int (frame_rect a) cfg ->
  dbl_le (similarity_threshold cfg) dbl_1 = true ->
  fst (LICE_BitmapCmpEx (Some a) (Some a) (channel_mask cfg)) = 0 ->
  Forall (fun f => FrameInfo.bmp f = Some a) (first :: rest) ->
  let r := RemoveDuplicateFrames (first :: rest) (Some arr) cfg ri in
  (forall p c, In p (first :: rest) -> In c (first :: rest) ->
     IsDuplicateFrame_int p c cfg = returned (IsDuplicateFrame p c cfg)
     /\ fst (IsDuplicateFrame p c cfg) = true)
  /\ removed_count r = Z.of_nat (length rest)
  /\ exists f,
       output_frames r = [f]
       /\ erase_delay f
          = erase_delay
              (match keep_mode cfg with
               | kDuplicateKeepFirst => first
               | kDuplicateKeepLast => default first (last rest)
               end).
Proof.
  intros Ha Hfit Hthr Hcmp Hall r.
  destruct (valid_bitmap_int_sized a Ha) as [Hw Hh].
  split;
    [|exact (shared_bitmap_collapse cfg a first rest arr ri
               Hw Hh Hthr Hcmp Hall)].
  intros p c Hp Hc.
  rewrite Forall_forall in Hall.
  pose proof (Hall p (proj2 (list_elem_of_In _ _) Hp)) as Hpa.
  pose proof (Hall c (proj2 (list_elem_of_In _ _) Hc)) as Hca.
  simpl in Hpa, Hca. split.
  - apply IsDuplicateFrame_int_exact.
    + by rewrite Hpa.
    + by rewrite Hca.
    + intros bm Hbm. rewrite Hpa in Hbm. by injection Hbm as <-.
  - by rewrite (is_dup_same_bitmap cfg a p c).
Qed.
End ScanIntProperties.

(** ** The properties of the scan on 32-bit integers, on concrete inputs *)

(** Validity of a concrete bitmap, and of sample steps on it. *)
Ltac concrete_bounds :=
  unfold valid_arg, valid_bitmap, steps_fit_int, effective_step, compute_roi,
    clampi; simpl; lia.



(** C4, as stated, fails where the delays of a run add up to more than
    [INT_MAX]: two frames on one bitmap with the delays [INT_MAX] and 1 are
    one run whose delays sum to 2147483648, and the frame that is output
    has the delay -2147483648. *)
Lemma sum_mode_delay_wraps :
  delay_adjust_mode default_settings = kSum
  /\ @runs lice_simple default_settings long_delay_frames
     = [long_delay_frames]
  /\ delay_total long_delay_frames = 2147483648
  /\ map FrameInfo.delay_ms
       (output_frames
          (@RemoveDuplicateFrames lice_simple long_delay_frames empty_frames
             default_settings empty_indices))
     = [-2147483648].
Proof. vm_compute. repeat split; reflexivity. Qed.




(** Four pixels of which one differs, sampled at every second column with
    tolerance 1. *)
Lemma similarity_in_unit_range_witness :
  let a := Some (strip [0; 0; 0; 0]) in
  let b := Some (strip [0; 4294967295; 0; 0]) in
  let cfg := settings_with 2 1 1 kDuplicateKeepFirst false in
  exists s,
    @CalculateSimilarity_int lice_simple a b None cfg = returned s
    /\ dbl_le dbl_0 s = true /\ dbl_le s dbl_1 = true.
Proof.
  apply (@similarity_in_unit_range lice_simple (Some (strip [0; 0; 0; 0]))
           (Some (strip [0; 4294967295; 0; 0])) None
           (settings_with 2 1 1 kDuplicateKeepFirst false));
    concrete_bounds.
Defined.

(** Four pixels of which one differs, tolerance 1, no early-out: 3 / 4. *)
Lemma full_scan_score_is_equal_fraction_witness :
  let a := strip [0; 0; 0; 0] in
  let b := strip [0; 4294967295; 0; 0] in
  let cfg := settings_with 1 1 1 kDuplicateKeepFirst false in
  let r := compute_roi (Some a) (Some b) None in
  let xs := sample_columns r cfg in
  let ys := sample_rows r cfg in
  @CalculateSimilarity_int lice_simple (Some a) (Some b) None cfg
  = returned (ratio (@equal_samples lice_simple a b cfg xs ys)
                (Z.of_nat (length xs) * Z.of_nat (length ys)))
  /\ (forall x, In x xs <->
        exists k, 0 <= k
          /\ x = RECT.left r + k * effective_step (sample_step_x cfg)
          /\ x < RECT.right r)
  /\ (forall y, In y ys <->
        exists k, 0 <= k
          /\ y = RECT.top r + k * effective_step (sample_step_y cfg)
          /\ y < RECT.bottom r).
Proof.
  apply (@full_scan_score_is_equal_fraction lice_simple (strip [0; 0; 0; 0])
           (strip [0; 4294967295; 0; 0]) None
           (settings_with 1 1 1 kDuplicateKeepFirst false)).
  - concrete_bounds.
  - concrete_bounds.
  - concrete_bounds.
  - reflexivity.
  - reflexivity.
Defined.

(** Two equal pixels, tolerance 1, early-out on. *)
Lemma equal_samples_score_one_witness :
  @CalculateSimilarity_int lice_simple (Some (strip [0; 0]))
    (Some (strip [0; 0])) None (settings_with 1 1 1 kDuplicateKeepFirst true)
  = returned dbl_1.
Proof.
  apply (@equal_samples_score_one lice_simple).
  - concrete_bounds.
  - concrete_bounds.
  - concrete_bounds.
  - reflexivity.
  - intros _. reflexivity.
  - intros xx yy Hx Hy. vm_compute in Hx, Hy.
    destruct Hx as [<-|[<-|[]]]; destruct Hy as [<-|[]]; reflexivity.
Defined.

(** Two black pixels against two white ones. *)
Lemma different_samples_score_zero_witness :
  @CalculateSimilarity_int lice_simple (Some (strip [0; 0]))
    (Some (strip [4294967295; 4294967295])) None
    (settings_with 1 1 1 kDuplicateKeepFirst true)
  = returned dbl_0.
Proof.
  apply (@different_samples_score_zero lice_simple).
  - concrete_bounds.
  - concrete_bounds.
  - concrete_bounds.
  - reflexivity.
  - intros xx yy Hx Hy. vm_compute in Hx, Hy.
    destruct Hx as [<-|[<-|[]]]; destruct Hy as [<-|[]]; reflexivity.
Defined.

(** The pixel (3,3) of a 4 x 4 frame compared on its top-left 2 x 2
    pixels. *)
Lemma pixel_outside_region_ignored_witness :
  let roi := Some (RECT.mk 0 0 2 2) in
  exists s,
    @CalculateSimilarity_int lice_simple
      (Some (set_pixel (make_solid 4 4 0) 3 3 0))
      (Some (set_pixel (make_solid 4 4 0) 3 3 4294967295)) roi
      default_settings
    = returned s
    /\ @CalculateSimilarity_int lice_simple (Some (make_solid 4 4 0))
         (Some (make_solid 4 4 0)) roi default_settings
       = returned s.
Proof.
  apply (@pixel_outside_region_ignored lice_simple (make_solid 4 4 0)
           (make_solid 4 4 0) (Some (RECT.mk 0 0 2 2)) default_settings
           3 3 0 4294967295); try concrete_bounds; simpl; lia.
Defined.

(** Two frames on the bitmap A, compared by the manual scan at every second
    pixel with tolerance 1. *)
Lemma same_bitmap_is_duplicate_witness :
  @IsDuplicateFrame_int lice_simple (FrameInfo.make 0 (Some bitmap_A) 100)
    (FrameInfo.make 1 (Some bitmap_A) 110)
    (settings_with 2 2 1 kDuplicateKeepFirst true)
  = returned (true, dbl_1).
Proof.
  apply (@same_bitmap_is_duplicate lice_simple
           (settings_with 2 2 1 kDuplicateKeepFirst true) bitmap_A).
  - concrete_bounds.
  - concrete_bounds.
  - reflexivity.
  - reflexivity.
  - reflexivity.
  - reflexivity.
Defined.

(** Three frames on one bitmap, the last of a run kept. *)
Lemma shared_bitmap_collapses_to_one_witness :
  let cfg := settings_with 1 1 0 kDuplicateKeepLast true in
  let r := @RemoveDuplicateFrames lice_simple three_same_frames empty_frames
             cfg None in
  (forall p c, In p three_same_frames -> In c three_same_frames ->
     @IsDuplicateFrame_int lice_simple p c cfg
     = returned (@IsDuplicateFrame lice_simple p c cfg)
     /\ fst (@IsDuplicateFrame lice_simple p c cfg) = true)
  /\ removed_count r = 2
  /\ exists f,
       output_frames r = [f]
       /\ erase_delay f
          = erase_delay
              (match keep_mode cfg with
               | kDuplicateKeepFirst => FrameInfo.make 0 (Some bitmap_A) 30
               | kDuplicateKeepLast =>
                   default (FrameInfo.make 0 (Some bitmap_A) 30)
                     (last [FrameInfo.make 1 (Some bitmap_A) 60;
                            FrameInfo.make 2 (Some bitmap_A) 90])
               end).
Proof.
  apply (@shared_bitmap_collapses_to_one lice_simple
           (settings_with 1 1 0 kDuplicateKeepLast true) bitmap_A).
  - concrete_bounds.
  - concrete_bounds.
  - reflexivity.
  - reflexivity.
  - repeat constructor.
Defined.
